(** * LM Studio provider: a shallow embedding of [src/api/providers/lm-studio.ts]

    The development follows the source file top-down: JavaScript strings and
    the string methods the provider calls, the [SSEParser] class, the values
    produced by [JSON.parse] together with the property accesses the handler
    performs on them, the streaming generator [createMessage], and the
    model-listing helper [getLmStudioModels].  What the file imports
    ([JSON.parse], axios, [countTokens], [XmlMatcher],
    [NativeToolCallParser]) is gathered in the record [Externals], and the
    handler is modelled and verified for every instance of it; the modules
    [TagClassifier] and [ToolCallAssembler] give the instances the
    specification describes.  The definitions come first, the lemmas and
    theorems about them afterwards. *)

From Stdlib Require Import NArith ZArith Bool String Ascii Lia List.
From Stdlib Require Import Floats.SpecFloat.
Import ListNotations.

Set Implicit Arguments.

(* ================================================================== *)
(** ** JavaScript strings *)
(* ================================================================== *)

(** A JavaScript string is a finite sequence of UTF-16 code units. *)
Definition jsstring : Type := list N.

(** String literals of the source are all ASCII; [lit] turns a literal into
    its code units. *)
Definition lit (s : string) : jsstring :=
  map N_of_ascii (list_ascii_of_string s).

Fixpoint str_eqb (a b : jsstring) : bool :=
  match a, b with
  | [], [] => true
  | x :: a', y :: b' => N.eqb x y && str_eqb a' b'
  | _, _ => false
  end.

(** A string is truthy exactly when it is not empty. *)
Definition str_truthy (s : jsstring) : bool :=
  match s with [] => false | _ :: _ => true end.

(** [s.startsWith(prefix)] *)
Fixpoint startsWith (prefix s : jsstring) : bool :=
  match prefix, s with
  | [], _ => true
  | x :: prefix', y :: s' => N.eqb x y && startsWith prefix' s'
  | _ :: _, [] => false
  end.

(** [s.slice(n)] for a non-negative [n]. *)
Definition slice (n : nat) (s : jsstring) : jsstring := skipn n s.

(** The code units [String.prototype.trim] removes: ECMAScript's WhiteSpace
    and LineTerminator productions. *)
Definition isWhiteSpace (c : N) : bool :=
  (N.eqb c 9 || N.eqb c 10 || N.eqb c 11 || N.eqb c 12 || N.eqb c 13
   || N.eqb c 32 || N.eqb c 160 || N.eqb c 5760
   || (N.leb 8192 c && N.leb c 8202)
   || N.eqb c 8232 || N.eqb c 8233 || N.eqb c 8239 || N.eqb c 8287
   || N.eqb c 12288 || N.eqb c 65279)%N.

Fixpoint trimStart (s : jsstring) : jsstring :=
  match s with
  | [] => []
  | c :: s' => if isWhiteSpace c then trimStart s' else s
  end.

Definition trimEnd (s : jsstring) : jsstring := rev (trimStart (rev s)).

(** [s.trim()] *)
Definition trim (s : jsstring) : jsstring := trimEnd (trimStart s).

(** The line feed, the separator of [buffer.split("\n")]. *)
Definition LF : N := 10%N.

(** [s.split("\n")]: the pieces between line feeds; never empty, and
    [[""]] for the empty string. *)
Fixpoint split_lf (s : jsstring) : list jsstring :=
  match s with
  | [] => [[]]
  | c :: s' =>
      if N.eqb c LF then [] :: split_lf s'
      else match split_lf s' with
           | l :: ls => (c :: l) :: ls
           | [] => [[c]]
           end
  end.

(** [lines.join("\n")], the inverse of [split_lf]. *)
Fixpoint join_lf (ls : list jsstring) : jsstring :=
  match ls with
  | [] => []
  | [l] => l
  | l :: ls' => l ++ LF :: join_lf ls'
  end.

(** The complete lines of a text and the text after its last line feed:
    [lines] after [lines.pop()], and what [pop] returns. *)
Fixpoint cut (s : jsstring) : list jsstring * jsstring :=
  match s with
  | [] => ([], [])
  | c :: s' =>
      let (ls, r) := cut s' in
      if N.eqb c LF then ([] :: ls, r)
      else match ls with
           | [] => ([], c :: r)
           | l :: ls' => ((c :: l) :: ls', r)
           end
  end.

(* ================================================================== *)
(** ** SSEParser (lines 20-55) *)
(* ================================================================== *)

Module SSEParser.

(** [private buffer = ""] *)
Record t : Type := { buffer : jsstring }.

Definition init : t := {| buffer := [] |}.

Definition DATA_PREFIX : jsstring := lit "data: ".
Definition DONE : jsstring := lit "[DONE]".

(** The body of the [for (const line of lines)] loop of [parse]: one
    iteration, [results] being the array built so far. *)
Definition parse_line (results : list jsstring) (line : jsstring) : list jsstring :=
  if startsWith DATA_PREFIX line then
    let data := trim (slice 6 line) in
    if str_truthy data && negb (str_eqb data DONE) then results ++ [data]
    else results
  else results.

(** [parse(chunk)]: returns the results and the parser with its new buffer.
    [lines.pop()] takes the last piece of the split away from [lines]; it is
    the text after the last line feed. *)
Definition parse (p : t) (chunk : jsstring) : list jsstring * t :=
  let buffer1 := buffer p ++ chunk in
  let lines := split_lf buffer1 in
  let buffer2 := last lines [] in
  let lines := removelast lines in
  (fold_left parse_line lines [], {| buffer := buffer2 |}).

(** [final()] *)
Definition final (p : t) : list jsstring :=
  if str_truthy (trim (buffer p)) then
    let data := trim (buffer p) in
    if startsWith DATA_PREFIX data then
      let content := trim (slice 6 data) in
      if str_truthy content && negb (str_eqb content DONE) then [content]
      else []
    else []
  else [].

(** Feeding the chunks of a stream in order: the results of the successive
    [parse] calls, concatenated, and the parser left behind. *)
Fixpoint feed (p : t) (chunks : list jsstring) : list jsstring * t :=
  match chunks with
  | [] => ([], p)
  | c :: rest =>
      let (out, p1) := parse p c in
      let (outs, p2) := feed p1 rest in
      (out ++ outs, p2)
  end.

(** Demuxer plus flush: every payload of a chunked stream. *)
Definition demux (chunks : list jsstring) : list jsstring :=
  let (out, p) := feed init chunks in
  out ++ final p.

(** The rule of the specification for one line, in the specification's
    words: a line carrying the event-data prefix has the prefix stripped and
    the rest trimmed, and the payload counts unless it is empty or the
    terminator sentinel; any other line contributes nothing. *)
Definition frame_rule (line : jsstring) : list jsstring :=
  if startsWith DATA_PREFIX line then
    let payload := trim (skipn (List.length DATA_PREFIX) line) in
    match payload with
    | [] => []
    | _ => if str_eqb payload DONE then [] else [payload]
    end
  else [].

(** All payloads of a text received in one piece: the rule on its complete
    lines, then [final] on what follows the last line feed. *)
Definition payloads (text : jsstring) : list jsstring :=
  flat_map frame_rule (fst (cut text)) ++ final {| buffer := snd (cut text) |}.

End SSEParser.

(* ================================================================== *)
(** ** Completions, errors and JSON values *)
(* ================================================================== *)

(** What the [catch] clause of [createMessage] reads of a thrown value:
    [axios.isCancel(error)], [error.name] and [error.code]. *)
Record JsError : Type := {
  err_isCancel : bool;
  err_name : jsstring;
  err_code : option jsstring
}.

Definition TypeError : JsError :=
  {| err_isCancel := false; err_name := lit "TypeError"; err_code := None |}.
Definition SyntaxError : JsError :=
  {| err_isCancel := false; err_name := lit "SyntaxError"; err_code := None |}.
(** [new Error(...)] *)
Definition PlainError : JsError :=
  {| err_isCancel := false; err_name := lit "Error"; err_code := None |}.

(** An evaluation either returns a value or throws. *)
Inductive completion (A : Type) : Type :=
| Normal (a : A)
| Throw (e : JsError).
Arguments Normal {A} a.
Arguments Throw {A} e.

Definition bind {A B : Type} (c : completion A) (k : A -> completion B) : completion B :=
  match c with
  | Normal a => k a
  | Throw e => Throw e
  end.

(** [try { body } catch (error) { handler }] *)
Definition try_catch {A : Type} (body : completion A) (handler : JsError -> completion A)
  : completion A :=
  match body with
  | Normal a => Normal a
  | Throw e => handler e
  end.

Notation "x <- c ;; k" := (bind c (fun x => k))
  (at level 61, c at next level, right associativity).

(** The values the handler meets: what [JSON.parse] builds, and [undefined]
    for absent properties.  Numbers are IEEE doubles; objects keep their
    properties in insertion order (an object built by [JSON.parse] has no
    two properties of the same name). *)
#[warnings="-register-all"]
Inductive value : Type :=
| VUndefined
| VNull
| VBool (b : bool)
| VNum (x : spec_float)
| VStr (s : jsstring)
| VArr (elems : list value)
| VObj (props : list (jsstring * value)).

Definition nullish (v : value) : bool :=
  match v with
  | VUndefined | VNull => true
  | _ => false
  end.

(** ToBoolean *)
Definition truthy (v : value) : bool :=
  match v with
  | VUndefined | VNull => false
  | VBool b => b
  | VNum (S754_zero _) | VNum S754_nan => false
  | VNum _ => true
  | VStr s => str_truthy s
  | VArr _ | VObj _ => true
  end.

Fixpoint lookup (key : jsstring) (props : list (jsstring * value)) : value :=
  match props with
  | [] => VUndefined
  | (k, v) :: rest => if str_eqb k key then v else lookup key rest
  end.

(** Whether an object has a property of its own under the name. *)
Definition hasOwn (key : jsstring) (props : list (jsstring * value)) : bool :=
  existsb (fun kv => str_eqb (fst kv) key) props.

(** [v?.key] for the property names this file reads ([choices], [delta],
    [finish_reason], [content], [tool_calls], [index], [id], [function],
    [name], [arguments], [data], [message]): [undefined] on [null] and
    [undefined], the
    own property of an object, and [undefined] on strings, numbers, booleans
    and arrays, whose prototypes define none of these names. *)
Definition optProp (v : value) (key : jsstring) : value :=
  match v with
  | VObj props => lookup key props
  | _ => VUndefined
  end.

(** [v.key]: as [v?.key], except that reading a property of [null] or
    [undefined] throws a TypeError. *)
Definition getProp (v : value) (key : jsstring) : completion value :=
  if nullish v then Throw TypeError else Normal (optProp v key).

(** [v?.[0]] *)
Definition optIndex0 (v : value) : value :=
  match v with
  | VArr elems => hd VUndefined elems
  | VStr (c :: _) => VStr [c]
  | VObj props => lookup (lit "0") props
  | _ => VUndefined
  end.

Definition isHighSurrogate (c : N) : bool := (N.leb 55296 c && N.leb c 56319)%N.
Definition isLowSurrogate (c : N) : bool := (N.leb 56320 c && N.leb c 57343)%N.

(** The string iterator: one string per code point, a surrogate pair
    staying together. *)
Fixpoint codePoints (s : jsstring) : list jsstring :=
  match s with
  | [] => []
  | c :: s1 =>
      match s1 with
      | d :: s2 =>
          if isHighSurrogate c && isLowSurrogate d then [c; d] :: codePoints s2
          else [c] :: codePoints s1
      | [] => [[c]]
      end
  end.

(** What [for (const x of v)] iterates over; a value that is not iterable
    throws a TypeError before the first iteration. *)
Definition iterate (v : value) : completion (list value) :=
  match v with
  | VArr elems => Normal elems
  | VStr s => Normal (map VStr (codePoints s))
  | _ => Throw TypeError
  end.

(** SameValueZero, the equality of [Set]: arrays and objects are compared by
    identity, and the arrays and objects met here are pairwise distinct
    results of parsing. *)
Definition sameValueZero (a b : value) : bool :=
  match a, b with
  | VUndefined, VUndefined => true
  | VNull, VNull => true
  | VBool x, VBool y => Bool.eqb x y
  | VNum S754_nan, VNum S754_nan => true
  | VNum x, VNum y => SFeqb x y
  | VStr x, VStr y => str_eqb x y
  | _, _ => false
  end.

(** What a [Set] stores for a value it is given: the value itself, and
    [+0] for [-0]. *)
Definition setKey (v : value) : value :=
  match v with
  | VNum (S754_zero true) => VNum (S754_zero false)
  | _ => v
  end.

(** [[...new Set(values)]]: what the set stores for the first occurrence of
    every value, in order. *)
Fixpoint dedup (seen values : list value) : list value :=
  match values with
  | [] => []
  | v :: rest =>
      if existsb (sameValueZero v) seen then dedup seen rest
      else setKey v :: dedup (seen ++ [setKey v]) rest
  end.

(* ================================================================== *)
(** ** Stream events, request inputs and the console *)
(* ================================================================== *)

(** The chunks of an [ApiStream] this provider yields. *)
Inductive ApiStreamChunk : Type :=
| ApiText (text : jsstring)
| ApiReasoning (text : jsstring)
| ApiToolCallPartial (index id name arguments : value)
| ApiToolCallEnd (id : value)
| ApiUsage (inputTokens outputTokens : N).

Definition isUsage (c : ApiStreamChunk) : bool :=
  match c with ApiUsage _ _ => true | _ => false end.

Definition isTextOrReasoning (c : ApiStreamChunk) : bool :=
  match c with ApiText _ | ApiReasoning _ => true | _ => false end.

Definition isToolCall (c : ApiStreamChunk) : bool :=
  match c with ApiToolCallPartial _ _ _ _ | ApiToolCallEnd _ => true | _ => false end.

(** A chunk of the tag matcher before the caller's transform. *)
Record XmlMatcherResult : Type := { matched : bool; data : jsstring }.

(** The transform [createMessage] hands to [new XmlMatcher("think", ...)]
    (lines 190-194). *)
Definition transform (chunk : XmlMatcherResult) : ApiStreamChunk :=
  if matched chunk then ApiReasoning (data chunk) else ApiText (data chunk).

(** [Anthropic.Messages.ContentBlockParam]: a text block, or a block of
    another type (image, tool use, tool result, ...). *)
Inductive ContentBlockParam : Type :=
| TextBlock (text : jsstring)
| OtherBlock (type : jsstring).

(** [MessageParam.content]: a string or an array of blocks. *)
Inductive MessageContent : Type :=
| ContentString (s : jsstring)
| ContentBlocks (parts : list ContentBlockParam).

Record MessageParam : Type := { role : jsstring; content : MessageContent }.

(** [toContentBlocks] (lines 118-138). *)
Definition toContentBlocks (blocks : list MessageParam + jsstring) : list ContentBlockParam :=
  match blocks with
  | inr s => [TextBlock s]
  | inl msgs =>
      fold_left
        (fun result msg =>
           match content msg with
           | ContentString s => result ++ [TextBlock s]
           | ContentBlocks parts =>
               fold_left
                 (fun result part =>
                    match part with
                    | TextBlock t => result ++ [TextBlock t]
                    | OtherBlock _ => result
                    end)
                 parts result
           end)
        msgs []
  end.

(** How the response body ends once its chunks are delivered. *)
Inductive StreamEnd : Type :=
| EndOfStream
| StreamError (e : JsError).

(** What the transport does with the request: [await axios(...)] rejects,
    resolves without a body, or resolves with a body that delivers its
    chunks (each already decoded by [chunk.toString("utf-8")]) and ends. *)
Inductive Response : Type :=
| RequestFailed (e : JsError)
| NoStream
| Streaming (chunks : list jsstring) (ending : StreamEnd).

(** How the generator ends for its caller. *)
Inductive Outcome : Type :=
| Returned
| Threw (message : jsstring).

(** The console lines that trace the control flow of [createMessage]. *)
Inductive ConsoleEntry : Type :=
| ErrInputTokens          (* line 144 *)
| LogStarting             (* line 169 *)
| LogStreamStarted        (* line 185 *)
| LogAbortDetected        (* line 208 *)
| ErrParse (data : jsstring)  (* line 249 *)
| ErrOutputTokens         (* line 283 *)
| LogCompleted            (* line 293 *)
| LogStoppedByAbort       (* line 295 *)
| LogCancelled            (* line 300 *)
| LogStreamDestroyed      (* line 307 *)
| ErrStream.              (* line 310 *)

Definition TIMEOUT_MESSAGE : jsstring :=
  lit "Request timed out. This shouldn't happen with axios - please check your setup.".
Definition FAILURE_MESSAGE : jsstring :=
  lit "Please check the LM Studio developer logs to debug what went wrong. You may need to load the model with a larger context length to work with Roo Code's prompts.".

(** [abortSignal.aborted] as the generator reads it.  The reads of one run
    are numbered by the chunks pulled before them: read [i] is the check of
    line 207 after chunk [i] is pulled, and the read after the last chunk is
    the one of line 255 (the stream ended) or of line 299 (it threw).  A
    signal never goes back, so a run is described by the first read that
    sees it set, if any. *)
Definition aborted (abort : option nat) (i : nat) : bool :=
  match abort with
  | Some k => Nat.leb k i
  | None => false
  end.

(* ================================================================== *)
(** ** What the handler calls but the source file does not define *)
(* ================================================================== *)

(** The functions of the JavaScript runtime, of axios and of the rest of
    the repository that [lm-studio.ts] calls.  The handler is modelled for
    any behaviour of them:
    - [numberToString] is Number::toString and [JSON_parse] is [JSON.parse];
    - [countTokens] is [BaseProvider.countTokens];
    - [Matcher], with [matcher_new], [matcher_update] and [matcher_final],
      is the [XmlMatcher] built by [new XmlMatcher("think", transform)],
      before the transform is applied;
    - [Tracker] is the static state of [NativeToolCallParser], which the
      consumer of the generator may change whenever it receives a chunk
      ([onYield]) and which [processFinishReason] reads and may change;
    - [URL_canParse] and [axios_get] serve [getLmStudioModels]. *)
Record Externals : Type := {
  numberToString : spec_float -> jsstring;
  JSON_parse : jsstring -> completion value;
  countTokens : list ContentBlockParam -> completion N;
  Matcher : Type;
  matcher_new : Matcher;
  matcher_update : Matcher -> value -> list XmlMatcherResult * Matcher;
  matcher_final : Matcher -> list XmlMatcherResult;
  Tracker : Type;
  tracker_init : Tracker;
  onYield : Tracker -> ApiStreamChunk -> Tracker;
  processFinishReason : Tracker -> value -> list value * Tracker;
  URL_canParse : jsstring -> bool;
  axios_get : jsstring -> completion value
}.

(** The same externals with another token counter. *)
Definition with_countTokens (E : Externals)
  (count : list ContentBlockParam -> completion N) : Externals :=
  {| numberToString := numberToString E;
     JSON_parse := JSON_parse E;
     countTokens := count;
     Matcher := Matcher E;
     matcher_new := matcher_new E;
     matcher_update := matcher_update E;
     matcher_final := matcher_final E;
     Tracker := Tracker E;
     tracker_init := tracker_init E;
     onYield := onYield E;
     processFinishReason := processFinishReason E;
     URL_canParse := URL_canParse E;
     axios_get := axios_get E |}.

(** A counter that returns zero where [count] throws. *)
Definition zero_on_throw (count : list ContentBlockParam -> completion N)
  (blocks : list ContentBlockParam) : completion N :=
  match count blocks with
  | Normal n => Normal n
  | Throw _ => Normal 0%N
  end.

(* ================================================================== *)
(** ** LmStudioHandler.createMessage (lines 102-323) *)
(* ================================================================== *)

(** What the processing of a payload reads and changes: the matcher, the
    text accumulated in [assistantText], and the tool-call parser's state. *)
Record ProcOf (M T : Type) : Type := {
  p_matcher : M;
  p_text : jsstring;
  p_tracker : T
}.

(** The result of leaving the [for await] loop. *)
Record LoopExitOf (S : Type) : Type := {
  l_sse : SSEParser.t;
  l_state : S;
  l_events : list ApiStreamChunk;
  l_console : list ConsoleEntry;
  l_reads : nat;     (* chunks pulled before the next read of the signal *)
  l_broke : bool     (* left by [break] *)
}.

Section Handler.

Variable E : Externals.

(** ToString, as [assistantText += delta.content] applies it to a value
    built by [JSON.parse]: the value is first turned into a primitive.  An
    object is asked for its [valueOf] and [toString]; the inherited
    [valueOf] returns the object itself, an own [valueOf] is no function,
    and so the string comes from the inherited [toString] unless the object
    has a property [toString] of its own, which is no function either: then
    no method is left and the conversion throws a TypeError.  An array is
    joined with commas by its inherited [toString], [null] elements giving
    the empty string and every other element being converted in turn. *)
Fixpoint ToString (v : value) : completion jsstring :=
  match v with
  | VUndefined => Normal (lit "undefined")
  | VNull => Normal (lit "null")
  | VBool true => Normal (lit "true")
  | VBool false => Normal (lit "false")
  | VNum x => Normal (numberToString E x)
  | VStr s => Normal s
  | VArr elems =>
      (fix join (l : list value) : completion jsstring :=
         match l with
         | [] => Normal []
         | e :: l' =>
             match (if nullish e then Normal [] else ToString e) with
             | Throw err => Throw err
             | Normal s =>
                 match l' with
                 | [] => Normal s
                 | _ :: _ =>
                     match join l' with
                     | Throw err => Throw err
                     | Normal rest => Normal (s ++ lit "," ++ rest)
                     end
                 end
             end
         end) elems
  | VObj props =>
      if hasOwn (lit "toString") props then Throw TypeError
      else Normal (lit "[object Object]")
  end.

Definition Proc : Type := ProcOf (Matcher E) (Tracker E).

(** The consumer receives the chunks one after the other. *)
Definition yieldAll (chunks : list ApiStreamChunk) (t : Tracker E) : Tracker E :=
  fold_left (onYield E) chunks t.

(** [if (delta?.content) { ... }] (lines 221-226 and 263-268); the flag
    tells whether the conversion of line 222 (264) threw, which happens
    before the text is extended and before the matcher sees the content. *)
Definition contentStep (st : Proc) (delta : value)
  : Proc * list ApiStreamChunk * bool :=
  let content := optProp delta (lit "content") in
  if truthy content then
    match ToString content with
    | Throw _ => (st, [], true)
    | Normal s =>
        let (results, m) := matcher_update E (p_matcher st) content in
        let out := map transform results in
        ({| p_matcher := m;
            p_text := p_text st ++ s;
            p_tracker := yieldAll out (p_tracker st) |}, out, false)
    end
  else (st, [], false).

(** [for (const toolCall of delta.tool_calls) yield {...}] (lines 230-238);
    the flag tells whether reading [toolCall.index] threw. *)
Fixpoint toolCallsLoop (t : Tracker E) (toolCalls : list value)
  : Tracker E * list ApiStreamChunk * bool :=
  match toolCalls with
  | [] => (t, [], false)
  | toolCall :: rest =>
      if nullish toolCall then (t, [], true)
      else
        let fn := optProp toolCall (lit "function") in
        let chunk :=
          ApiToolCallPartial (optProp toolCall (lit "index"))
                             (optProp toolCall (lit "id"))
                             (optProp fn (lit "name"))
                             (optProp fn (lit "arguments")) in
        let '(t1, out, threw) := toolCallsLoop (onYield E t chunk) rest in
        (t1, chunk :: out, threw)
  end.

(** [if (delta?.tool_calls) { ... }] (lines 229-239). *)
Definition toolCallsStep (st : Proc) (delta : value) : Proc * list ApiStreamChunk * bool :=
  let tool_calls := optProp delta (lit "tool_calls") in
  if truthy tool_calls then
    match iterate tool_calls with
    | Throw _ => (st, [], true)
    | Normal toolCalls =>
        let '(t, out, threw) := toolCallsLoop (p_tracker st) toolCalls in
        ({| p_matcher := p_matcher st; p_text := p_text st; p_tracker := t |},
         out, threw)
    end
  else (st, [], false).

(** [if (finishReason) { ... }] (lines 242-247). *)
Definition finishStep (st : Proc) (finishReason : value) : Proc * list ApiStreamChunk :=
  if truthy finishReason then
    let (ids, t) := processFinishReason E (p_tracker st) finishReason in
    let out := map ApiToolCallEnd ids in
    ({| p_matcher := p_matcher st; p_text := p_text st;
        p_tracker := yieldAll out t |}, out)
  else (st, []).

(** One iteration of [for (const data of dataChunks)] with its
    [try ... catch] (lines 215-251).  A throw leaves the loop body where it
    happens: what was yielded before stays yielded, the rest of the body is
    skipped, and line 249 logs the payload. *)
Definition processData (st : Proc) (data : jsstring)
  : Proc * list ApiStreamChunk * list ConsoleEntry :=
  match JSON_parse E data with
  | Throw _ => (st, [], [ErrParse data])
  | Normal parsed =>
      match getProp parsed (lit "choices") with
      | Throw _ => (st, [], [ErrParse data])
      | Normal choices =>
          let choice := optIndex0 choices in
          let delta := optProp choice (lit "delta") in
          let finishReason := optProp choice (lit "finish_reason") in
          let '(st1, out1, threw1) := contentStep st delta in
          if threw1 then (st1, out1, [ErrParse data])
          else
            let '(st2, out2, threw) := toolCallsStep st1 delta in
            if threw then (st2, out1 ++ out2, [ErrParse data])
            else
              let (st3, out3) := finishStep st2 finishReason in
              (st3, out1 ++ out2 ++ out3, [])
      end
  end.

(** One iteration of [for (const data of finalChunks)] (lines 258-272): the
    [catch] clause is empty. *)
Definition processFinalData (st : Proc) (data : jsstring)
  : Proc * list ApiStreamChunk * list ConsoleEntry :=
  match JSON_parse E data with
  | Throw _ => (st, [], [])
  | Normal parsed =>
      match getProp parsed (lit "choices") with
      | Throw _ => (st, [], [])
      | Normal choices =>
          let delta := optProp (optIndex0 choices) (lit "delta") in
          let '(st1, out1, _) := contentStep st delta in
          (st1, out1, [])
      end
  end.

(** A [for ... of] loop over payloads with the given body. *)
Fixpoint forEachData
  (body : Proc -> jsstring -> Proc * list ApiStreamChunk * list ConsoleEntry)
  (st : Proc) (dataChunks : list jsstring)
  : Proc * list ApiStreamChunk * list ConsoleEntry :=
  match dataChunks with
  | [] => (st, [], [])
  | data :: rest =>
      let '(st1, out1, log1) := body st data in
      let '(st2, out2, log2) := forEachData body st1 rest in
      (st2, out1 ++ out2, log1 ++ log2)
  end.

Definition LoopExit : Type := LoopExitOf Proc.

(** [for await (const chunk of this.currentStream)] (lines 205-252), from
    the read numbered [i]. *)
Fixpoint streamLoop (abort : option nat) (i : nat) (sse : SSEParser.t) (st : Proc)
  (chunks : list jsstring) : LoopExit :=
  match chunks with
  | [] =>
      {| l_sse := sse; l_state := st; l_events := []; l_console := []; l_reads := i;
         l_broke := false |}
  | chunk :: rest =>
      if aborted abort i then
        {| l_sse := sse; l_state := st; l_events := []; l_console := [LogAbortDetected];
           l_reads := i; l_broke := true |}
      else
        let (dataChunks, sse1) := SSEParser.parse sse chunk in
        let '(st1, out1, log1) := forEachData processData st dataChunks in
        let r := streamLoop abort (S i) sse1 st1 rest in
        {| l_sse := l_sse r;
           l_state := l_state r;
           l_events := out1 ++ l_events r;
           l_console := log1 ++ l_console r;
           l_reads := l_reads r;
           l_broke := l_broke r |}
  end.

(** Lines 257-277: the payloads left in the parser, then the matcher. *)
Definition flushPhase (sse : SSEParser.t) (st : Proc) : Proc * list ApiStreamChunk :=
  let finalChunks := SSEParser.final sse in
  let '(st1, out1, _) := forEachData processFinalData st finalChunks in
  let out2 := map transform (matcher_final E (p_matcher st1)) in
  ({| p_matcher := p_matcher st1; p_text := p_text st1;
      p_tracker := yieldAll out2 (p_tracker st1) |}, out1 ++ out2).

(** What a run of the generator shows: the chunks it yields, how it ends,
    its console lines, and [assistantText] when it ends. *)
Record Result : Type := {
  events : list ApiStreamChunk;
  outcome : Outcome;
  console : list ConsoleEntry;
  text : jsstring
}.

(** Lines 279-285. *)
Definition countOrZero (blocks : list ContentBlockParam) (onError : ConsoleEntry)
  : N * list ConsoleEntry :=
  match countTokens E blocks with
  | Normal n => (n, [])
  | Throw _ => (0%N, [onError])
  end.

(** Lines 255-296, entered when the loop ends without a throw; [reads] is
    the number of the read of line 255. *)
Definition afterLoop (abort : option nat) (inputTokens : N) (reads : nat)
  (sse : SSEParser.t) (st : Proc)
  (out : list ApiStreamChunk) (log : list ConsoleEntry) : Result :=
  if negb (aborted abort reads) then
    let (st1, flushed) := flushPhase sse st in
    let (outputTokens, log1) := countOrZero [TextBlock (p_text st1)] ErrOutputTokens in
    {| events := out ++ flushed ++ [ApiUsage inputTokens outputTokens];
       outcome := Returned;
       console := log ++ log1 ++ [LogCompleted];
       text := p_text st1 |}
  else
    {| events := out; outcome := Returned; console := log ++ [LogStoppedByAbort];
       text := p_text st |}.

(** The [catch] clause (lines 297-313); [reads] numbers the read of line
    299. *)
Definition catchClause (abort : option nat) (reads : nat) (error : JsError)
  (st : Proc) (out : list ApiStreamChunk) (log : list ConsoleEntry) : Result :=
  if err_isCancel error || str_eqb (err_name error) (lit "CanceledError")
     || aborted abort reads
  then {| events := out; outcome := Returned; console := log ++ [LogCancelled];
          text := p_text st |}
  else
    match err_code error with
    | Some code =>
        if str_eqb code (lit "ECONNABORTED") then
          {| events := out; outcome := Threw TIMEOUT_MESSAGE; console := log;
             text := p_text st |}
        else if str_eqb code (lit "ERR_STREAM_DESTROYED") then
          {| events := out; outcome := Returned; console := log ++ [LogStreamDestroyed];
             text := p_text st |}
        else
          {| events := out; outcome := Threw FAILURE_MESSAGE; console := log ++ [ErrStream];
             text := p_text st |}
    | None =>
        {| events := out; outcome := Threw FAILURE_MESSAGE; console := log ++ [ErrStream];
           text := p_text st |}
    end.

(** The state when the stream starts: a new matcher (line 188), an empty
    [assistantText] (line 152). *)
Definition startProc : Proc :=
  {| p_matcher := matcher_new E; p_text := []; p_tracker := tracker_init E |}.

(** The prompt content counted before the request (line 142). *)
Definition inputBlocks (systemPrompt : jsstring) (messages : list MessageParam)
  : list ContentBlockParam :=
  TextBlock systemPrompt :: toContentBlocks (inl messages).

(** [createMessage(systemPrompt, messages)] run against a transport that
    answers with [response], the abort signal being first seen set at the
    read [abort] (never, for [None]). *)
Definition createMessage (systemPrompt : jsstring) (messages : list MessageParam)
  (response : Response) (abort : option nat) : Result :=
  let (inputTokens, log0) := countOrZero (inputBlocks systemPrompt messages) ErrInputTokens in
  let st0 := startProc in
  match response with
  | RequestFailed error =>
      catchClause abort 0 error st0 [] (log0 ++ [LogStarting])
  | NoStream =>
      catchClause abort 0 PlainError st0 [] (log0 ++ [LogStarting; LogStreamStarted])
  | Streaming chunks ending =>
      let r := streamLoop abort 0 SSEParser.init st0 chunks in
      let log := log0 ++ [LogStarting; LogStreamStarted] ++ l_console r in
      if l_broke r then
        afterLoop abort inputTokens (l_reads r) (l_sse r) (l_state r) (l_events r) log
      else
        match ending with
        | EndOfStream =>
            afterLoop abort inputTokens (l_reads r) (l_sse r) (l_state r) (l_events r) log
        | StreamError error =>
            catchClause abort (l_reads r) error (l_state r) (l_events r) log
        end
  end.

(* ------------------------------------------------------------------ *)
(** ** getLmStudioModels (lines 372-384) *)
(* ------------------------------------------------------------------ *)

Definition DEFAULT_BASE_URL : jsstring := lit "http://localhost:1234".

(** [response.data?.data?.map((model) => model.id) || []]: calling [map] on
    a value that is not an array throws a TypeError, as does reading [id] of
    [null]. *)
Fixpoint mapId (models : list value) : completion (list value) :=
  match models with
  | [] => Normal []
  | model :: rest =>
      id <- getProp model (lit "id") ;;
      ids <- mapId rest ;;
      Normal (id :: ids)
  end.

Definition modelsArray (responseData : value) : completion (list value) :=
  let d := optProp responseData (lit "data") in
  if nullish d then Normal []
  else
    match d with
    | VArr models => mapId models
    | _ => Throw TypeError
    end.

(** The body of the [try] block. *)
Definition getLmStudioModels_body (baseUrl : jsstring) : completion (list value) :=
  if negb (URL_canParse E baseUrl) then Normal []
  else
    responseData <- axios_get E (baseUrl ++ lit "/v1/models") ;;
    models <- modelsArray responseData ;;
    Normal (dedup [] models).

(** [getLmStudioModels(baseUrl = "http://localhost:1234")]; [None] is a
    call without an argument. *)
Definition getLmStudioModels (baseUrl : option jsstring) : completion (list value) :=
  let baseUrl := match baseUrl with Some u => u | None => DEFAULT_BASE_URL end in
  try_catch (getLmStudioModels_body baseUrl) (fun _ => Normal []).

End Handler.

(* ================================================================== *)
(** ** The tag classifier of the specification *)
(* ================================================================== *)

Module TagClassifier.

(** The delimiters for the tag name of line 189, [think]. *)
Definition OPEN_TAG : jsstring := lit "<think>".
Definition CLOSE_TAG : jsstring := lit "</think>".

(** Modelled from the spec: the class [XmlMatcher] of
    [src/utils/xml-matcher.ts], which [lm-studio.ts] imports and which is
    not among the source files.  Section 4.3 of the specification: the
    classifier scans for the opening and the closing tag; content between
    matched tags is reasoning and content outside is text; a partial tag is
    buffered until the input decides whether it is the tag; [final] flushes
    what is buffered under the state last confirmed; nothing of the input
    is lost.  The state is that of the section: inside or outside the tag,
    and the buffered prefix of the tag that is awaited.  The specification
    leaves open under which kind the two delimiters themselves are emitted;
    here they belong to the reasoning span they delimit. *)
Record t : Type := { inside : bool; pending : jsstring }.

Definition init : t := {| inside := false; pending := [] |}.

(** The tag whose completion changes the state. *)
Definition awaited (inside : bool) : jsstring :=
  if inside then CLOSE_TAG else OPEN_TAG.

(** Characters with the kind they are emitted under ([true]: reasoning). *)
Definition label (reasoning : bool) (s : jsstring) : list (bool * N) :=
  map (pair reasoning) s.

(** Modelled from the spec: one character of input (no source, see [t]).
    The buffer extended by the character is the whole tag, is still a
    prefix of it, or is not; in the last case the buffer was ordinary
    content of the current state and the character is looked at afresh. *)
Definition step (st : t) (c : N) : list (bool * N) * t :=
  let tag := awaited (inside st) in
  let candidate := pending st ++ [c] in
  if str_eqb candidate tag then
    (label true candidate, {| inside := negb (inside st); pending := [] |})
  else if startsWith candidate tag then
    ([], {| inside := inside st; pending := candidate |})
  else if startsWith [c] tag then
    (label (inside st) (pending st), {| inside := inside st; pending := [c] |})
  else
    (label (inside st) candidate, {| inside := inside st; pending := [] |}).

(** Modelled from the spec: the characters of a delta, one after the other
    (no source, see [t]). *)
Fixpoint scan (st : t) (s : jsstring) : list (bool * N) * t :=
  match s with
  | [] => ([], st)
  | c :: s' =>
      let (out1, st1) := step st c in
      let (out2, st2) := scan st1 s' in
      (out1 ++ out2, st2)
  end.

(** Modelled from the spec: the segments of a call (no source, see [t]);
    consecutive characters of one kind make one segment. *)
Fixpoint group (l : list (bool * N)) : list XmlMatcherResult :=
  match l with
  | [] => []
  | (b, c) :: l' =>
      match group l' with
      | r :: rs =>
          if Bool.eqb (matched r) b then {| matched := b; data := c :: data r |} :: rs
          else {| matched := b; data := [c] |} :: r :: rs
      | [] => [{| matched := b; data := [c] |}]
      end
  end.

(** Modelled from the spec: [update(textDelta)] (no source, see [t]). *)
Definition update (st : t) (delta : jsstring) : list XmlMatcherResult * t :=
  let (out, st') := scan st delta in (group out, st').

(** Modelled from the spec: [final()] (no source, see [t]). *)
Definition final (st : t) : list XmlMatcherResult :=
  group (label (inside st) (pending st)).

(** All segments of a stream of deltas: those of every [update], in order,
    then those of [final]; and the classifier state before [final]. *)
Fixpoint updates (st : t) (deltas : list jsstring) : list XmlMatcherResult * t :=
  match deltas with
  | [] => ([], st)
  | d :: rest =>
      let (out1, st1) := update st d in
      let (out2, st2) := updates st1 rest in
      (out1 ++ out2, st2)
  end.

Definition run (st : t) (deltas : list jsstring) : list XmlMatcherResult :=
  let (out, st') := updates st deltas in out ++ final st'.

(** [pattern] occurs in [s]. *)
Fixpoint contains (pattern s : jsstring) : bool :=
  startsWith pattern s
  || match s with
     | [] => false
     | _ :: s' => contains pattern s'
     end.

(** What [createMessage] yields for a stream of text deltas: the segments
    of the classifier through the transform of lines 190-194. *)
Definition emitted (deltas : list jsstring) : list ApiStreamChunk :=
  map transform (run init deltas).

(** The text of a yielded chunk, and its characters with their kind. *)
Definition chunkText (c : ApiStreamChunk) : jsstring :=
  match c with
  | ApiText s | ApiReasoning s => s
  | _ => []
  end.

Definition chunkLabels (c : ApiStreamChunk) : list (bool * N) :=
  match c with
  | ApiText s => label false s
  | ApiReasoning s => label true s
  | _ => []
  end.

(** A text with reasoning tags: spans of ordinary text each followed by a
    tagged body, then ordinary text.  Two tags are back to back when the
    text between them is empty. *)
Definition document : Type := (list (jsstring * jsstring) * jsstring)%type.

Definition render (d : document) : jsstring :=
  flat_map (fun '(before, body) => before ++ OPEN_TAG ++ body ++ CLOSE_TAG) (fst d)
  ++ snd d.

(** The kinds the specification gives the characters of a document. *)
Definition expected (d : document) : list (bool * N) :=
  flat_map (fun '(before, body) =>
              label false before ++ label true (OPEN_TAG ++ body ++ CLOSE_TAG)) (fst d)
  ++ label false (snd d).

(** The spans are what they are called: no ordinary text holds an opening
    tag, and no body holds a closing tag. *)
Definition wellFormed (d : document) : bool :=
  forallb (fun '(before, body) =>
             negb (contains OPEN_TAG before) && negb (contains CLOSE_TAG body)) (fst d)
  && negb (contains OPEN_TAG (snd d)).

(** [p] is a prefix of [tag] and not all of it. *)
Definition properPrefix (p tag : jsstring) : bool :=
  startsWith p tag && negb (str_eqb p tag).

(** All prefixes of a string, the shortest first. *)
Fixpoint prefixes (s : jsstring) : list jsstring :=
  [] :: match s with
        | [] => []
        | x :: s' => map (cons x) (prefixes s')
        end.

End TagClassifier.

(* ================================================================== *)
(** ** The tool-call assembler of the specification *)
(* ================================================================== *)

Module ToolCallAssembler.

(** Modelled from the spec: the static state of [NativeToolCallParser]
    ([src/core/assistant-message/NativeToolCallParser.ts] is not among the
    source files).  Section 4.4: the assembler remembers the tool-call
    indices seen since the last end, in ascending order. *)
Definition t : Type := list spec_float.

Fixpoint insert (x : spec_float) (seen : t) : t :=
  match seen with
  | [] => [x]
  | y :: rest =>
      if SFeqb x y then seen
      else if SFltb x y then x :: seen
      else y :: insert x rest
  end.

(** Modelled from the spec: [onDelta(fragment)], fed with every partial
    tool call the consumer receives (no source, see [t]). *)
Definition onYield (seen : t) (chunk : ApiStreamChunk) : t :=
  match chunk with
  | ApiToolCallPartial (VNum index) _ _ _ => insert index seen
  | _ => seen
  end.

(** Modelled from the spec: [onFinishReason(reason)]: one end marker per
    index seen since the last end, in ascending order (no source, see
    [t]). *)
Definition processFinishReason (seen : t) (reason : value) : list value * t :=
  (map VNum seen, []).

End ToolCallAssembler.

(* ================================================================== *)
(** ** Auxiliary definitions for the proofs and the examples *)
(* ================================================================== *)

(** One list is another with something added at its end. *)
Definition prefix_of {A : Type} (l1 l2 : list A) : Prop :=
  exists tail, l2 = l1 ++ tail.

Definition strict_prefix_of {A : Type} (l1 l2 : list A) : Prop :=
  exists tail, tail <> [] /\ l2 = l1 ++ tail.

(** The read of the abort signal that follows the last chunk sees it unset:
    the stream is consumed to its end without a cancellation. *)
Definition notCancelled (abort : option nat) (chunks : list jsstring) : bool :=
  negb (aborted abort (length chunks)).

(** The stream completes normally: it delivers all its chunks, ends without
    an error, and no cancellation is seen. *)
Definition completesNormally (response : Response) (abort : option nat) : bool :=
  match response with
  | Streaming chunks EndOfStream => notCancelled abort chunks
  | _ => false
  end.

(** The catch clause takes the error for a cancellation. *)
Definition looksCancelled (e : JsError) : bool :=
  err_isCancel e || str_eqb (err_name e) (lit "CanceledError").

Definition hasCode (e : JsError) (code : string) : bool :=
  match err_code e with
  | Some c => str_eqb c (lit code)
  | None => false
  end.

(** No usage chunk among the chunks. *)
Definition noUsage (out : list ApiStreamChunk) : bool :=
  forallb (fun c => negb (isUsage c)) out.

(** The number of the last read of the abort signal a run can make. *)
Definition lastRead (response : Response) : nat :=
  match response with
  | Streaming chunks _ => length chunks
  | _ => 0
  end.

(** The run sees the abort signal set. *)
Definition cancelSeen (response : Response) (abort : option nat) : bool :=
  aborted abort (lastRead response).

(** The error a response ends the run with, if it does. *)
Definition failureOf (response : Response) : option JsError :=
  match response with
  | RequestFailed e => Some e
  | NoStream => Some PlainError
  | Streaming _ (StreamError e) => Some e
  | Streaming _ EndOfStream => None
  end.

Module Demo.

(** A string between double quotes. *)
Definition quoted (s : string) : jsstring := 34%N :: lit s ++ [34%N].

(** The frame [{"choices":[{"delta":{"content":text}}]}] and its parse. *)
Definition contentFrame (text : string) : jsstring :=
  lit "{" ++ quoted "choices" ++ lit ":[{" ++ quoted "delta" ++ lit ":{"
  ++ quoted "content" ++ lit ":" ++ quoted text ++ lit "}}]}".

Definition contentValue (text : string) : value :=
  VObj [(lit "choices",
         VArr [VObj [(lit "delta", VObj [(lit "content", VStr (lit text))])]])].

(** The frame
    [{"choices":[{"delta":{"tool_calls":[{"index":0,"id":"a","function":{"name":"x","arguments":"{}"}}]},"finish_reason":"tool_calls"}]}]
    and its parse. *)
Definition toolFrame : jsstring :=
  lit "{" ++ quoted "choices" ++ lit ":[{" ++ quoted "delta" ++ lit ":{"
  ++ quoted "tool_calls" ++ lit ":[{" ++ quoted "index" ++ lit ":0,"
  ++ quoted "id" ++ lit ":" ++ quoted "a" ++ lit ","
  ++ quoted "function" ++ lit ":{" ++ quoted "name" ++ lit ":" ++ quoted "x"
  ++ lit "," ++ quoted "arguments" ++ lit ":" ++ quoted "{}" ++ lit "}}]},"
  ++ quoted "finish_reason" ++ lit ":" ++ quoted "tool_calls" ++ lit "}]}".

Definition toolCallValue : value :=
  VObj [(lit "index", VNum (S754_zero false));
        (lit "id", VStr (lit "a"));
        (lit "function",
         VObj [(lit "name", VStr (lit "x")); (lit "arguments", VStr (lit "{}"))])].

Definition toolValue : value :=
  VObj [(lit "choices",
         VArr [VObj [(lit "delta", VObj [(lit "tool_calls", VArr [toolCallValue])]);
                     (lit "finish_reason", VStr (lit "tool_calls"))]])].

(** The frame
    [{"choices":[{"delta":{"tool_calls":[{"index":0,"id":"a","function":{"name":"x","arguments":"{}"}}]}}]}],
    a partial tool call without a finish reason, and its parse. *)
Definition partialFrame : jsstring :=
  lit "{" ++ quoted "choices" ++ lit ":[{" ++ quoted "delta" ++ lit ":{"
  ++ quoted "tool_calls" ++ lit ":[{" ++ quoted "index" ++ lit ":0,"
  ++ quoted "id" ++ lit ":" ++ quoted "a" ++ lit ","
  ++ quoted "function" ++ lit ":{" ++ quoted "name" ++ lit ":" ++ quoted "x"
  ++ lit "," ++ quoted "arguments" ++ lit ":" ++ quoted "{}" ++ lit "}}]}}]}".

Definition partialValue : value :=
  VObj [(lit "choices",
         VArr [VObj [(lit "delta", VObj [(lit "tool_calls", VArr [toolCallValue])])]])].

(** The chunk the handler yields for that tool call. *)
Definition partialChunk : ApiStreamChunk :=
  ApiToolCallPartial (VNum (S754_zero false)) (VStr (lit "a")) (VStr (lit "x"))
    (VStr (lit "{}")).

(** A payload cut short, [{"choices":[{"delta"], which is not JSON. *)
Definition garbled : jsstring :=
  lit "{" ++ quoted "choices" ++ lit ":[{" ++ quoted "delta".

(** [JSON.parse] on the payloads of the examples: the frames above parse
    to their values; the table holds nothing else, and the only other
    string the examples parse is [garbled]. *)
Definition parseTable (s : jsstring) : completion value :=
  if str_eqb s (contentFrame "Hello") then Normal (contentValue "Hello")
  else if str_eqb s (contentFrame " world") then Normal (contentValue " world")
  else if str_eqb s toolFrame then Normal toolValue
  else if str_eqb s partialFrame then Normal partialValue
  else Throw SyntaxError.

(** Number::toString on the numbers of the examples (zero only). *)
Definition showNumber (x : spec_float) : jsstring :=
  match x with
  | S754_zero _ => lit "0"
  | S754_nan => lit "NaN"
  | S754_infinity false => lit "Infinity"
  | S754_infinity true => lit "-Infinity"
  | S754_finite _ _ _ => lit "1"
  end.

(** A token counter for the examples: one token per code unit of text. *)
Definition countUnits (blocks : list ContentBlockParam) : completion N :=
  Normal (fold_left
            (fun n block =>
               match block with
               | TextBlock t => (n + N.of_nat (length t))%N
               | OtherBlock _ => n
               end)
            blocks 0%N).

(** A token counter that always throws. *)
Definition countThrows (blocks : list ContentBlockParam) : completion N :=
  Throw PlainError.

(** The classifier of the specification as the handler's matcher; it is
    specified for text only and lets any other value pass unnoticed. *)
Definition classify (m : TagClassifier.t) (v : value)
  : list XmlMatcherResult * TagClassifier.t :=
  match v with
  | VStr s => TagClassifier.update m s
  | _ => ([], m)
  end.

Definition NetworkError : JsError :=
  {| err_isCancel := false; err_name := lit "AxiosError";
     err_code := Some (lit "ECONNREFUSED") |}.

(** The errors of a body that is reset, and of a body that is destroyed. *)
Definition ConnectionReset : JsError :=
  {| err_isCancel := false; err_name := lit "Error";
     err_code := Some (lit "ECONNRESET") |}.

Definition StreamDestroyed : JsError :=
  {| err_isCancel := false; err_name := lit "Error";
     err_code := Some (lit "ERR_STREAM_DESTROYED") |}.

(** Externals for the examples: the models of the specification for the
    matcher and the tool-call parser, a transport that refuses the
    model-listing request. *)
Definition externals (count : list ContentBlockParam -> completion N) : Externals :=
  {| numberToString := showNumber;
     JSON_parse := parseTable;
     countTokens := count;
     Matcher := TagClassifier.t;
     matcher_new := TagClassifier.init;
     matcher_update := classify;
     matcher_final := TagClassifier.final;
     Tracker := ToolCallAssembler.t;
     tracker_init := [];
     onYield := ToolCallAssembler.onYield;
     processFinishReason := ToolCallAssembler.processFinishReason;
     URL_canParse := startsWith (lit "http://");
     axios_get := fun _ => Throw NetworkError |}.

End Demo.

Module Runs.

(** The externals of the examples, with the counter that counts. *)
Definition E : Externals := Demo.externals Demo.countUnits.

(** A frame on a line of its own. *)
Definition frameLine (payload : jsstring) : jsstring := lit "data: " ++ payload ++ [LF].

(** A stream of one chunk, the frame whose content is [Hello]. *)
Definition helloStream (ending : StreamEnd) : Response :=
  Streaming [frameLine (Demo.contentFrame "Hello")] ending.

(** A stream of one chunk, the frame of a partial tool call. *)
Definition toolStream (ending : StreamEnd) : Response :=
  Streaming [frameLine Demo.partialFrame] ending.

(** Two frames of content, one chunk each. *)
Definition helloWorld : list jsstring :=
  [frameLine (Demo.contentFrame "Hello"); frameLine (Demo.contentFrame " world")].

End Runs.

(* ================================================================== *)
(** ** The handler's fields: abort() (lines 74-100), the finally block *)
(* ================================================================== *)

Module Lifecycle.

(** The stream and the abort controller of a request are objects the
    handler shares with the generator and with the runtime.  The store
    keeps, per object, whether a stream is destroyed, how often [destroy()]
    was called on it, and whether a controller's signal is aborted. *)
Record Store : Type := {
  destroyed : nat -> bool;
  destroyCalls : nat -> nat;
  signalAborted : nat -> bool
}.

(** The fields [currentAbortController] and [currentStream] (lines 60-61);
    [None] is [null]. *)
Record Fields : Type := {
  currentAbortController : option nat;
  currentStream : option nat
}.

(** What the runtime decides: whether a call of [destroy()] on a stream or
    of [abort()] on a controller throws (the source guards both calls in
    [abort], lines 80-86 and 93-97).  A call that throws leaves the flag of
    the object as it was. *)
Record Runtime : Type := {
  destroyThrows : nat -> bool;
  abortThrows : nat -> bool
}.

Definition upd {A : Type} (f : nat -> A) (k : nat) (v : A) : nat -> A :=
  fun i => if Nat.eqb i k then v else f i.

(** [stream.destroy()]: the second component tells whether it threw. *)
Definition destroy (R : Runtime) (s : nat) (st : Store) : Store * bool :=
  let calls := upd (destroyCalls st) s (S (destroyCalls st s)) in
  if destroyThrows R s then
    ({| destroyed := destroyed st; destroyCalls := calls;
        signalAborted := signalAborted st |}, true)
  else
    ({| destroyed := upd (destroyed st) s true; destroyCalls := calls;
        signalAborted := signalAborted st |}, false).

(** [controller.abort()] *)
Definition controllerAbort (R : Runtime) (c : nat) (st : Store) : Store * bool :=
  if abortThrows R c then (st, true)
  else
    ({| destroyed := destroyed st; destroyCalls := destroyCalls st;
        signalAborted := upd (signalAborted st) c true |}, false).

(** The console lines of [abort()]. *)
Inductive AbortLog : Type :=
| LogAbortCalled          (* line 75 *)
| LogDestroyingStream     (* line 79 *)
| ErrDestroyingStream     (* line 85 *)
| LogAbortingRequest      (* line 92 *)
| ErrAbortingRequest.     (* line 96 *)

(** [abort()] (lines 74-100). *)
Definition abort (R : Runtime) (f : Fields) (st : Store)
  : Fields * Store * list AbortLog :=
  let '(st1, log1) :=
    match currentStream f with
    | Some s =>
        let '(st', err) :=
          if destroyed st s then (st, [])
          else let (st', threw) := destroy R s st in
               (st', if threw then [ErrDestroyingStream] else []) in
        (st', LogDestroyingStream :: err)
    | None => (st, [])
    end in
  let '(st2, log2) :=
    match currentAbortController f with
    | Some c =>
        let (st', threw) := controllerAbort R c st1 in
        (st', LogAbortingRequest :: if threw then [ErrAbortingRequest] else [])
    | None => (st1, [])
    end in
  ({| currentAbortController := None; currentStream := None |}, st2,
   LogAbortCalled :: log1 ++ log2).

(** The [finally] block of [createMessage] (lines 314-322); its call of
    [destroy()] is not guarded, so a throw leaves the block before the
    fields are cleared (the flag tells). *)
Definition finallyBlock (R : Runtime) (f : Fields) (st : Store) : Fields * Store * bool :=
  let cleared := {| currentAbortController := None; currentStream := None |} in
  match currentStream f with
  | Some s =>
      if negb (destroyed st s) then
        let (st', threw) := destroy R s st in
        if threw then (f, st', true) else (cleared, st', false)
      else (cleared, st, false)
  | None => (cleared, st, false)
  end.

(** What happens to the fields and to the objects during the life of a
    handler: [createMessage] stores a new controller (line 149) and the
    body of the response (line 198, [None] when there is none) and runs its
    [finally] block; [abort()] is called from outside at any time; and the
    runtime destroys a stream on its own (end of the body, an error). *)
Inductive Op : Type :=
| NewController (c : nat)
| StreamReceived (s : option nat)
| AbortCalled
| FinallyReached
| StreamCloses (s : nat).

Definition step (R : Runtime) (state : Fields * Store) (op : Op) : Fields * Store :=
  let (f, st) := state in
  match op with
  | NewController c =>
      ({| currentAbortController := Some c; currentStream := currentStream f |}, st)
  | StreamReceived s =>
      ({| currentAbortController := currentAbortController f; currentStream := s |}, st)
  | AbortCalled => fst (abort R f st)
  | FinallyReached => fst (finallyBlock R f st)
  | StreamCloses s =>
      (f, {| destroyed := upd (destroyed st) s true; destroyCalls := destroyCalls st;
             signalAborted := signalAborted st |})
  end.

Definition run (R : Runtime) (ops : list Op) (state : Fields * Store) : Fields * Store :=
  fold_left (step R) ops state.

(** A runtime whose calls never throw, and a store in which nothing has
    happened yet. *)
Definition quiet : Runtime :=
  {| destroyThrows := fun _ => false; abortThrows := fun _ => false |}.

Definition fresh : Store :=
  {| destroyed := fun _ => false; destroyCalls := fun _ => 0;
     signalAborted := fun _ => false |}.

Definition idle : Fields := {| currentAbortController := None; currentStream := None |}.

(** No call of [destroy()] on a stream, or one call that destroyed it. *)
Definition atMostOnce (st : Store) : Prop :=
  forall s, destroyCalls st s = 0 \/ (destroyCalls st s = 1 /\ destroyed st s = true).

End Lifecycle.

(* ================================================================== *)
(** ** The requests: constructor, getModel, createMessage's parameters,
       completePrompt *)
(* ================================================================== *)

Module Requests.

(** The options the handler reads; [None] is [undefined] (or [null]). *)
Record ApiHandlerOptions : Type := {
  lmStudioBaseUrl : option jsstring;
  lmStudioModelId : option jsstring;
  modelTemperature : option spec_float;
  lmStudioSpeculativeDecodingEnabled : option bool;
  lmStudioDraftModelId : option jsstring
}.

(** The truthiness of an optional string and of an optional boolean. *)
Definition truthyString (o : option jsstring) : bool :=
  match o with Some s => str_truthy s | None => false end.

Definition truthyFlag (o : option bool) : bool :=
  match o with Some b => b | None => false end.

(** [o || d] for an optional string. *)
Definition orElse (o : option jsstring) (d : jsstring) : jsstring :=
  match o with
  | Some s => if str_truthy s then s else d
  | None => d
  end.

(** The constructor (line 66). *)
Definition baseUrl (options : ApiHandlerOptions) : jsstring :=
  orElse (lmStudioBaseUrl options) (lit "http://localhost:1234") ++ lit "/v1".

(** The URL of both requests (lines 174 and 355). *)
Definition completionsUrl (options : ApiHandlerOptions) : jsstring :=
  baseUrl options ++ lit "/chat/completions".

(** What [metadata] carries for [createMessage]; [tool_choice] is
    [VUndefined] when absent. *)
Record Metadata (Tool : Type) : Type := {
  md_tools : option (list Tool);
  md_toolProtocol : option jsstring;
  md_tool_choice : value;
  md_parallelToolCalls : option bool
}.

(** A message of a request body: the two the handler builds itself, and
    those [convertToOpenAiMessages] returns. *)
Inductive RequestMessage (M : Type) : Type :=
| SystemMessage (content : jsstring)
| UserMessage (content : jsstring)
| ConvertedMessage (m : M).
Arguments SystemMessage {M} content.
Arguments UserMessage {M} content.
Arguments ConvertedMessage {M} m.

(** The body of a request; an absent key is [None]. *)
Record ChatParams (M T : Type) : Type := {
  model : jsstring;
  messages : list (RequestMessage M);
  temperature : spec_float;
  stream : bool;
  tools : option T;
  tool_choice : option value;
  parallel_tool_calls : option bool;
  draft_model : option jsstring
}.

(** How [completePrompt] ends: with a value, or with [new Error(message)]. *)
Inductive PromptResult : Type :=
| Resolved (v : value)
| Rejected (message : jsstring).

(** The cache of models that [getModelsFromCache] returns, an object used
    as a map from model ids to infos.  Its own properties are the entries;
    as any object it also inherits properties from its prototype
    ([toString], [constructor], ...), and the property access of line 327
    finds those as well: [inherited] gives the inherited property of a
    name, where there is one and its value is truthy. *)
Record ModelRecord (ModelInfo Inherited : Type) : Type := {
  entries : list (jsstring * ModelInfo);
  inherited : jsstring -> option Inherited
}.

(** What [getModel] returns as [info]: an info, or the inherited property
    that the property access found in the place of one. *)
Inductive InfoValue (ModelInfo Inherited : Type) : Type :=
| AnInfo (info : ModelInfo)
| AnInherited (x : Inherited).
Arguments AnInfo {ModelInfo Inherited} info.
Arguments AnInherited {ModelInfo Inherited} x.

(** The entry of the cache under a name. *)
Fixpoint entryOf {ModelInfo : Type} (id : jsstring)
  (entries : list (jsstring * ModelInfo)) : option ModelInfo :=
  match entries with
  | [] => None
  | (k, info) :: rest => if str_eqb k id then Some info else entryOf id rest
  end.

(** [models[id]], when it is truthy: the entry under the name, and where
    the cache has none, the property of that name it inherits. *)
Definition propertyOf {ModelInfo Inherited : Type}
  (models : ModelRecord ModelInfo Inherited) (id : jsstring)
  : option (InfoValue ModelInfo Inherited) :=
  match entryOf id (entries models) with
  | Some info => Some (AnInfo info)
  | None =>
      match inherited models id with
      | Some x => Some (AnInherited x)
      | None => None
      end
  end.

Section Handler.

(** What these methods use of the rest of the repository and of axios:
    the types of the infos and of the inherited properties, the result of
    [getModelsFromCache("lmstudio")] ([None] when there is no cache), the
    two constants of [@roo-code/types], the two converters, and the POST
    request, which gives [response.data] or throws.  The cache and the
    converters are taken to return. *)
Variables ModelInfo Inherited : Type.
Variable getModelsFromCache : option (ModelRecord ModelInfo Inherited).
Variable openAiModelInfoSaneDefaults : ModelInfo.
Variable LMSTUDIO_DEFAULT_TEMPERATURE : spec_float.
Variables Tool OpenAiTools OpenAiMessage : Type.
Variable convertToolsForOpenAI : list Tool -> OpenAiTools.
Variable convertToOpenAiMessages : list MessageParam -> list OpenAiMessage.
Variable axios_post :
  jsstring -> ChatParams OpenAiMessage OpenAiTools -> completion value.

Variable options : ApiHandlerOptions.

(** [models && this.options.lmStudioModelId && models[this.options.lmStudioModelId]] *)
Definition cachedInfo : option (InfoValue ModelInfo Inherited) :=
  match getModelsFromCache with
  | Some models =>
      match lmStudioModelId options with
      | Some id => if str_truthy id then propertyOf models id else None
      | None => None
      end
  | None => None
  end.

(** [getModel()] (lines 325-338). *)
Definition getModel : jsstring * InfoValue ModelInfo Inherited :=
  match cachedInfo with
  | Some info =>
      (match lmStudioModelId options with Some id => id | None => [] end, info)
  | None =>
      (orElse (lmStudioModelId options) [], AnInfo openAiModelInfoSaneDefaults)
  end.

(** [this.options.modelTemperature ?? LMSTUDIO_DEFAULT_TEMPERATURE] *)
Definition requestTemperature : spec_float :=
  match modelTemperature options with
  | Some t => t
  | None => LMSTUDIO_DEFAULT_TEMPERATURE
  end.

(** Lines 165-167 and 349-351. *)
Definition draftModel : option jsstring :=
  if truthyFlag (lmStudioSpeculativeDecodingEnabled options)
     && truthyString (lmStudioDraftModelId options)
  then lmStudioDraftModelId options
  else None.

(** [useNativeTools] (line 113), as a condition. *)
Definition useNativeTools (metadata : option (Metadata Tool)) : bool :=
  match metadata with
  | Some m =>
      match md_tools m with
      | Some (_ :: _) =>
          match md_toolProtocol m with
          | Some p => negb (str_eqb p (lit "xml"))
          | None => true
          end
      | _ => false
      end
  | None => false
  end.

(** The body [createMessage] posts (lines 107-110 and 155-167). *)
Definition createMessageParams (systemPrompt : jsstring) (msgs : list MessageParam)
  (metadata : option (Metadata Tool)) : ChatParams OpenAiMessage OpenAiTools :=
  let native := useNativeTools metadata in
  {| model := fst getModel;
     messages := SystemMessage systemPrompt
                 :: map ConvertedMessage (convertToOpenAiMessages msgs);
     temperature := requestTemperature;
     stream := true;
     tools :=
       match metadata with
       | Some m =>
           match md_tools m with
           | Some ts => if native then Some (convertToolsForOpenAI ts) else None
           | None => None
           end
       | None => None
       end;
     tool_choice :=
       match metadata with
       | Some m =>
           if native && truthy (md_tool_choice m) then Some (md_tool_choice m) else None
       | None => None
       end;
     parallel_tool_calls :=
       match metadata with
       | Some m =>
           if native then
             Some (match md_parallelToolCalls m with Some b => b | None => false end)
           else None
       | None => None
       end;
     draft_model := draftModel |}.

(** The body [completePrompt] posts (lines 342-351). *)
Definition completePromptParams (prompt : jsstring) : ChatParams OpenAiMessage OpenAiTools :=
  {| model := fst getModel;
     messages := [UserMessage prompt];
     temperature := requestTemperature;
     stream := false;
     tools := None;
     tool_choice := None;
     parallel_tool_calls := None;
     draft_model := draftModel |}.

(** [response.data?.choices?.[0]?.message?.content || ""] (line 363). *)
Definition promptContent (responseData : value) : value :=
  let content :=
    optProp (optProp (optIndex0 (optProp responseData (lit "choices"))) (lit "message"))
      (lit "content") in
  if truthy content then content else VStr [].

(** [completePrompt(prompt)] (lines 340-369). *)
Definition completePrompt (prompt : jsstring) : PromptResult :=
  match axios_post (completionsUrl options) (completePromptParams prompt) with
  | Normal responseData => Resolved (promptContent responseData)
  | Throw _ => Rejected FAILURE_MESSAGE
  end.

End Handler.

End Requests.

(* ================================================================== *)
(** ** More auxiliary definitions for the properties *)
(* ================================================================== *)

(** The carriage return, and a text sent with the line ends of HTTP: every
    line feed preceded by a carriage return. *)
Definition CR : N := 13%N.

Fixpoint crlf (s : jsstring) : jsstring :=
  match s with
  | [] => []
  | c :: s' => if N.eqb c LF then CR :: LF :: crlf s' else c :: crlf s'
  end.

(** The chunk lines 231-237 build for one entry of [delta.tool_calls]. *)
Definition partialOf (toolCall : value) : ApiStreamChunk :=
  ApiToolCallPartial (optProp toolCall (lit "index"))
                     (optProp toolCall (lit "id"))
                     (optProp (optProp toolCall (lit "function")) (lit "name"))
                     (optProp (optProp toolCall (lit "function")) (lit "arguments")).

Definition isPartial (c : ApiStreamChunk) : bool :=
  match c with ApiToolCallPartial _ _ _ _ => true | _ => false end.

Definition isEnd (c : ApiStreamChunk) : bool :=
  match c with ApiToolCallEnd _ => true | _ => false end.

(** What a payload adds to [assistantText]: the content of its first
    choice's delta, as a string, when the payload parses, the content is
    truthy and its conversion to a string does not throw. *)
Definition contentOf (E : Externals) (data : jsstring) : jsstring :=
  match JSON_parse E data with
  | Throw _ => []
  | Normal parsed =>
      match getProp parsed (lit "choices") with
      | Throw _ => []
      | Normal choices =>
          let content :=
            optProp (optProp (optIndex0 choices) (lit "delta")) (lit "content") in
          if truthy content then
            match ToString E content with
            | Normal s => s
            | Throw _ => []
            end
          else []
      end
  end.

(** The content of a delta is one whose conversion to a string throws. *)
Definition contentThrows (E : Externals) (delta : value) : bool :=
  let content := optProp delta (lit "content") in
  truthy content
  && match ToString E content with
     | Normal _ => false
     | Throw _ => true
     end.

(** The [id] of every model of a list. *)
Definition idsOf (models : list value) : list value :=
  map (fun model => optProp model (lit "id")) models.

(** No element of the list is the same value as an earlier one. *)
Fixpoint distinct (l : list value) : Prop :=
  match l with
  | [] => True
  | v :: rest =>
      (forall u, In u rest -> sameValueZero u v = false) /\ distinct rest
  end.

(** Inputs for the examples of these properties. *)
Module Samples.

(** The frame
    [{"choices":[{"delta":{"tool_calls":[{"index":0,"id":"a","function":{"name":"x","arguments":"{}"}},null]},"finish_reason":"tool_calls"}]}],
    whose second tool call is [null], and its parse. *)
Definition nullEntryFrame : jsstring :=
  lit "{" ++ Demo.quoted "choices" ++ lit ":[{" ++ Demo.quoted "delta" ++ lit ":{"
  ++ Demo.quoted "tool_calls" ++ lit ":[{" ++ Demo.quoted "index" ++ lit ":0,"
  ++ Demo.quoted "id" ++ lit ":" ++ Demo.quoted "a" ++ lit ","
  ++ Demo.quoted "function" ++ lit ":{" ++ Demo.quoted "name" ++ lit ":"
  ++ Demo.quoted "x" ++ lit "," ++ Demo.quoted "arguments" ++ lit ":"
  ++ Demo.quoted "{}" ++ lit "}},null]},"
  ++ Demo.quoted "finish_reason" ++ lit ":" ++ Demo.quoted "tool_calls" ++ lit "}]}".

Definition nullEntryValue : value :=
  VObj [(lit "choices",
         VArr [VObj [(lit "delta",
                      VObj [(lit "tool_calls", VArr [Demo.toolCallValue; VNull])]);
                     (lit "finish_reason", VStr (lit "tool_calls"))]])].

(** The frame
    [{"choices":[{"delta":{"content":{"toString":1},"tool_calls":[{"index":0,"id":"a","function":{"name":"x","arguments":"{}"}}]},"finish_reason":"tool_calls"}]}],
    whose content is an object with a property [toString], and its parse. *)
Definition oddContentFrame : jsstring :=
  lit "{" ++ Demo.quoted "choices" ++ lit ":[{" ++ Demo.quoted "delta" ++ lit ":{"
  ++ Demo.quoted "content" ++ lit ":{" ++ Demo.quoted "toString" ++ lit ":1},"
  ++ Demo.quoted "tool_calls" ++ lit ":[{" ++ Demo.quoted "index" ++ lit ":0,"
  ++ Demo.quoted "id" ++ lit ":" ++ Demo.quoted "a" ++ lit ","
  ++ Demo.quoted "function" ++ lit ":{" ++ Demo.quoted "name" ++ lit ":"
  ++ Demo.quoted "x" ++ lit "," ++ Demo.quoted "arguments" ++ lit ":"
  ++ Demo.quoted "{}" ++ lit "}}]},"
  ++ Demo.quoted "finish_reason" ++ lit ":" ++ Demo.quoted "tool_calls" ++ lit "}]}".

Definition oddContentValue : value :=
  VObj [(lit "choices",
         VArr [VObj [(lit "delta",
                      VObj [(lit "content",
                             VObj [(lit "toString", VNum (S754_finite false 1 0))]);
                            (lit "tool_calls", VArr [Demo.toolCallValue])]);
                     (lit "finish_reason", VStr (lit "tool_calls"))]])].

(** The answer [{"data":[{"id":"a"},{"id":"b"},{"id":"a"}]}] of the
    model-listing request. *)
Definition listing : value :=
  VObj [(lit "data",
         VArr [VObj [(lit "id", VStr (lit "a"))];
               VObj [(lit "id", VStr (lit "b"))];
               VObj [(lit "id", VStr (lit "a"))]])].

(** The externals of the examples, with [JSON.parse] knowing the frame
    above too and a transport that answers the model-listing request. *)
Definition E : Externals :=
  {| numberToString := Demo.showNumber;
     JSON_parse := fun s => if str_eqb s nullEntryFrame then Normal nullEntryValue
                            else if str_eqb s oddContentFrame then Normal oddContentValue
                            else Demo.parseTable s;
     countTokens := Demo.countUnits;
     Matcher := TagClassifier.t;
     matcher_new := TagClassifier.init;
     matcher_update := Demo.classify;
     matcher_final := TagClassifier.final;
     Tracker := ToolCallAssembler.t;
     tracker_init := [];
     onYield := ToolCallAssembler.onYield;
     processFinishReason := ToolCallAssembler.processFinishReason;
     URL_canParse := startsWith (lit "http://");
     axios_get := fun _ => Normal listing |}.

(** The error axios rejects with when the request is cancelled. *)
Definition Cancelled : JsError :=
  {| err_isCancel := true; err_name := lit "CanceledError";
     err_code := Some (lit "ERR_CANCELED") |}.

End Samples.

(* ================================================================== *)
(** * Properties *)
(* ================================================================== *)

Unset Implicit Arguments.

(** ** Strings and lines *)

Lemma str_eqb_eq (a b : jsstring) : str_eqb a b = true <-> a = b.
Proof.
  revert b; induction a as [|x a IH]; intros [|y b]; simpl; split;
    try congruence; try reflexivity.
  - intros H. apply andb_true_iff in H as [Hx Hab].
    apply N.eqb_eq in Hx. apply IH in Hab. congruence.
  - intros H. injection H as -> ->. rewrite N.eqb_refl. simpl. now apply IH.
Qed.

Lemma str_eqb_refl (a : jsstring) : str_eqb a a = true.
Proof. now apply str_eqb_eq. Qed.

Lemma startsWith_app (p s : jsstring) : startsWith p (p ++ s) = true.
Proof. induction p as [|x p IH]; simpl; [reflexivity|]. now rewrite N.eqb_refl. Qed.

Lemma startsWith_inv (p s : jsstring) :
  startsWith p s = true -> exists t, s = p ++ t.
Proof.
  revert s; induction p as [|x p IH]; intros s H; simpl in *.
  - now exists s.
  - destruct s as [|y s]; [discriminate|].
    apply andb_true_iff in H as [Hx Hp]. apply N.eqb_eq in Hx. subst y.
    destruct (IH _ Hp) as [t ->]. now exists t.
Qed.

(** [split_lf] is [cut] with the remainder put back as the last piece. *)
Lemma split_lf_cut (s : jsstring) : split_lf s = fst (cut s) ++ [snd (cut s)].
Proof.
  induction s as [|c s IH]; simpl; [reflexivity|].
  destruct (cut s) as [ls r]; simpl in *. rewrite IH.
  destruct (N.eqb c LF); [reflexivity|].
  destruct ls as [|l ls]; reflexivity.
Qed.

Lemma removelast_split_lf (s : jsstring) : removelast (split_lf s) = fst (cut s).
Proof. rewrite split_lf_cut. apply removelast_last. Qed.

Lemma last_split_lf (s : jsstring) : last (split_lf s) [] = snd (cut s).
Proof. rewrite split_lf_cut. apply last_last. Qed.

(** Splitting is the inverse of joining with line feeds, and no piece holds
    a line feed: the pieces but the last are exactly the lines of the text
    that a line feed terminates. *)
Lemma join_split_lf (s : jsstring) : join_lf (split_lf s) = s.
Proof.
  induction s as [|c s IH]; simpl; [reflexivity|].
  destruct (N.eqb c LF) eqn:Hc.
  - apply N.eqb_eq in Hc. subst c.
    destruct (split_lf s) as [|l ls] eqn:Hs.
    + rewrite split_lf_cut in Hs. now destruct (fst (cut s)).
    + simpl in *. now rewrite IH.
  - destruct (split_lf s) as [|l ls] eqn:Hs.
    + rewrite split_lf_cut in Hs. now destruct (fst (cut s)).
    + simpl in *. destruct ls; simpl in *; now rewrite <- IH.
Qed.

Lemma split_lf_no_lf (s : jsstring) : Forall (fun l => ~ In LF l) (split_lf s).
Proof.
  induction s as [|c s IH]; simpl.
  - constructor; [intros []|constructor].
  - destruct (N.eqb c LF) eqn:Hc.
    + constructor; [intros []|exact IH].
    + apply N.eqb_neq in Hc.
      destruct (split_lf s) as [|l ls]; [repeat constructor; simpl; intuition|].
      inversion IH; subst. constructor; [|assumption].
      simpl. intros [H|H]; [congruence|contradiction].
Qed.

(** The lines of a text in two parts: the lines of the first part, then
    those of its remainder followed by the second part. *)
Lemma cut_app (a t : jsstring) :
  cut (a ++ t) =
  (fst (cut a) ++ fst (cut (snd (cut a) ++ t)), snd (cut (snd (cut a) ++ t))).
Proof.
  induction a as [|c a IH]; simpl.
  - now destruct (cut t).
  - rewrite IH. destruct (cut a) as [ls1 r1]; simpl.
    destruct (N.eqb c LF) eqn:Hc; simpl; [reflexivity|].
    destruct ls1 as [|l ls1]; simpl.
    + rewrite Hc. destruct (cut (r1 ++ t)) as [ls2 r2]; simpl.
      destruct ls2; reflexivity.
    + reflexivity.
Qed.

(** A text without a line feed, a line feed, and more text. *)
Lemma cut_line (l t : jsstring) :
  cut l = ([], l) -> cut (l ++ LF :: t) = (l :: fst (cut t), snd (cut t)).
Proof.
  induction l as [|c l IH]; simpl.
  - intros _. now destruct (cut t).
  - destruct (cut l) as [ls r] eqn:Hl. destruct (N.eqb c LF); [discriminate|].
    destruct ls as [|l0 ls]; [|discriminate].
    intros H. injection H as ->. rewrite IH by reflexivity. reflexivity.
Qed.

(** A remainder holds no complete line. *)
Lemma cut_remainder (s : jsstring) : cut (snd (cut s)) = ([], snd (cut s)).
Proof.
  induction s as [|c s IH]; simpl; [reflexivity|].
  destruct (cut s) as [ls r]; simpl in *.
  destruct (N.eqb c LF) eqn:Hc; simpl; [exact IH|].
  destruct ls as [|l ls]; simpl; [|exact IH].
  now rewrite IH, Hc.
Qed.

(** ** SSEParser *)

Module SSEFacts.
Import SSEParser.

(** One pass of the loop of [parse] adds what the rule of the
    specification gives for the line. *)
Lemma parse_line_rule (results : list jsstring) (line : jsstring) :
  parse_line results line = results ++ frame_rule line.
Proof.
  unfold parse_line, frame_rule, slice.
  destruct (startsWith DATA_PREFIX line); [|now rewrite app_nil_r].
  change (length DATA_PREFIX) with 6.
  destruct (trim (skipn 6 line)) as [|c d]; cbn [str_truthy andb];
    [now rewrite app_nil_r|].
  destruct (str_eqb (c :: d) DONE); cbn [negb]; [now rewrite app_nil_r|reflexivity].
Qed.

Lemma fold_parse_line (lines : list jsstring) (results : list jsstring) :
  fold_left parse_line lines results = results ++ flat_map frame_rule lines.
Proof.
  revert results; induction lines as [|l lines IH]; intros results; simpl.
  - now rewrite app_nil_r.
  - now rewrite IH, parse_line_rule, app_assoc.
Qed.

(** [parse] in terms of the complete lines of the buffered text. *)
Lemma parse_cut (p : t) (chunk : jsstring) :
  parse p chunk =
  (flat_map frame_rule (fst (cut (buffer p ++ chunk))),
   {| buffer := snd (cut (buffer p ++ chunk)) |}).
Proof.
  unfold parse. now rewrite removelast_split_lf, last_split_lf, fold_parse_line.
Qed.

(** [final] is the rule applied to the trimmed buffer. *)
Lemma final_rule (p : t) : final p = frame_rule (trim (buffer p)).
Proof.
  unfold final, frame_rule, slice.
  change (length DATA_PREFIX) with 6.
  destruct (trim (buffer p)) as [|c d] eqn:Hb; [reflexivity|].
  cbn [str_truthy].
  destruct (startsWith DATA_PREFIX (c :: d)); [|reflexivity].
  destruct (trim (skipn 6 (c :: d))) as [|c' d']; [reflexivity|].
  cbn [str_truthy andb]. now destruct (str_eqb (c' :: d') DONE).
Qed.

(** Feeding chunks to a parser whose buffer holds no complete line gives
    the payloads of the buffer followed by the chunks. *)
Lemma feed_payloads (chunks : list jsstring) (p : t) :
  cut (buffer p) = ([], buffer p) ->
  fst (feed p chunks) ++ final (snd (feed p chunks)) = payloads (buffer p ++ concat chunks).
Proof.
  revert p; induction chunks as [|c chunks IH]; intros p Hp; cbn [feed concat].
  - unfold payloads. rewrite app_nil_r, Hp. simpl. now destruct p.
  - rewrite parse_cut.
    destruct (feed _ chunks) as [outs p2] eqn:Hfeed. cbn [fst snd].
    specialize (IH {| buffer := snd (cut (buffer p ++ c)) |} (cut_remainder _)).
    rewrite Hfeed in IH. simpl in IH.
    rewrite <- app_assoc, IH. unfold payloads.
    rewrite (app_assoc (buffer p) c), (cut_app (buffer p ++ c)). simpl.
    now rewrite flat_map_app, <- app_assoc.
Qed.

(** The parser after the chunks, and what it returned on the way. *)
Lemma feed_cut (chunks : list jsstring) (p : t) :
  cut (buffer p) = ([], buffer p) ->
  feed p chunks =
  (flat_map frame_rule (fst (cut (buffer p ++ concat chunks))),
   {| buffer := snd (cut (buffer p ++ concat chunks)) |}).
Proof.
  revert p; induction chunks as [|c chunks IH]; intros p Hp; cbn [feed concat].
  - rewrite app_nil_r, Hp. now destruct p.
  - rewrite parse_cut.
    rewrite (IH {| buffer := snd (cut (buffer p ++ c)) |} (cut_remainder _)).
    cbn [buffer].
    rewrite (app_assoc (buffer p) c), (cut_app (buffer p ++ c)). cbn [fst snd].
    now rewrite flat_map_app.
Qed.

Lemma demux_payloads (chunks : list jsstring) : demux chunks = payloads (concat chunks).
Proof.
  unfold demux. pose proof (feed_payloads chunks init eq_refl) as H.
  destruct (feed init chunks) as [out p]. exact H.
Qed.

End SSEFacts.

(** ** The tag classifier *)

Module ClassifierFacts.
Import TagClassifier.

Lemma label_app (b : bool) (s t : jsstring) : label b (s ++ t) = label b s ++ label b t.
Proof. apply map_app. Qed.

Lemma label_text (b : bool) (s : jsstring) : map snd (label b s) = s.
Proof. unfold label. rewrite map_map. simpl. apply map_id. Qed.

(** Grouping keeps every character and its kind. *)
Lemma labels_group (l : list (bool * N)) :
  flat_map (fun r => label (matched r) (data r)) (group l) = l.
Proof.
  induction l as [|[b c] l IH]; simpl; [reflexivity|].
  destruct (group l) as [|r rs]; simpl in *.
  - now rewrite <- IH.
  - destruct (Bool.eqb (matched r) b) eqn:Hb; simpl.
    + apply Bool.eqb_prop in Hb. rewrite <- IH, Hb. reflexivity.
    + now rewrite <- IH.
Qed.

Lemma chunkLabels_transform (r : XmlMatcherResult) :
  chunkLabels (transform r) = label (matched r) (data r).
Proof. unfold transform. now destruct (matched r). Qed.

Lemma chunkText_labels (c : ApiStreamChunk) : chunkText c = map snd (chunkLabels c).
Proof. destruct c; simpl; try reflexivity; now rewrite label_text. Qed.

Lemma labels_transform (segments : list XmlMatcherResult) :
  flat_map chunkLabels (map transform segments)
  = flat_map (fun r => label (matched r) (data r)) segments.
Proof.
  induction segments as [|r rs IH]; simpl; [reflexivity|].
  now rewrite chunkLabels_transform, IH.
Qed.

Lemma text_of_labels (cs : list ApiStreamChunk) :
  concat (map chunkText cs) = map snd (flat_map chunkLabels cs).
Proof.
  induction cs as [|c cs IH]; simpl; [reflexivity|].
  now rewrite map_app, IH, chunkText_labels.
Qed.

Lemma scan_app (s1 s2 : jsstring) (st : t) :
  scan st (s1 ++ s2) =
  (fst (scan st s1) ++ fst (scan (snd (scan st s1)) s2), snd (scan (snd (scan st s1)) s2)).
Proof.
  revert st; induction s1 as [|c s1 IH]; intros st; simpl.
  - now destruct (scan st s2).
  - destruct (step st c) as [o1 st1]. rewrite IH.
    destruct (scan st1 s1) as [o2 st2]; simpl.
    destruct (scan st2 s2) as [o3 st3]; simpl. now rewrite app_assoc.
Qed.

(** The updates of a chunked text emit what one scan of the text emits. *)
Lemma updates_scan (deltas : list jsstring) (st : t) :
  flat_map (fun r => label (matched r) (data r)) (fst (updates st deltas))
  = fst (scan st (concat deltas))
  /\ snd (updates st deltas) = snd (scan st (concat deltas)).
Proof.
  revert st; induction deltas as [|d ds IH]; intros st; simpl; [now split|].
  unfold update. rewrite scan_app.
  destruct (scan st d) as [o1 st1]; simpl.
  destruct (IH st1) as [IH1 IH2].
  destruct (updates st1 ds) as [o2 st2]; simpl in *.
  now rewrite flat_map_app, labels_group, IH1, IH2.
Qed.

Lemma labels_emitted (deltas : list jsstring) :
  flat_map chunkLabels (emitted deltas)
  = fst (scan init (concat deltas))
    ++ label (inside (snd (scan init (concat deltas))))
             (pending (snd (scan init (concat deltas)))).
Proof.
  unfold emitted, run. rewrite labels_transform.
  destruct (updates_scan deltas init) as [H1 H2].
  destruct (updates init deltas) as [out st']; simpl in *.
  rewrite flat_map_app, H1, H2. unfold final. now rewrite labels_group.
Qed.

(** Nothing is lost: what is emitted and what is buffered make up what was
    buffered and what was read. *)
Lemma step_lossless (st : t) (c : N) :
  map snd (fst (step st c)) ++ pending (snd (step st c)) = pending st ++ [c].
Proof.
  unfold step.
  destruct (str_eqb _ _); [|destruct (startsWith (pending st ++ [c]) _);
                              [|destruct (startsWith [c] _)]]; simpl;
    rewrite ?label_text, ?app_nil_r; reflexivity.
Qed.

Lemma scan_lossless (s : jsstring) (st : t) :
  map snd (fst (scan st s)) ++ pending (snd (scan st s)) = pending st ++ s.
Proof.
  revert st; induction s as [|c s IH]; intros st; simpl.
  - now rewrite app_nil_r.
  - pose proof (step_lossless st c) as Hs.
    destruct (step st c) as [o1 st1]; simpl in *.
    specialize (IH st1). destruct (scan st1 s) as [o2 st2]; simpl in *.
    rewrite map_app, <- app_assoc, IH, app_assoc, Hs, <- app_assoc. reflexivity.
Qed.

Lemma contains_here (pat s : jsstring) : startsWith pat s = true -> contains pat s = true.
Proof. intros H. destruct s; simpl in *; now rewrite H. Qed.

Lemma contains_app_r (pat a s : jsstring) :
  contains pat (a ++ s) = false -> contains pat s = false.
Proof.
  induction a as [|x a IH]; simpl; [trivial|].
  intros H. apply orb_false_iff in H as [_ H]. now apply IH.
Qed.

Lemma prefixes_complete (s p : jsstring) : startsWith p s = true -> In p (prefixes s).
Proof.
  revert p; induction s as [|x s IH]; intros [|y p] H; simpl in *;
    try (now left); try discriminate.
  right. apply andb_true_iff in H as [Hy Hp]. apply N.eqb_eq in Hy. subst y.
  apply in_map. now apply IH.
Qed.

Lemma awaited_long (b : bool) : exists x y tl, awaited b = x :: y :: tl.
Proof. destruct b; vm_compute; eauto. Qed.

Lemma properPrefix_single (b : bool) (c : N) :
  startsWith [c] (awaited b) = true -> properPrefix [c] (awaited b) = true.
Proof.
  intros H. unfold properPrefix. rewrite H.
  destruct (awaited_long b) as (x & y & tl & ->). simpl.
  now rewrite andb_false_r.
Qed.

(** While the awaited tag does not occur, the scan stays in its state and
    emits everything but a buffered prefix of the tag under that state. *)
Lemma scan_without_tag (s : jsstring) : forall (b : bool) (p : jsstring),
  properPrefix p (awaited b) = true ->
  contains (awaited b) (p ++ s) = false ->
  exists e p',
    scan {| inside := b; pending := p |} s
    = (label b e, {| inside := b; pending := p' |})
    /\ e ++ p' = p ++ s
    /\ properPrefix p' (awaited b) = true.
Proof.
  induction s as [|c s IH]; intros b p Hp Hno.
  - exists [], p. simpl. now rewrite app_nil_r.
  - cbn [scan]. unfold step. cbn [inside pending].
    replace (p ++ c :: s) with ((p ++ [c]) ++ s) in * by now rewrite <- app_assoc.
    destruct (str_eqb (p ++ [c]) (awaited b)) eqn:Heq.
    { apply str_eqb_eq in Heq. rewrite Heq in Hno.
      now rewrite (contains_here _ _ (startsWith_app _ _)) in Hno. }
    destruct (startsWith (p ++ [c]) (awaited b)) eqn:Hpre.
    { destruct (IH b (p ++ [c])) as (e & p' & Hscan & He & Hp'); [|exact Hno|].
      - unfold properPrefix. now rewrite Hpre, Heq.
      - exists e, p'. now rewrite Hscan. }
    destruct (startsWith [c] (awaited b)) eqn:Hc.
    { destruct (IH b [c]) as (e & p' & Hscan & He & Hp').
      - now apply properPrefix_single.
      - apply (contains_app_r _ p). now rewrite <- app_assoc in Hno.
      - exists (p ++ e), p'. rewrite Hscan, label_app. repeat split; [|exact Hp'].
        now rewrite <- !app_assoc, He. }
    destruct (IH b []) as (e & p' & Hscan & He & Hp').
    + now destruct b.
    + now apply (contains_app_r _ (p ++ [c])).
    + exists ((p ++ [c]) ++ e), p'. rewrite Hscan, (label_app b (p ++ [c]) e).
      repeat split; [|exact Hp'].
      now rewrite <- (app_assoc (p ++ [c])), He.
Qed.

(** From any buffered prefix, the awaited tag is recognised: the prefix was
    content of the current state, the tag belongs to the reasoning span,
    and the state changes. *)
Lemma scan_tag (b : bool) (p : jsstring) :
  properPrefix p (awaited b) = true ->
  scan {| inside := b; pending := p |} (awaited b)
  = (label b p ++ label true (awaited b), {| inside := negb b; pending := [] |}).
Proof.
  unfold properPrefix. intros H. apply andb_true_iff in H as [Hpre Hneq].
  apply prefixes_complete in Hpre.
  destruct b; vm_compute in Hpre;
    repeat (destruct Hpre as [<- | Hpre]; [first [reflexivity | discriminate]|]);
    contradiction.
Qed.

(** A stretch of content without the awaited tag, then the tag. *)
Lemma scan_to_tag (b : bool) (s : jsstring) :
  contains (awaited b) s = false ->
  scan {| inside := b; pending := [] |} (s ++ awaited b)
  = (label b s ++ label true (awaited b), {| inside := negb b; pending := [] |}).
Proof.
  intros Hno.
  destruct (scan_without_tag s b []) as (e & p' & Hscan & He & Hp');
    [now destruct b|exact Hno|].
  rewrite scan_app, Hscan. cbn [fst snd]. rewrite (scan_tag _ _ Hp'). cbn [fst snd].
  simpl in He. rewrite <- He, label_app, <- !app_assoc. reflexivity.
Qed.

(** A stretch of content without the awaited tag, then the end of input:
    [final] flushes the buffered prefix under the same state. *)
Lemma scan_to_end (b : bool) (s : jsstring) :
  contains (awaited b) s = false ->
  fst (scan {| inside := b; pending := [] |} s)
  ++ label (inside (snd (scan {| inside := b; pending := [] |} s)))
           (pending (snd (scan {| inside := b; pending := [] |} s)))
  = label b s.
Proof.
  intros Hno.
  destruct (scan_without_tag s b []) as (e & p' & Hscan & He & Hp');
    [now destruct b|exact Hno|].
  rewrite Hscan. simpl in *. now rewrite <- label_app, He.
Qed.

(** A whole document, scanned and flushed, has the expected kinds. *)
Lemma scan_document (spans : list (jsstring * jsstring)) (rest : jsstring) :
  wellFormed (spans, rest) = true ->
  fst (scan init (render (spans, rest)))
  ++ label (inside (snd (scan init (render (spans, rest)))))
           (pending (snd (scan init (render (spans, rest)))))
  = expected (spans, rest).
Proof.
  unfold wellFormed, render, expected. cbn [fst snd].
  induction spans as [|[before body] spans IH]; cbn [forallb flat_map]; intros H.
  - simpl in H. apply negb_true_iff in H. simpl. now apply (scan_to_end false).
  - apply andb_true_iff in H as [H Hrest].
    apply andb_true_iff in H as [H Hspans].
    apply andb_true_iff in H as [Hb Hbody].
    apply negb_true_iff in Hb, Hbody.
    specialize (IH (proj2 (andb_true_iff _ _) (conj Hspans Hrest))).
    pose proof (scan_to_tag false before Hb) as H1.
    pose proof (scan_to_tag true body Hbody) as H2.
    change (scan init (before ++ OPEN_TAG)
            = (label false before ++ label true OPEN_TAG,
               {| inside := true; pending := [] |})) in H1.
    change (scan {| inside := true; pending := [] |} (body ++ CLOSE_TAG)
            = (label true body ++ label true CLOSE_TAG, init)) in H2.
    rewrite <- !app_assoc.
    rewrite (app_assoc before), scan_app, H1. cbn [fst snd].
    rewrite (app_assoc body), scan_app, H2. cbn [fst snd].
    rewrite <- !app_assoc, IH, !label_app, <- !app_assoc. reflexivity.
Qed.

End ClassifierFacts.

(** ** Claims on the SSE parser and on the tag classifier *)

(** C1.  Chunk-boundary independence: two ways of cutting one text into
    chunks give, after feeding every chunk to [parse] in order and then
    calling [final], the same list of payloads. *)
Theorem sse_chunk_boundary_independence (text : jsstring) (chunks1 chunks2 : list jsstring) :
  concat chunks1 = text ->
  concat chunks2 = text ->
  SSEParser.demux chunks1 = SSEParser.demux chunks2.
Proof.
  intros H1 H2. rewrite !SSEFacts.demux_payloads. congruence.
Qed.

(** A frame cut inside its payload, and the same text cut after the frame. *)
Lemma sse_chunk_boundary_independence_witness :
  SSEParser.demux [lit "data: hel"; lit "lo" ++ [LF; LF] ++ lit "data: [DONE]" ++ [LF]]
  = SSEParser.demux [lit "data: hello" ++ [LF]; [LF] ++ lit "data: [DONE]" ++ [LF]].
Proof.
  exact (sse_chunk_boundary_independence
           (lit "data: hello" ++ [LF; LF] ++ lit "data: [DONE]" ++ [LF])
           [lit "data: hel"; lit "lo" ++ [LF; LF] ++ lit "data: [DONE]" ++ [LF]]
           [lit "data: hello" ++ [LF]; [LF] ++ lit "data: [DONE]" ++ [LF]]
           eq_refl eq_refl).
Defined.

(** The end-to-end scenario of the specification: a frame whose payload is
    cut after [Hel] is one payload. *)
Example sse_split_frame :
  let wire := lit "data: " ++ Demo.contentFrame "Hello" ++ [LF; LF] in
  SSEParser.demux [firstn 40 wire; skipn 40 wire] = [Demo.contentFrame "Hello"].
Proof. reflexivity. Qed.

(** C5 as stated fails in its last part: [final] trims the buffer before it
    looks for the prefix, so a last line that starts with white space is a
    frame for [final] and none for the rule applied to the buffered text. *)
Lemma sse_final_is_not_the_line_rule :
  SSEParser.final {| SSEParser.buffer := lit " data: x" |} = [lit "x"]
  /\ SSEParser.frame_rule (lit " data: x") = [].
Proof. split; reflexivity. Qed.

(** C5, amended.  The results of [parse] are what the rule gives for every
    complete line of the buffered text, in order (prefix stripped, payload
    trimmed, empty payloads and the sentinel left out, other lines giving
    nothing); the text after the last line feed stays in the buffer; and
    [final] applies the rule to the buffer after trimming it. *)
Theorem sse_frame_rule (p : SSEParser.t) (chunk : jsstring) :
  fst (SSEParser.parse p chunk)
  = flat_map SSEParser.frame_rule
      (removelast (split_lf (SSEParser.buffer p ++ chunk)))
  /\ SSEParser.buffer (snd (SSEParser.parse p chunk))
     = last (split_lf (SSEParser.buffer p ++ chunk)) []
  /\ SSEParser.final p = SSEParser.frame_rule (trim (SSEParser.buffer p)).
Proof.
  rewrite SSEFacts.parse_cut, removelast_split_lf, last_split_lf.
  repeat split. apply SSEFacts.final_rule.
Qed.

(** C2.  Against the classifier of the specification: the text of the
    chunks emitted for a stream of deltas is the text of the deltas, and
    for a well-formed document, however its text is cut into deltas, every
    character of a tagged span is emitted as reasoning and every other
    character as text. *)
Theorem classifier_lossless_reclassification (deltas : list jsstring) :
  concat (map TagClassifier.chunkText (TagClassifier.emitted deltas)) = concat deltas
  /\ forall d : TagClassifier.document,
       TagClassifier.wellFormed d = true ->
       concat deltas = TagClassifier.render d ->
       flat_map TagClassifier.chunkLabels (TagClassifier.emitted deltas)
       = TagClassifier.expected d.
Proof.
  split.
  - rewrite ClassifierFacts.text_of_labels, ClassifierFacts.labels_emitted.
    rewrite map_app, ClassifierFacts.label_text.
    apply (ClassifierFacts.scan_lossless (concat deltas) TagClassifier.init).
  - intros [spans rest] Hwf Hd.
    rewrite ClassifierFacts.labels_emitted, Hd.
    now apply ClassifierFacts.scan_document.
Qed.

(** Two tags back to back, the first cut across three deltas. *)
Example classifier_split_tags :
  TagClassifier.emitted [lit "a<th"; lit "ink>b</thi"; lit "nk><think>c</think>d"]
  = [ApiText (lit "a"); ApiReasoning (lit "<think>b");
     ApiReasoning (lit "</think><think>c</think>"); ApiText (lit "d")].
Proof. reflexivity. Qed.

(** Text that only begins like a tag is text. *)
Example classifier_false_start :
  TagClassifier.emitted [lit "x <thi"; lit "s> y <t"]
  = [ApiText (lit "x "); ApiText (lit "<this> y "); ApiText (lit "<t")].
Proof. reflexivity. Qed.

(** ** The streaming handler *)

Section HandlerFacts.

Variable E : Externals.

Lemma aborted_mono (abort : option nat) (i j : nat) :
  i <= j -> aborted abort i = true -> aborted abort j = true.
Proof.
  destruct abort as [k|]; simpl; [|discriminate].
  intros Hij H. apply Nat.leb_le in H. apply Nat.leb_le. lia.
Qed.

Lemma kind_noUsage (out : list ApiStreamChunk) :
  forallb isTextOrReasoning out = true -> noUsage out = true.
Proof.
  unfold noUsage. induction out as [|c out IH]; simpl; [trivial|].
  intros H. apply andb_true_iff in H as [Hc Hout].
  rewrite (IH Hout). now destruct c.
Qed.

Lemma noUsage_app (a b : list ApiStreamChunk) :
  noUsage (a ++ b) = noUsage a && noUsage b.
Proof. apply forallb_app. Qed.

Lemma transform_kind (results : list XmlMatcherResult) :
  forallb isTextOrReasoning (map transform results) = true.
Proof.
  induction results as [|r rs IH]; simpl; [reflexivity|].
  rewrite IH. unfold transform. now destruct (matched r).
Qed.

Lemma contentStep_kind (st : Proc E) (delta : value) :
  forallb isTextOrReasoning (snd (fst (contentStep st delta))) = true.
Proof.
  unfold contentStep. destruct (truthy _); [|reflexivity].
  destruct (ToString E _) as [s|e]; [|reflexivity].
  destruct (matcher_update _ _ _) as [results m]. apply transform_kind.
Qed.

Lemma toolCallsLoop_noUsage (toolCalls : list value) (t : Tracker E) :
  noUsage (snd (fst (toolCallsLoop E t toolCalls))) = true.
Proof.
  revert t; induction toolCalls as [|tc rest IH]; intros t; simpl; [reflexivity|].
  destruct (nullish tc); [reflexivity|].
  specialize (IH (onYield E t
    (ApiToolCallPartial (optProp tc (lit "index")) (optProp tc (lit "id"))
       (optProp (optProp tc (lit "function")) (lit "name"))
       (optProp (optProp tc (lit "function")) (lit "arguments"))))).
  destruct (toolCallsLoop E _ rest) as [[t1 out] threw]. exact IH.
Qed.

Lemma toolCallsStep_noUsage (st : Proc E) (delta : value) :
  noUsage (snd (fst (toolCallsStep st delta))) = true.
Proof.
  unfold toolCallsStep. destruct (truthy _); [|reflexivity].
  destruct (iterate _) as [toolCalls|e]; [|reflexivity].
  pose proof (toolCallsLoop_noUsage toolCalls (p_tracker st)) as H.
  destruct (toolCallsLoop E _ toolCalls) as [[t out] threw]. exact H.
Qed.

Lemma finishStep_noUsage (st : Proc E) (reason : value) :
  noUsage (snd (finishStep st reason)) = true.
Proof.
  unfold finishStep. destruct (truthy _); [|reflexivity].
  destruct (processFinishReason _ _ _) as [ids t]. simpl.
  unfold noUsage. now induction ids.
Qed.

Lemma processData_noUsage (st : Proc E) (data : jsstring) :
  noUsage (snd (fst (processData st data))) = true.
Proof.
  unfold processData.
  destruct (JSON_parse E data) as [parsed|e]; [|reflexivity].
  destruct (getProp parsed _) as [choices|e]; [|reflexivity].
  set (delta := optProp (optIndex0 choices) (lit "delta")).
  pose proof (kind_noUsage _ (contentStep_kind st delta)) as H1.
  destruct (contentStep st delta) as [[st1 out1] threw1].
  simpl in H1. destruct threw1; [exact H1|].
  pose proof (toolCallsStep_noUsage st1 delta) as H2.
  destruct (toolCallsStep st1 delta) as [[st2 out2] threw].
  simpl in H2.
  destruct threw; simpl.
  - now rewrite noUsage_app, H1, H2.
  - pose proof (finishStep_noUsage st2
                  (optProp (optIndex0 choices) (lit "finish_reason"))) as H3.
    destruct (finishStep st2 _) as [st3 out3]. simpl in *.
    now rewrite !noUsage_app, H1, H2, H3.
Qed.

Lemma processFinalData_kind (st : Proc E) (data : jsstring) :
  forallb isTextOrReasoning (snd (fst (processFinalData st data))) = true.
Proof.
  unfold processFinalData.
  destruct (JSON_parse E data) as [parsed|e]; [|reflexivity].
  destruct (getProp parsed _) as [choices|e]; [|reflexivity].
  pose proof (contentStep_kind st (optProp (optIndex0 choices) (lit "delta"))) as H.
  destruct (contentStep st _) as [[st1 out1] threw1]. exact H.
Qed.

(** A property of the chunks of every pass holds of the chunks of the
    loop. *)
Lemma forEachData_forallb (P : ApiStreamChunk -> bool)
  (body : Proc E -> jsstring -> Proc E * list ApiStreamChunk * list ConsoleEntry) :
  (forall st data, forallb P (snd (fst (body st data))) = true) ->
  forall dataChunks st, forallb P (snd (fst (forEachData body st dataChunks))) = true.
Proof.
  intros Hbody. induction dataChunks as [|d ds IH]; intros st; simpl; [reflexivity|].
  specialize (Hbody st d). destruct (body st d) as [[st1 out1] log1].
  specialize (IH st1). destruct (forEachData body st1 ds) as [[st2 out2] log2].
  simpl in *. now rewrite forallb_app, Hbody, IH.
Qed.

Lemma forEachData_app
  (body : Proc E -> jsstring -> Proc E * list ApiStreamChunk * list ConsoleEntry)
  (a b : list jsstring) (st : Proc E) :
  forEachData body st (a ++ b) =
  let '(st1, out1, log1) := forEachData body st a in
  let '(st2, out2, log2) := forEachData body st1 b in
  (st2, out1 ++ out2, log1 ++ log2).
Proof.
  revert st; induction a as [|d a IH]; intros st; simpl.
  - now destruct (forEachData body st b) as [[st2 out2] log2].
  - destruct (body st d) as [[st1 out1] log1]. rewrite IH.
    destruct (forEachData body st1 a) as [[st2 out2] log2].
    destruct (forEachData body st2 b) as [[st3 out3] log3].
    now rewrite !app_assoc.
Qed.

Lemma streamLoop_noUsage (chunks : list jsstring) (abort : option nat) (i : nat)
  (sse : SSEParser.t) (st : Proc E) :
  noUsage (l_events (streamLoop abort i sse st chunks)) = true.
Proof.
  revert i sse st; induction chunks as [|c chunks IH]; intros i sse st;
    cbn [streamLoop]; [reflexivity|].
  destruct (aborted abort i); [reflexivity|].
  destruct (SSEParser.parse sse c) as [dataChunks sse1].
  pose proof (forEachData_forallb _ _ processData_noUsage dataChunks st) as H.
  destruct (forEachData _ st dataChunks) as [[st1 out1] log1].
  cbn [l_events fst snd] in *. fold (noUsage out1) in H.
  now rewrite noUsage_app, H, IH.
Qed.

Lemma flushPhase_kind (sse : SSEParser.t) (st : Proc E) :
  forallb isTextOrReasoning (snd (flushPhase sse st)) = true.
Proof.
  unfold flushPhase.
  pose proof (forEachData_forallb _ _ processFinalData_kind (SSEParser.final sse) st) as H.
  destruct (forEachData _ st _) as [[st1 out1] log1]. simpl in *.
  now rewrite forallb_app, H, transform_kind.
Qed.

(** How the loop is left: by [break] at a read that sees the signal set,
    or after the last chunk. *)
Lemma streamLoop_exit (chunks : list jsstring) (abort : option nat) (i : nat)
  (sse : SSEParser.t) (st : Proc E) :
  (l_broke (streamLoop abort i sse st chunks) = true ->
   aborted abort (l_reads (streamLoop abort i sse st chunks)) = true
   /\ i <= l_reads (streamLoop abort i sse st chunks) < i + length chunks)
  /\ (l_broke (streamLoop abort i sse st chunks) = false ->
      l_reads (streamLoop abort i sse st chunks) = i + length chunks).
Proof.
  revert i sse st; induction chunks as [|c chunks IH]; intros i sse st;
    cbn [streamLoop length].
  - cbn. split; [discriminate|intros _; lia].
  - destruct (aborted abort i) eqn:Ha; cbn [l_broke l_reads].
    + split; [intros _; split; [exact Ha|lia]|discriminate].
    + destruct (SSEParser.parse sse c) as [dataChunks sse1].
      destruct (forEachData _ st dataChunks) as [[st1 out1] log1].
      cbn [l_broke l_reads]. destruct (IH (S i) sse1 st1) as [IH1 IH2].
      split; intros H; [destruct (IH1 H) as [? ?]; split; [assumption|lia]|].
      rewrite (IH2 H). lia.
Qed.

(** The loop over the chunks pulled before the signal is seen set, then
    the loop over the rest. *)
Lemma streamLoop_app (pre rest : list jsstring) (abort : option nat) (i : nat)
  (sse : SSEParser.t) (st : Proc E) :
  (forall j, j < length pre -> aborted abort (i + j) = false) ->
  streamLoop abort i sse st (pre ++ rest) =
  let r1 := streamLoop None i sse st pre in
  let r2 := streamLoop abort (i + length pre) (l_sse r1) (l_state r1) rest in
  {| l_sse := l_sse r2;
     l_state := l_state r2;
     l_events := l_events r1 ++ l_events r2;
     l_console := l_console r1 ++ l_console r2;
     l_reads := l_reads r2;
     l_broke := l_broke r2 |}.
Proof.
  revert i sse st; induction pre as [|c pre IH]; intros i sse st Hno;
    cbn [app streamLoop length].
  - cbn. rewrite Nat.add_0_r. now destruct (streamLoop abort i sse st rest).
  - pose proof (Hno 0 ltac:(simpl; lia)) as H0. rewrite Nat.add_0_r in H0.
    rewrite H0. cbn [aborted].
    destruct (SSEParser.parse sse c) as [dataChunks sse1].
    destruct (forEachData _ st dataChunks) as [[st1 out1] log1].
    rewrite IH.
    + replace (i + S (length pre)) with (S i + length pre) by lia.
      cbn zeta. cbn [l_sse l_state l_events l_console l_reads l_broke].
      now rewrite !app_assoc.
    + intros j Hj. replace (S i + j) with (i + S j) by lia. apply Hno. simpl. lia.
Qed.

Lemma catchClause_events (abort : option nat) (reads : nat) (error : JsError)
  (st : Proc E) (out : list ApiStreamChunk) (log : list ConsoleEntry) :
  events (catchClause abort reads error st out log) = out.
Proof.
  unfold catchClause.
  destruct (_ || _); [reflexivity|].
  destruct (err_code error) as [code|]; [|reflexivity].
  destruct (str_eqb code _); [reflexivity|].
  destruct (str_eqb code _); reflexivity.
Qed.

Lemma catchClause_aborted (abort : option nat) (reads : nat) (error : JsError)
  (st : Proc E) (out : list ApiStreamChunk) (log : list ConsoleEntry) :
  aborted abort reads = true ->
  outcome (catchClause abort reads error st out log) = Returned.
Proof. unfold catchClause. intros ->. now rewrite orb_true_r. Qed.

Lemma afterLoop_aborted (abort : option nat) (inputTokens : N) (reads : nat)
  (sse : SSEParser.t) (st : Proc E) (out : list ApiStreamChunk) (log : list ConsoleEntry) :
  aborted abort reads = true ->
  afterLoop abort inputTokens reads sse st out log
  = {| events := out; outcome := Returned; console := log ++ [LogStoppedByAbort];
       text := p_text st |}.
Proof. unfold afterLoop. now intros ->. Qed.

Lemma afterLoop_completed (abort : option nat) (inputTokens : N) (reads : nat)
  (sse : SSEParser.t) (st : Proc E) (out : list ApiStreamChunk) (log : list ConsoleEntry) :
  aborted abort reads = false ->
  afterLoop abort inputTokens reads sse st out log
  = {| events := out ++ snd (flushPhase sse st)
                 ++ [ApiUsage inputTokens
                       (fst (countOrZero E [TextBlock (p_text (fst (flushPhase sse st)))]
                               ErrOutputTokens))];
       outcome := Returned;
       console := log ++ snd (countOrZero E [TextBlock (p_text (fst (flushPhase sse st)))]
                                ErrOutputTokens) ++ [LogCompleted];
       text := p_text (fst (flushPhase sse st)) |}.
Proof.
  unfold afterLoop. intros ->. cbn [negb].
  destruct (flushPhase sse st) as [st1 flushed]. cbn [fst snd].
  now destruct (countOrZero E _ _).
Qed.

(** A loop entered with the signal set yields nothing. *)
Lemma streamLoop_aborted (chunks : list jsstring) (abort : option nat) (i : nat)
  (sse : SSEParser.t) (st : Proc E) :
  aborted abort i = true ->
  l_events (streamLoop abort i sse st chunks) = [].
Proof. intros Ha. destruct chunks; cbn [streamLoop]; [|rewrite Ha]; reflexivity. Qed.

(** Without a cancellation the loop handles, in order, the payloads the
    parser returns for the chunks. *)
Lemma streamLoop_payloads (chunks : list jsstring) (i : nat) (sse : SSEParser.t)
  (st : Proc E) :
  l_sse (streamLoop None i sse st chunks) = snd (SSEParser.feed sse chunks)
  /\ (l_state (streamLoop None i sse st chunks),
      l_events (streamLoop None i sse st chunks),
      l_console (streamLoop None i sse st chunks))
     = forEachData (processData (E := E)) st (fst (SSEParser.feed sse chunks)).
Proof.
  revert i sse st; induction chunks as [|c chunks IH]; intros i sse st;
    cbn [streamLoop SSEParser.feed aborted]; [now split|].
  destruct (SSEParser.parse sse c) as [dataChunks sse1].
  destruct (SSEParser.feed sse1 chunks) as [outs p2] eqn:Hfeed. cbn [fst snd].
  rewrite forEachData_app.
  destruct (forEachData (processData (E := E)) st dataChunks) as [[st1 out1] log1].
  specialize (IH (S i) sse1 st1). rewrite Hfeed in IH. cbn [fst snd] in IH.
  destruct IH as [IH1 IH2].
  cbn [l_sse l_state l_events l_console]. split; [exact IH1|].
  now rewrite <- IH2.
Qed.

(** A run that sees the signal set yields what the loop yielded and
    returns. *)
Lemma createMessage_cancelled (sys : jsstring) (msgs : list MessageParam)
  (chunks : list jsstring) (ending : StreamEnd) (abort : option nat) :
  aborted abort (length chunks) = true ->
  events (createMessage E sys msgs (Streaming chunks ending) abort)
  = l_events (streamLoop abort 0 SSEParser.init (startProc E) chunks)
  /\ outcome (createMessage E sys msgs (Streaming chunks ending) abort) = Returned.
Proof.
  intros Ha. unfold createMessage.
  destruct (countOrZero E _ _) as [inputTokens log0]. cbn zeta.
  destruct (streamLoop_exit chunks abort 0 SSEParser.init (startProc E)) as [Hb Hn].
  destruct (l_broke _) eqn:Hbroke.
  - destruct (Hb eq_refl) as [Hr _]. now rewrite afterLoop_aborted.
  - rewrite (Hn eq_refl). cbn [Nat.add]. destruct ending as [|e].
    + now rewrite afterLoop_aborted.
    + now rewrite catchClause_events, catchClause_aborted.
Qed.

(** A run that never sees the signal set leaves the loop after the last
    chunk. *)
Lemma createMessage_not_cancelled (sys : jsstring) (msgs : list MessageParam)
  (chunks : list jsstring) (ending : StreamEnd) (abort : option nat) :
  aborted abort (length chunks) = false ->
  createMessage E sys msgs (Streaming chunks ending) abort
  = let r := streamLoop abort 0 SSEParser.init (startProc E) chunks in
    let c := countOrZero E (inputBlocks sys msgs) ErrInputTokens in
    let log := snd c ++ [LogStarting; LogStreamStarted] ++ l_console r in
    match ending with
    | EndOfStream =>
        afterLoop abort (fst c) (length chunks) (l_sse r) (l_state r) (l_events r) log
    | StreamError error =>
        catchClause abort (length chunks) error (l_state r) (l_events r) log
    end.
Proof.
  intros Ha. unfold createMessage.
  destruct (countOrZero E _ _) as [inputTokens log0]. cbn zeta. cbn [fst snd].
  destruct (streamLoop_exit chunks abort 0 SSEParser.init (startProc E)) as [Hb Hn].
  destruct (l_broke _) eqn:Hbroke.
  - destruct (Hb eq_refl) as [Hr [_ Hlt]].
    apply (aborted_mono abort _ (length chunks)) in Hr; [congruence|].
    simpl in Hlt. lia.
  - now rewrite (Hn eq_refl).
Qed.

End HandlerFacts.

(** ** Claims on the streaming handler *)

Section HandlerClaims.

Variable E : Externals.

(** C4.  When the stream completes normally the usage chunk is yielded, it
    is the last chunk and the only usage chunk, and the generator returns;
    in every other run no usage chunk is yielded: not when a cancellation
    is seen, and not when the generator throws. *)
Theorem usage_last_and_only_on_completion (sys : jsstring) (msgs : list MessageParam)
  (response : Response) (abort : option nat) :
  (completesNormally response abort = true ->
   exists before inputTokens outputTokens,
     events (createMessage E sys msgs response abort)
     = before ++ [ApiUsage inputTokens outputTokens]
     /\ noUsage before = true
     /\ outcome (createMessage E sys msgs response abort) = Returned)
  /\ (completesNormally response abort = false ->
      noUsage (events (createMessage E sys msgs response abort)) = true)
  /\ (cancelSeen response abort = true ->
      noUsage (events (createMessage E sys msgs response abort)) = true
      /\ outcome (createMessage E sys msgs response abort) = Returned)
  /\ (forall message,
        outcome (createMessage E sys msgs response abort) = Threw message ->
        noUsage (events (createMessage E sys msgs response abort)) = true).
Proof.
  assert (Hnormal : completesNormally response abort = true ->
    exists before inputTokens outputTokens,
      events (createMessage E sys msgs response abort)
      = before ++ [ApiUsage inputTokens outputTokens]
      /\ noUsage before = true
      /\ outcome (createMessage E sys msgs response abort) = Returned).
  { destruct response as [e| |chunks [|e]]; try discriminate.
    unfold completesNormally, notCancelled. intros Ha. apply negb_true_iff in Ha.
    rewrite (createMessage_not_cancelled E sys msgs chunks EndOfStream abort Ha).
    cbn zeta. rewrite afterLoop_completed by exact Ha. cbn [events outcome].
    eexists (_ ++ _), _, _. rewrite app_assoc. repeat split.
    rewrite noUsage_app, streamLoop_noUsage.
    now rewrite (kind_noUsage _ (flushPhase_kind E _ _)). }
  assert (Hother : completesNormally response abort = false ->
    noUsage (events (createMessage E sys msgs response abort)) = true).
  { destruct response as [e| |chunks ending]; intros Hc.
    - unfold createMessage. destruct (countOrZero E _ _).
      now rewrite catchClause_events.
    - unfold createMessage. destruct (countOrZero E _ _).
      now rewrite catchClause_events.
    - destruct (aborted abort (length chunks)) eqn:Ha.
      + destruct (createMessage_cancelled E sys msgs chunks ending abort Ha) as [-> _].
        apply streamLoop_noUsage.
      + rewrite (createMessage_not_cancelled E sys msgs chunks ending abort Ha).
        cbn zeta. destruct ending as [|e].
        * unfold completesNormally, notCancelled in Hc. now rewrite Ha in Hc.
        * rewrite catchClause_events. apply streamLoop_noUsage. }
  repeat split; try assumption.
  - apply Hother. destruct response as [e| |chunks [|e]]; try reflexivity.
    unfold cancelSeen, lastRead in H. unfold completesNormally, notCancelled.
    now rewrite H.
  - destruct response as [e| |chunks ending]; unfold cancelSeen, lastRead in H.
    + unfold createMessage. destruct (countOrZero E _ _).
      now apply catchClause_aborted.
    + unfold createMessage. destruct (countOrZero E _ _).
      now apply catchClause_aborted.
    + now destruct (createMessage_cancelled E sys msgs chunks ending abort H).
  - intros message Hthrew. apply Hother.
    destruct (completesNormally response abort) eqn:Hc; [|reflexivity].
    destruct (Hnormal eq_refl) as (? & ? & ? & _ & _ & Hret). congruence.
Qed.

(** C3, amended.  A run that sees the cancellation at the read after the
    chunks [pre] yields exactly what the loop yields for [pre]; this is a
    prefix of what a run without cancellation yields on any stream that
    starts with [pre], and a strict prefix when that run completes normally
    (it then ends with the usage chunk); the cancelled run yields no usage
    chunk and returns; and a run that sees the cancellation before any
    chunk is consumed yields nothing. *)
Theorem cancellation_truncates (sys : jsstring) (msgs : list MessageParam)
  (pre rest rest' : list jsstring) (ending ending' : StreamEnd) :
  let cancelled :=
    createMessage E sys msgs (Streaming (pre ++ rest') ending') (Some (length pre)) in
  let complete := createMessage E sys msgs (Streaming (pre ++ rest) ending) None in
  events cancelled = l_events (streamLoop None 0 SSEParser.init (startProc E) pre)
  /\ prefix_of (events cancelled) (events complete)
  /\ (ending = EndOfStream -> strict_prefix_of (events cancelled) (events complete))
  /\ noUsage (events cancelled) = true
  /\ outcome cancelled = Returned
  /\ (forall response,
        events (createMessage E sys msgs response (Some 0)) = []
        /\ outcome (createMessage E sys msgs response (Some 0)) = Returned).
Proof.
  intros cancelled complete.
  assert (Hseen : aborted (Some (length pre)) (length (pre ++ rest')) = true).
  { simpl. apply Nat.leb_le. rewrite length_app. lia. }
  destruct (createMessage_cancelled E sys msgs (pre ++ rest') ending' _ Hseen)
    as [Hev Hout].
  assert (Hcancelled :
    events cancelled = l_events (streamLoop None 0 SSEParser.init (startProc E) pre)).
  { unfold cancelled. rewrite Hev, streamLoop_app.
    - cbv zeta. cbn [l_events].
      rewrite (streamLoop_aborted E rest' (Some (length pre)))
        by (simpl; apply Nat.leb_refl).
      apply app_nil_r.
    - intros j Hj. simpl. apply Nat.leb_gt. lia. }
  assert (Hcomplete : exists tail,
    events complete = events cancelled ++ tail /\ (ending = EndOfStream -> tail <> [])).
  { unfold complete.
    rewrite (createMessage_not_cancelled E sys msgs (pre ++ rest) ending None eq_refl).
    cbv zeta. rewrite streamLoop_app by reflexivity. cbv zeta. cbn [l_events].
    rewrite Hcancelled. destruct ending as [|e].
    - rewrite afterLoop_completed by reflexivity. cbn [events].
      eexists. rewrite <- app_assoc. split; [reflexivity|].
      intros _ H. apply app_eq_nil in H as [_ H]. apply app_eq_nil in H as [_ H].
      discriminate.
    - rewrite catchClause_events. eexists. split; [reflexivity|discriminate]. }
  destruct Hcomplete as (tail & Htail & Hstrict).
  split; [exact Hcancelled|].
  split; [now exists tail|].
  split; [intros Hend; exists tail; split; [now apply Hstrict|exact Htail]|].
  split; [rewrite Hcancelled; apply streamLoop_noUsage|].
  split; [exact Hout|].
  intros [e| |chunks end0].
  - unfold createMessage. destruct (countOrZero E _ _).
    now rewrite catchClause_events, catchClause_aborted.
  - unfold createMessage. destruct (countOrZero E _ _).
    now rewrite catchClause_events, catchClause_aborted.
  - destruct (createMessage_cancelled E sys msgs chunks end0 (Some 0) eq_refl)
      as [-> ->].
    now rewrite streamLoop_aborted.
Qed.

(** A signal set after the last read is not seen: the run is the run
    without cancellation, usage chunk included. *)
Lemma late_cancellation_unseen (sys : jsstring) (msgs : list MessageParam)
  (chunks : list jsstring) (ending : StreamEnd) (k : nat) :
  length chunks < k ->
  createMessage E sys msgs (Streaming chunks ending) (Some k)
  = createMessage E sys msgs (Streaming chunks ending) None.
Proof.
  intros Hk.
  assert (Ha : aborted (Some k) (length chunks) = false)
    by (simpl; apply Nat.leb_gt; lia).
  rewrite (createMessage_not_cancelled E sys msgs chunks ending (Some k) Ha).
  rewrite (createMessage_not_cancelled E sys msgs chunks ending None eq_refl).
  cbv zeta.
  assert (Hloop : streamLoop (Some k) 0 SSEParser.init (startProc E) chunks
                  = streamLoop None 0 SSEParser.init (startProc E) chunks).
  { rewrite <- (app_nil_r chunks) at 1. rewrite streamLoop_app.
    - cbv zeta. cbn [streamLoop l_sse l_state l_events l_console l_reads l_broke].
      rewrite !app_nil_r.
      destruct (streamLoop_exit E chunks None 0 SSEParser.init (startProc E)) as [Hb Hn].
      destruct (streamLoop None 0 SSEParser.init (startProc E) chunks)
        as [sse st out log reads broke].
      cbn [l_sse l_state l_events l_console l_reads l_broke] in *.
      destruct broke; [destruct (Hb eq_refl) as [Hf _]; discriminate|].
      now rewrite (Hn eq_refl).
    - intros j Hj. simpl. apply Nat.leb_gt. lia. }
  rewrite Hloop. destruct ending as [|e].
  - unfold afterLoop. now rewrite Ha.
  - unfold catchClause. now rewrite Ha.
Qed.

(** The catch clause when no cancellation is in sight. *)
Lemma catchClause_outcome (abort : option nat) (reads : nat) (error : JsError)
  (st : Proc E) (out : list ApiStreamChunk) (log : list ConsoleEntry) :
  aborted abort reads = false ->
  looksCancelled error = false ->
  outcome (catchClause abort reads error st out log)
  = if hasCode error "ECONNABORTED" then Threw TIMEOUT_MESSAGE
    else if hasCode error "ERR_STREAM_DESTROYED" then Returned
    else Threw FAILURE_MESSAGE.
Proof.
  unfold catchClause, looksCancelled, hasCode. intros -> ->. cbn [orb].
  destruct (err_code error) as [code|]; [|reflexivity].
  destruct (str_eqb code (lit "ECONNABORTED")); [reflexivity|].
  destruct (str_eqb code (lit "ERR_STREAM_DESTROYED")); reflexivity.
Qed.

Lemma createMessage_failure (sys : jsstring) (msgs : list MessageParam)
  (response : Response) (error : JsError) (abort : option nat) :
  failureOf response = Some error ->
  cancelSeen response abort = false ->
  looksCancelled error = false ->
  outcome (createMessage E sys msgs response abort)
  = if hasCode error "ECONNABORTED" then Threw TIMEOUT_MESSAGE
    else if hasCode error "ERR_STREAM_DESTROYED" then Returned
    else Threw FAILURE_MESSAGE.
Proof.
  unfold cancelSeen. intros Hf Ha Hc.
  destruct response as [e| |chunks [|e]]; simpl in Hf, Ha; try discriminate;
    injection Hf as <-.
  - unfold createMessage. destruct (countOrZero E _ _).
    now apply catchClause_outcome.
  - unfold createMessage. destruct (countOrZero E _ _).
    now apply catchClause_outcome.
  - rewrite createMessage_not_cancelled by exact Ha. cbv zeta.
    now apply catchClause_outcome.
Qed.

(** The catch clause on an error it takes for a cancellation. *)
Lemma catchClause_looksCancelled (abort : option nat) (reads : nat) (error : JsError)
  (st : Proc E) (out : list ApiStreamChunk) (log : list ConsoleEntry) :
  looksCancelled error = true ->
  outcome (catchClause abort reads error st out log) = Returned.
Proof. unfold catchClause, looksCancelled. now intros ->. Qed.

Lemma createMessage_cancel_error (sys : jsstring) (msgs : list MessageParam)
  (response : Response) (error : JsError) (abort : option nat) :
  failureOf response = Some error ->
  cancelSeen response abort = false ->
  looksCancelled error = true ->
  outcome (createMessage E sys msgs response abort) = Returned.
Proof.
  unfold cancelSeen. intros Hf Ha Hc.
  destruct response as [e| |chunks [|e]]; simpl in Hf, Ha; try discriminate;
    injection Hf as <-.
  - unfold createMessage. destruct (countOrZero E _ _).
    now apply catchClause_looksCancelled.
  - unfold createMessage. destruct (countOrZero E _ _).
    now apply catchClause_looksCancelled.
  - rewrite createMessage_not_cancelled by exact Ha. cbv zeta.
    now apply catchClause_looksCancelled.
Qed.

(** C8, amended.  When the run ends with an error and no cancellation is
    seen, the generator throws, with the time-out message for the code
    ECONNABORTED and with the general message otherwise, unless the error
    is one the catch clause takes for a cancellation or carries the code
    ERR_STREAM_DESTROYED: then the sequence ends silently.  The tests come
    in the order of the catch clause: cancellation, time-out, destroyed
    stream. *)
Theorem abnormal_end_reported (sys : jsstring) (msgs : list MessageParam)
  (response : Response) (error : JsError) (abort : option nat) :
  failureOf response = Some error ->
  cancelSeen response abort = false ->
  outcome (createMessage E sys msgs response abort)
  = if looksCancelled error then Returned
    else if hasCode error "ECONNABORTED" then Threw TIMEOUT_MESSAGE
    else if hasCode error "ERR_STREAM_DESTROYED" then Returned
    else Threw FAILURE_MESSAGE.
Proof.
  intros Hf Ha. destruct (looksCancelled error) eqn:Hc.
  - exact (createMessage_cancel_error sys msgs response error abort Hf Ha Hc).
  - exact (createMessage_failure sys msgs response error abort Hf Ha Hc).
Qed.

(** C10.  The flush after the stream yields text and reasoning chunks
    only, so no tool-call chunk comes from the payloads [final] returns, and
    it writes nothing to the console; in a run that completes normally what
    is yielded is what the loop yields, then what the flush yields, then
    the usage chunk. *)
Theorem flush_yields_text_only (sse : SSEParser.t) (st : Proc E)
  (sys : jsstring) (msgs : list MessageParam) (chunks : list jsstring) :
  forallb isTextOrReasoning (snd (flushPhase sse st)) = true
  /\ forallb (fun c => negb (isToolCall c)) (snd (flushPhase sse st)) = true
  /\ (forall data, snd (processFinalData st data) = [])
  /\ exists inputTokens outputTokens,
       let r := streamLoop None 0 SSEParser.init (startProc E) chunks in
       events (createMessage E sys msgs (Streaming chunks EndOfStream) None)
       = l_events r ++ snd (flushPhase (l_sse r) (l_state r))
         ++ [ApiUsage inputTokens outputTokens].
Proof.
  pose proof (flushPhase_kind E sse st) as Hk.
  split; [exact Hk|]. split; [|split].
  - revert Hk. generalize (snd (flushPhase sse st)) as out.
    induction out as [|c out IH]; simpl; [trivial|].
    intros H. apply andb_true_iff in H as [Hc Hout].
    rewrite (IH Hout). now destruct c.
  - intros data. unfold processFinalData.
    destruct (JSON_parse E data) as [parsed|e]; [|reflexivity].
    destruct (getProp parsed _) as [choices|e]; [|reflexivity].
    now destruct (contentStep st _) as [[st1 out1] threw1].
  - rewrite createMessage_not_cancelled by reflexivity. cbv zeta.
    rewrite afterLoop_completed by reflexivity. cbn [events]. eauto.
Qed.

(** The counter is read by [countOrZero] only, and a counter that throws
    counts as one that returns zero. *)
Lemma countOrZero_zero_on_throw (blocks : list ContentBlockParam) (onError : ConsoleEntry) :
  fst (countOrZero (with_countTokens E (zero_on_throw (countTokens E))) blocks onError)
  = fst (countOrZero E blocks onError).
Proof.
  unfold countOrZero, zero_on_throw. cbn [countTokens with_countTokens].
  now destruct (countTokens E blocks).
Qed.

Lemma createMessage_zero_on_throw (sys : jsstring) (msgs : list MessageParam)
  (response : Response) (abort : option nat) :
  let E0 := with_countTokens E (zero_on_throw (countTokens E)) in
  events (createMessage E sys msgs response abort)
  = events (createMessage E0 sys msgs response abort)
  /\ outcome (createMessage E sys msgs response abort)
     = outcome (createMessage E0 sys msgs response abort)
  /\ text (createMessage E sys msgs response abort)
     = text (createMessage E0 sys msgs response abort).
Proof.
  intros E0. unfold createMessage.
  pose proof (countOrZero_zero_on_throw (inputBlocks sys msgs) ErrInputTokens) as Hin.
  fold E0 in Hin.
  destruct (countOrZero E (inputBlocks sys msgs) ErrInputTokens) as [i log].
  destruct (countOrZero E0 (inputBlocks sys msgs) ErrInputTokens) as [i0 log0].
  cbn [fst] in Hin. subst i0.
  destruct response as [e| |chunks ending].
  - unfold catchClause. cbn [p_text startProc].
    destruct (_ || _); [now repeat split|].
    destruct (err_code e) as [code|]; [|now repeat split].
    destruct (str_eqb code _); [now repeat split|].
    destruct (str_eqb code _); now repeat split.
  - unfold catchClause. cbn [p_text startProc].
    destruct (_ || _); now repeat split.
  - cbv zeta.
    change (streamLoop abort 0 SSEParser.init (startProc E0) chunks)
      with (streamLoop abort 0 SSEParser.init (startProc E) chunks).
    set (r := streamLoop abort 0 SSEParser.init (startProc E) chunks).
    assert (Hafter : forall l l0,
      events (afterLoop abort i (l_reads r) (l_sse r) (l_state r) (l_events r) l)
      = events (afterLoop (E := E0) abort i (l_reads r) (l_sse r) (l_state r)
                  (l_events r) l0)
      /\ outcome (afterLoop abort i (l_reads r) (l_sse r) (l_state r) (l_events r) l)
         = outcome (afterLoop (E := E0) abort i (l_reads r) (l_sse r) (l_state r)
                      (l_events r) l0)
      /\ text (afterLoop abort i (l_reads r) (l_sse r) (l_state r) (l_events r) l)
         = text (afterLoop (E := E0) abort i (l_reads r) (l_sse r) (l_state r)
                   (l_events r) l0)).
    { intros l l0. unfold afterLoop. destruct (negb _); [|now repeat split].
      change (flushPhase (E := E0) (l_sse r) (l_state r))
        with (flushPhase (E := E) (l_sse r) (l_state r)).
      destruct (flushPhase (l_sse r) (l_state r)) as [st1 flushed].
      pose proof (countOrZero_zero_on_throw [TextBlock (p_text st1)] ErrOutputTokens)
        as Hout.
      fold E0 in Hout.
      destruct (countOrZero E _ _) as [o lo]. destruct (countOrZero E0 _ _) as [o0 lo0].
      cbn [fst] in Hout. subst o0. now repeat split. }
    change (Proc E0) with (Proc E).
    destruct (l_broke r); [apply Hafter|].
    destruct ending as [|e]; [apply Hafter|].
    unfold catchClause.
    destruct (_ || _); [now repeat split|].
    destruct (err_code e) as [code|]; [|now repeat split].
    destruct (str_eqb code _); [now repeat split|].
    destruct (str_eqb code _); now repeat split.
Qed.

(** The run that completes normally, spelled out. *)
Lemma createMessage_completed (sys : jsstring) (msgs : list MessageParam)
  (chunks : list jsstring) (abort : option nat) :
  notCancelled abort chunks = true ->
  createMessage E sys msgs (Streaming chunks EndOfStream) abort
  = let r := streamLoop abort 0 SSEParser.init (startProc E) chunks in
    let cin := countOrZero E (inputBlocks sys msgs) ErrInputTokens in
    let flushed := flushPhase (l_sse r) (l_state r) in
    let cout := countOrZero E [TextBlock (p_text (fst flushed))] ErrOutputTokens in
    {| events := l_events r ++ snd flushed ++ [ApiUsage (fst cin) (fst cout)];
       outcome := Returned;
       console := (snd cin ++ [LogStarting; LogStreamStarted] ++ l_console r)
                  ++ snd cout ++ [LogCompleted];
       text := p_text (fst flushed) |}.
Proof.
  unfold notCancelled. intros Ha. apply negb_true_iff in Ha.
  rewrite createMessage_not_cancelled by exact Ha. cbv zeta.
  now rewrite afterLoop_completed by exact Ha.
Qed.

(** Every run logs the start of the request, after the line of a failed
    input count if there is one. *)
Lemma createMessage_console (sys : jsstring) (msgs : list MessageParam)
  (response : Response) (abort : option nat) :
  exists rest,
    console (createMessage E sys msgs response abort)
    = snd (countOrZero E (inputBlocks sys msgs) ErrInputTokens) ++ LogStarting :: rest.
Proof.
  assert (Hcatch : forall reads error (st : Proc E) out log,
            exists tail, console (catchClause abort reads error st out log) = log ++ tail).
  { intros. unfold catchClause.
    destruct (_ || _); [eexists; reflexivity|].
    destruct (err_code error) as [code|]; [|eexists; reflexivity].
    destruct (str_eqb code (lit "ECONNABORTED"));
      [exists []; cbn [console]; now rewrite app_nil_r|].
    destruct (str_eqb code (lit "ERR_STREAM_DESTROYED")); eexists; reflexivity. }
  assert (Hafter : forall i reads sse (st : Proc E) out log,
            exists tail, console (afterLoop abort i reads sse st out log) = log ++ tail).
  { intros. unfold afterLoop. destruct (negb _); [|eexists; reflexivity].
    destruct (flushPhase sse st). destruct (countOrZero E _ _).
    eexists; reflexivity. }
  unfold createMessage.
  destruct (countOrZero E _ _) as [i log0]. cbn [snd].
  destruct response as [e| |chunks ending].
  - destruct (Hcatch 0 e (startProc E) [] (log0 ++ [LogStarting])) as [tail ->].
    exists tail. now rewrite <- !app_assoc.
  - destruct (Hcatch 0 PlainError (startProc E) []
                (log0 ++ [LogStarting; LogStreamStarted])) as [tail ->].
    eexists. now rewrite <- !app_assoc.
  - cbv zeta. set (r := streamLoop abort 0 SSEParser.init (startProc E) chunks).
    destruct (l_broke r); [|destruct ending as [|e]].
    + destruct (Hafter i (l_reads r) (l_sse r) (l_state r) (l_events r)
                  (log0 ++ [LogStarting; LogStreamStarted] ++ l_console r)) as [tail ->].
      eexists. now rewrite <- !app_assoc.
    + destruct (Hafter i (l_reads r) (l_sse r) (l_state r) (l_events r)
                  (log0 ++ [LogStarting; LogStreamStarted] ++ l_console r)) as [tail ->].
      eexists. now rewrite <- !app_assoc.
    + destruct (Hcatch (l_reads r) e (l_state r) (l_events r)
                  (log0 ++ [LogStarting; LogStreamStarted] ++ l_console r)) as [tail ->].
      eexists. now rewrite <- !app_assoc.
Qed.

Lemma afterLoop_returns (abort : option nat) (i : N) (reads : nat)
  (sse : SSEParser.t) (st : Proc E) (out : list ApiStreamChunk)
  (log : list ConsoleEntry) :
  outcome (afterLoop abort i reads sse st out log) = Returned.
Proof.
  unfold afterLoop. destruct (negb _); [|reflexivity].
  destruct (flushPhase sse st). now destruct (countOrZero E _ _).
Qed.

(** The generator throws only when the request or the stream fails. *)
Lemma createMessage_throws (sys : jsstring) (msgs : list MessageParam)
  (response : Response) (abort : option nat) (message : jsstring) :
  outcome (createMessage E sys msgs response abort) = Threw message ->
  exists error, failureOf response = Some error.
Proof.
  destruct response as [e| |chunks [|e]]; cbn [failureOf]; eauto.
  unfold createMessage. destruct (countOrZero E _ _). cbv zeta.
  destruct (l_broke _); rewrite afterLoop_returns; discriminate.
Qed.

(** C7.  A run with a counter that throws is, in what it yields, in how it
    ends and in the text it accumulates, the run with a counter that
    returns zero instead, and the generator throws only when the request
    or the stream fails: no run ends in a counting failure.  The request
    is started whatever the input count does; an input count that throws
    is logged and reported as zero; and an output count that throws after a
    normal completion is logged and reported as zero in the usage chunk,
    which is still the last chunk yielded. *)
Theorem counting_failure_is_not_fatal (sys : jsstring) (msgs : list MessageParam)
  (response : Response) (abort : option nat) :
  let r := createMessage E sys msgs response abort in
  let r0 := createMessage (with_countTokens E (zero_on_throw (countTokens E)))
              sys msgs response abort in
  (events r = events r0 /\ outcome r = outcome r0 /\ text r = text r0)
  /\ (forall message, outcome r = Threw message ->
        exists error, failureOf response = Some error)
  /\ In LogStarting (console r)
  /\ (forall e, countTokens E (inputBlocks sys msgs) = Throw e ->
        In ErrInputTokens (console r)
        /\ (completesNormally response abort = true ->
            exists before outputTokens,
              events r = before ++ [ApiUsage 0 outputTokens]))
  /\ (forall e, countTokens E [TextBlock (text r)] = Throw e ->
        completesNormally response abort = true ->
        In ErrOutputTokens (console r)
        /\ outcome r = Returned
        /\ exists before inputTokens,
             events r = before ++ [ApiUsage inputTokens 0]).
Proof.
  intros r r0.
  split; [apply createMessage_zero_on_throw|].
  split; [intros message; apply createMessage_throws|].
  destruct (createMessage_console sys msgs response abort) as [rest Hconsole].
  fold r in Hconsole.
  split; [rewrite Hconsole; apply in_or_app; right; now left|].
  split.
  - intros e He. split.
    + rewrite Hconsole. apply in_or_app. left.
      unfold countOrZero. rewrite He. now left.
    + intros Hc. destruct response as [?| |chunks [|?]]; try discriminate.
      unfold r. rewrite createMessage_completed by exact Hc. cbv zeta. cbn [events].
      unfold countOrZero at 1. rewrite He. cbn [fst].
      eexists (_ ++ _), _. now rewrite <- app_assoc.
  - intros e He Hc. destruct response as [?| |chunks [|?]]; try discriminate.
    unfold r in *. rewrite createMessage_completed in * by exact Hc.
    cbv zeta in *. cbn [events console outcome text] in *.
    unfold countOrZero at 2 4. rewrite He. cbn [fst snd].
    repeat split.
    + apply in_or_app. right. now left.
    + eexists (_ ++ _), _. now rewrite <- app_assoc.
Qed.

(** A payload that does not parse changes nothing, yields nothing, and is
    logged. *)
Lemma processData_malformed (st : Proc E) (bad : jsstring) (e : JsError) :
  JSON_parse E bad = Throw e -> processData st bad = (st, [], [ErrParse bad]).
Proof. unfold processData. now intros ->. Qed.

Lemma forEachData_malformed (payloads1 payloads2 : list jsstring) (bad : jsstring)
  (e : JsError) (st : Proc E) :
  JSON_parse E bad = Throw e ->
  forEachData (processData (E := E)) st (payloads1 ++ bad :: payloads2)
  = let '(st1, out1, log1) := forEachData (processData (E := E)) st payloads1 in
    let '(st2, out2, log2) := forEachData (processData (E := E)) st1 payloads2 in
    (st2, out1 ++ out2, log1 ++ ErrParse bad :: log2).
Proof.
  intros Hbad. rewrite forEachData_app.
  destruct (forEachData _ st payloads1) as [[st1 out1] log1].
  cbn [forEachData]. rewrite (processData_malformed st1 bad e Hbad).
  now destruct (forEachData _ st1 payloads2) as [[st2 out2] log2].
Qed.

(** A run without cancellation handles the payloads of the text of its
    chunks, whatever the chunks are. *)
Lemma createMessage_text (sys : jsstring) (msgs : list MessageParam)
  (chunks : list jsstring) (ending : StreamEnd) :
  createMessage E sys msgs (Streaming chunks ending) None
  = let lines := fst (cut (concat chunks)) in
    let '(st, out, log1) :=
      forEachData (processData (E := E)) (startProc E)
        (flat_map SSEParser.frame_rule lines) in
    let cin := countOrZero E (inputBlocks sys msgs) ErrInputTokens in
    let log := snd cin ++ [LogStarting; LogStreamStarted] in
    match ending with
    | EndOfStream =>
        afterLoop None (fst cin) 0 {| SSEParser.buffer := snd (cut (concat chunks)) |}
          st out (log ++ log1)
    | StreamError error => catchClause None 0 error st out (log ++ log1)
    end.
Proof.
  rewrite createMessage_not_cancelled by reflexivity. cbv zeta.
  destruct (streamLoop_payloads E chunks 0 SSEParser.init (startProc E)) as [Hsse Hst].
  rewrite SSEFacts.feed_cut in Hsse, Hst by reflexivity.
  cbn [fst snd SSEParser.buffer SSEParser.init app] in Hsse, Hst.
  rewrite <- Hst, Hsse, <- app_assoc. reflexivity.
Qed.

(** The console is written and never read. *)
Lemma afterLoop_console_irrelevant (abort : option nat) (i : N) (reads : nat)
  (sse : SSEParser.t) (st : Proc E) (out : list ApiStreamChunk)
  (log log' : list ConsoleEntry) :
  events (afterLoop abort i reads sse st out log)
  = events (afterLoop abort i reads sse st out log')
  /\ outcome (afterLoop abort i reads sse st out log)
     = outcome (afterLoop abort i reads sse st out log')
  /\ text (afterLoop abort i reads sse st out log)
     = text (afterLoop abort i reads sse st out log').
Proof.
  unfold afterLoop. destruct (negb _); [|now repeat split].
  destruct (flushPhase sse st). now destruct (countOrZero E _ _).
Qed.

Lemma catchClause_console_irrelevant (abort : option nat) (reads : nat)
  (error : JsError) (st : Proc E) (out : list ApiStreamChunk)
  (log log' : list ConsoleEntry) :
  events (catchClause abort reads error st out log)
  = events (catchClause abort reads error st out log')
  /\ outcome (catchClause abort reads error st out log)
     = outcome (catchClause abort reads error st out log')
  /\ text (catchClause abort reads error st out log)
     = text (catchClause abort reads error st out log').
Proof.
  unfold catchClause.
  destruct (_ || _); [now repeat split|].
  destruct (err_code error) as [code|]; [|now repeat split].
  destruct (str_eqb code (lit "ECONNABORTED")); [now repeat split|].
  destruct (str_eqb code (lit "ERR_STREAM_DESTROYED")); now repeat split.
Qed.

Lemma afterLoop_console_keeps (abort : option nat) (i : N) (reads : nat)
  (sse : SSEParser.t) (st : Proc E) (out : list ApiStreamChunk)
  (log : list ConsoleEntry) (entry : ConsoleEntry) :
  In entry log -> In entry (console (afterLoop abort i reads sse st out log)).
Proof.
  intros Hin. unfold afterLoop. destruct (negb _).
  - destruct (flushPhase sse st). destruct (countOrZero E _ _).
    cbn [console]. apply in_or_app. now left.
  - cbn [console]. apply in_or_app. now left.
Qed.

Lemma catchClause_console_keeps (abort : option nat) (reads : nat)
  (error : JsError) (st : Proc E) (out : list ApiStreamChunk)
  (log : list ConsoleEntry) (entry : ConsoleEntry) :
  In entry log -> In entry (console (catchClause abort reads error st out log)).
Proof.
  intros Hin. unfold catchClause.
  destruct (_ || _); [cbn [console]; apply in_or_app; now left|].
  destruct (err_code error) as [code|]; [|cbn [console]; apply in_or_app; now left].
  destruct (str_eqb code (lit "ECONNABORTED")); [exact Hin|].
  destruct (str_eqb code (lit "ERR_STREAM_DESTROYED"));
    cbn [console]; apply in_or_app; now left.
Qed.

(** C6, amended.  A line that carries a payload [JSON.parse] rejects is
    skipped and never ends the stream: whatever the text before the line
    and after it, and however the two streams are cut into chunks, the run
    on the stream with the line yields the chunks the run on the stream
    without it yields, in the same order, ends the same way and accumulates
    the same text.  The payload is logged when a line feed ends its line;
    on the last line of the stream, which no line feed ends, it is handled
    by the flush, whose catch clause is empty: the run is then the run on
    the stream without the line, console included. *)
Theorem malformed_frame_is_skipped (sys : jsstring) (msgs : list MessageParam)
  (before line bad : jsstring) (e : JsError) (ending : StreamEnd) :
  JSON_parse E bad = Throw e ->
  snd (cut before) = [] ->
  cut line = ([], line) ->
  (forall (after : jsstring) (chunks chunks' : list jsstring),
     SSEParser.frame_rule line = [bad] ->
     concat chunks = before ++ line ++ LF :: after ->
     concat chunks' = before ++ after ->
     events (createMessage E sys msgs (Streaming chunks ending) None)
     = events (createMessage E sys msgs (Streaming chunks' ending) None)
     /\ outcome (createMessage E sys msgs (Streaming chunks ending) None)
        = outcome (createMessage E sys msgs (Streaming chunks' ending) None)
     /\ text (createMessage E sys msgs (Streaming chunks ending) None)
        = text (createMessage E sys msgs (Streaming chunks' ending) None)
     /\ In (ErrParse bad)
          (console (createMessage E sys msgs (Streaming chunks ending) None)))
  /\ (forall chunks chunks' : list jsstring,
        SSEParser.final {| SSEParser.buffer := line |} = [bad] ->
        concat chunks = before ++ line ->
        concat chunks' = before ->
        createMessage E sys msgs (Streaming chunks ending) None
        = createMessage E sys msgs (Streaming chunks' ending) None).
Proof.
  intros Hbad Hbefore Hline. split.
  - intros after chunks chunks' Hrule Hchunks Hchunks'.
    rewrite !createMessage_text, Hchunks, Hchunks'. cbv zeta.
    set (log := snd (countOrZero E (inputBlocks sys msgs) ErrInputTokens)
                ++ [LogStarting; LogStreamStarted]).
    rewrite (cut_app before (line ++ LF :: after)), (cut_app before after), Hbefore.
    cbn [app fst snd]. rewrite (cut_line line after Hline). cbn [fst snd].
    rewrite !flat_map_app. cbn [flat_map]. rewrite Hrule. cbn [app].
    rewrite (forEachData_malformed _ _ bad e _ Hbad), forEachData_app.
    destruct (forEachData _ (startProc E) _) as [[st1 out1] log1].
    destruct (forEachData _ st1 _) as [[st2 out2] log2].
    assert (Hin : In (ErrParse bad) (log ++ log1 ++ ErrParse bad :: log2)).
    { apply in_or_app. right. apply in_or_app. right. now left. }
    destruct ending as [|error].
    + destruct (afterLoop_console_irrelevant None
                  (fst (countOrZero E (inputBlocks sys msgs) ErrInputTokens)) 0
                  {| SSEParser.buffer := snd (cut after) |} st2 (out1 ++ out2)
                  (log ++ log1 ++ ErrParse bad :: log2) (log ++ log1 ++ log2))
        as (-> & -> & ->).
      repeat split. now apply afterLoop_console_keeps.
    + destruct (catchClause_console_irrelevant None 0 error st2 (out1 ++ out2)
                  (log ++ log1 ++ ErrParse bad :: log2) (log ++ log1 ++ log2))
        as (-> & -> & ->).
      repeat split. now apply catchClause_console_keeps.
  - intros chunks chunks' Hfinal Hchunks Hchunks'.
    rewrite !createMessage_text, Hchunks, Hchunks'. cbv zeta.
    rewrite (cut_app before line), Hbefore. cbn [app fst snd].
    rewrite Hline. cbn [fst snd]. rewrite app_nil_r.
    destruct (forEachData _ (startProc E) _) as [[st out] log1].
    destruct ending as [|error]; [|reflexivity].
    unfold afterLoop. cbn [aborted negb]. unfold flushPhase.
    rewrite Hfinal. cbn [forEachData SSEParser.final SSEParser.buffer trim trimStart
                          trimEnd rev str_truthy].
    unfold processFinalData. rewrite Hbad. reflexivity.
Qed.

(** Chunk-boundary independence of the whole handler: when no cancellation
    is seen, a run is decided by the text of its chunks and by the way the
    stream ends, whatever the chunk boundaries. *)
Theorem createMessage_chunk_boundary_independence (sys : jsstring)
  (msgs : list MessageParam) (chunks chunks' : list jsstring) (ending : StreamEnd) :
  concat chunks = concat chunks' ->
  createMessage E sys msgs (Streaming chunks ending) None
  = createMessage E sys msgs (Streaming chunks' ending) None.
Proof. intros H. now rewrite !createMessage_text, H. Qed.

(** C9.  [getLmStudioModels] always returns: with an empty list when the
    base URL cannot be parsed, and with an empty list when the request
    fails (and also when the answer cannot be read as a list of models). *)
Theorem getLmStudioModels_never_throws (baseUrl : option jsstring) :
  let url := match baseUrl with Some u => u | None => DEFAULT_BASE_URL end in
  (exists models, getLmStudioModels E baseUrl = Normal models)
  /\ (URL_canParse E url = false -> getLmStudioModels E baseUrl = Normal [])
  /\ (forall e, axios_get E (url ++ lit "/v1/models") = Throw e ->
        getLmStudioModels E baseUrl = Normal [])
  /\ (forall responseData e,
        axios_get E (url ++ lit "/v1/models") = Normal responseData ->
        modelsArray responseData = Throw e ->
        getLmStudioModels E baseUrl = Normal []).
Proof.
  intros url. unfold getLmStudioModels. fold url. unfold getLmStudioModels_body.
  repeat split.
  - destruct (URL_canParse E url); cbn [negb]; [|now exists []].
    destruct (axios_get E _) as [responseData|e]; [|now exists []].
    cbn [bind]. destruct (modelsArray responseData) as [models|e];
      cbn [bind try_catch]; eauto.
  - now intros ->.
  - intros e ->. now destruct (URL_canParse E url).
  - intros responseData e -> Hmodels. cbn [bind]. rewrite Hmodels.
    now destruct (URL_canParse E url).
Qed.

End HandlerClaims.

(** ** Runs of the handler on concrete streams *)

(** C3 as stated fails where it promises a strict prefix: when the stream
    fails after its first chunk, the run without cancellation yields what
    the run cancelled after that chunk yields, and then throws. *)
Lemma cancelled_run_of_failing_stream :
  let stream := Runs.toolStream (StreamError Demo.ConnectionReset) in
  events (createMessage Runs.E (lit "sys") [] stream (Some 1)) = [Demo.partialChunk]
  /\ events (createMessage Runs.E (lit "sys") [] stream None) = [Demo.partialChunk]
  /\ outcome (createMessage Runs.E (lit "sys") [] stream None) = Threw FAILURE_MESSAGE
  /\ ~ strict_prefix_of (events (createMessage Runs.E (lit "sys") [] stream (Some 1)))
                        (events (createMessage Runs.E (lit "sys") [] stream None)).
Proof.
  cbv zeta. split; [reflexivity|]. split; [reflexivity|]. split; [reflexivity|].
  intros (tail & Hne & Heq). vm_compute in Heq. injection Heq as Heq. congruence.
Qed.

(** C8 as stated fails: a stream the transport reports destroyed, with no
    cancellation requested, ends the sequence without a failure. *)
Lemma destroyed_stream_ends_silently :
  let r := createMessage Runs.E (lit "sys") []
             (Runs.toolStream (StreamError Demo.StreamDestroyed)) None in
  events r = [Demo.partialChunk]
  /\ outcome r = Returned
  /\ console r = [LogStarting; LogStreamStarted; LogStreamDestroyed].
Proof. cbv zeta. repeat split. Qed.

(** The amended C8 on a stream that is reset: the generator throws. *)
Lemma abnormal_end_reported_witness :
  outcome (createMessage Runs.E (lit "sys") []
             (Runs.toolStream (StreamError Demo.ConnectionReset)) None)
  = Threw FAILURE_MESSAGE.
Proof.
  exact (abnormal_end_reported Runs.E (lit "sys") []
           (Runs.toolStream (StreamError Demo.ConnectionReset))
           Demo.ConnectionReset None eq_refl eq_refl).
Defined.

(** C6 as stated fails where it says the payload is logged: a payload that
    does not parse and sits on the last line of the stream, which no line
    feed ends, is skipped by the flush without a word on the console. *)
Lemma malformed_last_line_is_not_logged :
  let chunks := [Runs.frameLine (Demo.contentFrame "Hello");
                 lit "data: " ++ Demo.garbled] in
  let r := createMessage Runs.E (lit "sys") [] (Streaming chunks EndOfStream) None in
  SSEParser.demux chunks = [Demo.contentFrame "Hello"; Demo.garbled]
  /\ JSON_parse Runs.E Demo.garbled = Throw SyntaxError
  /\ events r = [ApiText (lit "Hello"); ApiUsage 3 5]
  /\ outcome r = Returned
  /\ console r = [LogStarting; LogStreamStarted; LogCompleted].
Proof. cbv zeta. repeat split. Qed.

(** The amended C6 on a stream of three frames, the second cut short, whose
    chunks end inside the frames, and on the stream whose last line, cut
    short, has no line feed. *)
Lemma malformed_frame_is_skipped_witness :
  let wire := Runs.frameLine (Demo.contentFrame "Hello")
              ++ Runs.frameLine Demo.garbled
              ++ Runs.frameLine (Demo.contentFrame " world") in
  let clean := [Runs.frameLine (Demo.contentFrame "Hello");
                Runs.frameLine (Demo.contentFrame " world")] in
  let r := createMessage Runs.E (lit "sys") []
             (Streaming [firstn 60 wire; skipn 60 wire] EndOfStream) None in
  let r' := createMessage Runs.E (lit "sys") [] (Streaming clean EndOfStream) None in
  (events r = events r' /\ outcome r = outcome r' /\ text r = text r'
   /\ In (ErrParse Demo.garbled) (console r))
  /\ createMessage Runs.E (lit "sys") []
       (Streaming [Runs.frameLine (Demo.contentFrame "Hello");
                   lit "data: " ++ Demo.garbled] EndOfStream) None
     = createMessage Runs.E (lit "sys") []
         (Streaming [Runs.frameLine (Demo.contentFrame "Hello")] EndOfStream) None.
Proof.
  destruct (malformed_frame_is_skipped Runs.E (lit "sys") []
              (Runs.frameLine (Demo.contentFrame "Hello"))
              (lit "data: " ++ Demo.garbled) Demo.garbled SyntaxError EndOfStream
              eq_refl eq_refl eq_refl) as [Hline Hlast].
  split.
  - exact (Hline (Runs.frameLine (Demo.contentFrame " world"))
             [firstn 60 (Runs.frameLine (Demo.contentFrame "Hello")
                         ++ Runs.frameLine Demo.garbled
                         ++ Runs.frameLine (Demo.contentFrame " world"));
              skipn 60 (Runs.frameLine (Demo.contentFrame "Hello")
                        ++ Runs.frameLine Demo.garbled
                        ++ Runs.frameLine (Demo.contentFrame " world"))]
             [Runs.frameLine (Demo.contentFrame "Hello");
              Runs.frameLine (Demo.contentFrame " world")]
             eq_refl eq_refl eq_refl).
  - exact (Hlast [Runs.frameLine (Demo.contentFrame "Hello");
                  lit "data: " ++ Demo.garbled]
             [Runs.frameLine (Demo.contentFrame "Hello")]
             eq_refl eq_refl eq_refl).
Defined.

(** What that run yields: the events of the two frames that parse, then
    the usage chunk. *)
Example malformed_frame_run :
  let wire := Runs.frameLine (Demo.contentFrame "Hello")
              ++ Runs.frameLine Demo.garbled
              ++ Runs.frameLine (Demo.contentFrame " world") in
  events (createMessage Runs.E (lit "sys") []
            (Streaming [firstn 60 wire; skipn 60 wire] EndOfStream) None)
  = [ApiText (lit "Hello"); ApiText (lit " world"); ApiUsage 3 11].
Proof. reflexivity. Qed.

(** A frame with a tool call and a finish reason: on a terminated line it
    yields the partial tool call and its end; left unterminated at the end
    of the stream it yields nothing (C10). *)
Example tool_frame_terminated :
  events (createMessage Runs.E (lit "sys") []
            (Streaming [Runs.frameLine Demo.toolFrame] EndOfStream) None)
  = [ApiToolCallPartial (VNum (S754_zero false)) (VStr (lit "a")) (VStr (lit "x"))
       (VStr (lit "{}"));
     ApiToolCallEnd (VNum (S754_zero false));
     ApiUsage 3 0].
Proof. reflexivity. Qed.

Example tool_frame_unterminated :
  events (createMessage Runs.E (lit "sys") []
            (Streaming [lit "data: " ++ Demo.toolFrame] EndOfStream) None)
  = [ApiUsage 3 0].
Proof. reflexivity. Qed.

(** A counter that always throws: the stream is read, and the usage chunk
    reports zero on both sides (C7). *)
Example counting_always_fails :
  let r := createMessage (Demo.externals Demo.countThrows) (lit "sys") []
             (Runs.helloStream EndOfStream) None in
  events r = [ApiText (lit "Hello"); ApiUsage 0 0]
  /\ outcome r = Returned
  /\ console r = [ErrInputTokens; LogStarting; LogStreamStarted; ErrOutputTokens;
                  LogCompleted].
Proof. cbv zeta. repeat split. Qed.

(** A cancellation seen after the first of two chunks (C3). *)
Example cancelled_after_one_chunk :
  events (createMessage Runs.E (lit "sys") []
            (Streaming [Runs.frameLine (Demo.contentFrame "Hello");
                        Runs.frameLine (Demo.contentFrame " world")] EndOfStream)
            (Some 1))
  = [ApiText (lit "Hello")].
Proof. reflexivity. Qed.

(** A base URL that does not parse, and a request that is refused (C9). *)
Example models_of_bad_url :
  getLmStudioModels Runs.E (Some (lit "not a url")) = Normal []
  /\ getLmStudioModels Runs.E None = Normal [].
Proof. split; reflexivity. Qed.

(** ** The theorems at concrete inputs *)

(** C2 on a document of two tagged spans, the tags cut across deltas. *)
Lemma classifier_lossless_reclassification_witness :
  flat_map TagClassifier.chunkLabels
    (TagClassifier.emitted [lit "a<th"; lit "ink>b</thi"; lit "nk><think>c</think>d"])
  = TagClassifier.expected ([(lit "a", lit "b"); ([], lit "c")], lit "d").
Proof.
  exact (proj2 (classifier_lossless_reclassification
                  [lit "a<th"; lit "ink>b</thi"; lit "nk><think>c</think>d"])
           ([(lit "a", lit "b"); ([], lit "c")], lit "d") eq_refl eq_refl).
Defined.

(** C3 on a stream of two chunks cancelled after the first. *)
Lemma cancellation_truncates_witness :
  strict_prefix_of
    (events (createMessage Runs.E (lit "sys") []
               (Streaming Runs.helloWorld EndOfStream) (Some 1)))
    (events (createMessage Runs.E (lit "sys") []
               (Streaming Runs.helloWorld EndOfStream) None)).
Proof.
  exact (proj1 (proj2 (proj2
           (cancellation_truncates Runs.E (lit "sys") []
              [Runs.frameLine (Demo.contentFrame "Hello")]
              [Runs.frameLine (Demo.contentFrame " world")]
              [Runs.frameLine (Demo.contentFrame " world")]
              EndOfStream EndOfStream))) eq_refl).
Defined.

(** C4 on a stream that completes normally. *)
Lemma usage_last_and_only_on_completion_witness :
  exists before inputTokens outputTokens,
    events (createMessage Runs.E (lit "sys") [] (Runs.helloStream EndOfStream) None)
    = before ++ [ApiUsage inputTokens outputTokens]
    /\ noUsage before = true
    /\ outcome (createMessage Runs.E (lit "sys") [] (Runs.helloStream EndOfStream) None)
       = Returned.
Proof.
  exact (proj1 (usage_last_and_only_on_completion Runs.E (lit "sys") []
                  (Runs.helloStream EndOfStream) None) eq_refl).
Defined.

(** C7 on a run whose counter always throws. *)
Lemma counting_failure_is_not_fatal_witness :
  In ErrInputTokens
    (console (createMessage (Demo.externals Demo.countThrows) (lit "sys") []
                (Runs.helloStream EndOfStream) None))
  /\ (completesNormally (Runs.helloStream EndOfStream) None = true ->
      exists before outputTokens,
        events (createMessage (Demo.externals Demo.countThrows) (lit "sys") []
                  (Runs.helloStream EndOfStream) None)
        = before ++ [ApiUsage 0 outputTokens]).
Proof.
  exact (proj1 (proj2 (proj2 (proj2
           (counting_failure_is_not_fatal (Demo.externals Demo.countThrows)
              (lit "sys") [] (Runs.helloStream EndOfStream) None))))
           PlainError eq_refl).
Defined.

(** C9 on a request that is refused. *)
Lemma getLmStudioModels_never_throws_witness :
  getLmStudioModels Runs.E (Some (lit "http://localhost:1234")) = Normal [].
Proof.
  exact (proj1 (proj2 (proj2
           (getLmStudioModels_never_throws Runs.E (Some (lit "http://localhost:1234")))))
           Demo.NetworkError eq_refl).
Defined.

(** Handler-level chunk independence on the stream of two content frames,
    cut after the frames and cut inside them. *)
Lemma createMessage_chunk_boundary_independence_witness :
  createMessage Runs.E (lit "sys") [] (Streaming Runs.helloWorld EndOfStream) None
  = createMessage Runs.E (lit "sys") []
      (Streaming [firstn 30 (concat Runs.helloWorld); skipn 30 (concat Runs.helloWorld)]
         EndOfStream) None.
Proof.
  exact (createMessage_chunk_boundary_independence Runs.E (lit "sys") []
           Runs.helloWorld
           [firstn 30 (concat Runs.helloWorld); skipn 30 (concat Runs.helloWorld)]
           EndOfStream eq_refl).
Defined.

(* ================================================================== *)
(** * Further properties of the code *)
(* ================================================================== *)

(** ** Trimming and line ends *)

Lemma trimStart_split (s : jsstring) :
  exists w, s = w ++ trimStart s /\ forallb isWhiteSpace w = true.
Proof.
  induction s as [|c s [w [Hs Hw]]]; [now exists []|].
  cbn [trimStart]. destruct (isWhiteSpace c) eqn:Hc.
  - exists (c :: w). cbn [forallb app]. rewrite Hc, Hw, <- Hs. now split.
  - now exists [].
Qed.

Lemma trimStart_head (s : jsstring) :
  match trimStart s with [] => True | c :: _ => isWhiteSpace c = false end.
Proof.
  induction s as [|c s IH]; cbn [trimStart]; [exact I|].
  destruct (isWhiteSpace c) eqn:Hc; [exact IH|exact Hc].
Qed.

Lemma trimStart_idem (s : jsstring) : trimStart (trimStart s) = trimStart s.
Proof.
  pose proof (trimStart_head s) as H.
  destruct (trimStart s) as [|c t]; [reflexivity|]. cbn [trimStart]. now rewrite H.
Qed.

Lemma trimEnd_snoc (s : jsstring) (c : N) :
  trimEnd (s ++ [c]) = if isWhiteSpace c then trimEnd s else s ++ [c].
Proof.
  unfold trimEnd. rewrite rev_unit. cbn [trimStart].
  destruct (isWhiteSpace c); [reflexivity|]. cbn [rev]. now rewrite rev_involutive.
Qed.

Lemma trimEnd_idem (s : jsstring) : trimEnd (trimEnd s) = trimEnd s.
Proof. unfold trimEnd. now rewrite rev_involutive, trimStart_idem. Qed.

(** [trimEnd] takes white space away from the end only. *)
Lemma trimEnd_split (s : jsstring) : exists w, s = trimEnd s ++ w.
Proof.
  destruct (trimStart_split (rev s)) as [w [Hs _]].
  exists (rev w). unfold trimEnd. rewrite <- rev_app_distr, <- Hs.
  now rewrite rev_involutive.
Qed.

Lemma trim_idem (s : jsstring) : trim (trim s) = trim s.
Proof.
  unfold trim. pose proof (trimStart_head s) as Hh.
  destruct (trimEnd_split (trimStart s)) as [w Hw].
  assert (Hfix : trimStart (trimEnd (trimStart s)) = trimEnd (trimStart s)).
  { destruct (trimEnd (trimStart s)) as [|c t]; [reflexivity|].
    rewrite Hw in Hh. cbn [app] in Hh. cbn [trimStart]. now rewrite Hh. }
  now rewrite Hfix, trimEnd_idem.
Qed.

Lemma trimStart_snoc (s : jsstring) (c : N) :
  isWhiteSpace c = true ->
  trimStart (s ++ [c]) = trimStart s ++ [c]
  \/ (trimStart (s ++ [c]) = [] /\ trimStart s = []).
Proof.
  intros Hc. induction s as [|a s IH]; cbn [app trimStart].
  - right. now rewrite Hc.
  - destruct (isWhiteSpace a); [exact IH|now left].
Qed.

(** White space at the end of a string does not count. *)
Lemma trim_snoc (s : jsstring) (c : N) :
  isWhiteSpace c = true -> trim (s ++ [c]) = trim s.
Proof.
  intros Hc. unfold trim.
  destruct (trimStart_snoc s c Hc) as [-> | [-> ->]]; [|reflexivity].
  now rewrite trimEnd_snoc, Hc.
Qed.

Lemma startsWith_snoc (p l : jsstring) (c : N) :
  startsWith p (l ++ [c]) = startsWith p l \/ l ++ [c] = p.
Proof.
  revert l; induction p as [|x p IH]; intros l; [now left|].
  destruct l as [|y l]; cbn [app startsWith].
  - destruct (N.eqb x c) eqn:Hx; [|now left].
    apply N.eqb_eq in Hx. subst x. destruct p; [now right|now left].
  - destruct (N.eqb x y) eqn:Hx; [|now left].
    apply N.eqb_eq in Hx. subst x.
    destruct (IH l) as [->|Hl]; [now left|right; now rewrite <- Hl].
Qed.

Lemma cut_no_lf (s : jsstring) : ~ In LF s -> cut s = ([], s).
Proof.
  induction s as [|c s IH]; [reflexivity|].
  intros Hn. cbn [cut]. rewrite IH by (intros H; apply Hn; now right).
  destruct (N.eqb c LF) eqn:Hc; [|reflexivity].
  apply N.eqb_eq in Hc. exfalso. apply Hn. now left.
Qed.

Lemma snd_cut_no_lf (s : jsstring) : ~ In LF (snd (cut s)).
Proof.
  induction s as [|c s IH]; [intros []|].
  cbn [cut]. destruct (cut s) as [ls r]. cbn [snd] in IH.
  destruct (N.eqb c LF) eqn:Hc; [exact IH|].
  destruct ls as [|l ls]; [|exact IH].
  cbn [snd]. intros [H|H]; [|now apply IH].
  apply N.eqb_neq in Hc. congruence.
Qed.

(** The lines of a text sent with carriage returns. *)
Lemma cut_crlf (s : jsstring) :
  cut (crlf s) = (map (fun l => l ++ [CR]) (fst (cut s)), snd (cut s)).
Proof.
  induction s as [|c s IH]; [reflexivity|].
  cbn [crlf cut]. destruct (cut s) as [ls r]. cbn [fst snd] in IH.
  destruct (N.eqb c LF) eqn:Hc.
  - cbn [cut]. rewrite IH. reflexivity.
  - cbn [cut]. rewrite IH, Hc. destruct ls as [|l ls]; reflexivity.
Qed.

Module SSEMore.
Import SSEParser.

(** A payload of a line is the trimmed text after the prefix, not empty and
    not the sentinel. *)
Lemma frame_rule_payload (line data : jsstring) :
  In data (frame_rule line) ->
  data = trim (skipn 6 line) /\ data <> [] /\ data <> DONE.
Proof.
  unfold frame_rule. change (length DATA_PREFIX) with 6.
  destruct (startsWith DATA_PREFIX line); [|intros []].
  destruct (trim (skipn 6 line)) as [|c d] eqn:Ht; [intros []|].
  destruct (str_eqb (c :: d) DONE) eqn:Hd; [intros []|].
  intros [<-|[]]. repeat split; [discriminate|].
  intros H. rewrite H, str_eqb_refl in Hd. discriminate.
Qed.

(** White space at the end of a line does not change its payload. *)
Lemma frame_rule_snoc (line : jsstring) (c : N) :
  isWhiteSpace c = true -> frame_rule (line ++ [c]) = frame_rule line.
Proof.
  intros Hc. destruct (startsWith_snoc DATA_PREFIX line c) as [Hs|Hs].
  - unfold frame_rule. rewrite Hs.
    destruct (startsWith DATA_PREFIX line) eqn:Hp; [|reflexivity].
    destruct (startsWith_inv _ _ Hp) as [t ->].
    rewrite <- app_assoc. change (length DATA_PREFIX) with 6.
    change (skipn 6 (DATA_PREFIX ++ t ++ [c])) with (t ++ [c]).
    change (skipn 6 (DATA_PREFIX ++ t)) with t.
    now rewrite trim_snoc.
  - rewrite Hs. change DATA_PREFIX with (lit "data:" ++ [32%N]) in Hs.
    apply app_inj_tail in Hs as [-> _]. reflexivity.
Qed.

Lemma frame_rule_cr (lines : list jsstring) :
  flat_map frame_rule (map (fun l => l ++ [CR]) lines) = flat_map frame_rule lines.
Proof.
  induction lines as [|l lines IH]; [reflexivity|].
  cbn [map flat_map]. now rewrite IH, frame_rule_snoc.
Qed.

End SSEMore.

(** Every payload the parser hands to the handler, from [parse] or from
    [final], is a trimmed text that is neither empty nor the sentinel
    [[DONE]]. *)
Theorem sse_payloads_are_clean (chunks : list jsstring) (data : jsstring) :
  In data (SSEParser.demux chunks) ->
  data <> [] /\ data <> SSEParser.DONE /\ trim data = data.
Proof.
  rewrite SSEFacts.demux_payloads. unfold SSEParser.payloads.
  rewrite SSEFacts.final_rule. intros Hin.
  assert (Hline : exists line, In data (SSEParser.frame_rule line)).
  { apply in_app_or in Hin as [Hin|Hin]; [|eauto].
    apply in_flat_map in Hin as [line [_ Hin]]. eauto. }
  destruct Hline as [line Hline].
  apply SSEMore.frame_rule_payload in Hline as (Hd & Hne & Hdone).
  repeat split; try assumption. rewrite Hd. apply trim_idem.
Qed.

(** No payload leaves the parser before the line feed that ends its line
    has arrived: chunks without a line feed are kept in the buffer, in
    order, and [parse] returns nothing for them. *)
Theorem sse_nothing_before_line_feed (p : SSEParser.t) (chunks : list jsstring) :
  ~ In LF (SSEParser.buffer p) ->
  (forall chunk, In chunk chunks -> ~ In LF chunk) ->
  SSEParser.feed p chunks
  = ([], {| SSEParser.buffer := SSEParser.buffer p ++ concat chunks |}).
Proof.
  intros Hp Hchunks.
  rewrite SSEFacts.feed_cut by now apply cut_no_lf.
  rewrite cut_no_lf; [reflexivity|].
  intros Hin. apply in_app_or in Hin as [Hin|Hin]; [now apply Hp|].
  apply in_concat in Hin as [chunk [Hc Hin]]. now apply (Hchunks chunk).
Qed.

(** The parser is incremental: its buffer never holds a line feed after a
    call of [parse], and feeding chunks one by one returns the payloads, and
    leaves the buffer, of one call of [parse] on their concatenation. *)
Theorem sse_feed_is_one_parse (p : SSEParser.t) (chunks : list jsstring) :
  ~ In LF (SSEParser.buffer p) ->
  SSEParser.feed p chunks = SSEParser.parse p (concat chunks)
  /\ ~ In LF (SSEParser.buffer (snd (SSEParser.feed p chunks)))
  /\ forall chunk, ~ In LF (SSEParser.buffer (snd (SSEParser.parse p chunk))).
Proof.
  intros Hp. rewrite SSEFacts.feed_cut by now apply cut_no_lf.
  rewrite SSEFacts.parse_cut. repeat split.
  - apply snd_cut_no_lf.
  - intros chunk. rewrite SSEFacts.parse_cut. apply snd_cut_no_lf.
Qed.

(** Carriage returns before the line feeds change nothing: a stream sent
    with CR LF line ends carries the payloads of the stream sent with LF
    line ends, however both are cut into chunks. *)
Theorem sse_crlf_line_ends (chunks chunks' : list jsstring) :
  concat chunks' = crlf (concat chunks) ->
  SSEParser.demux chunks' = SSEParser.demux chunks.
Proof.
  intros H. rewrite !SSEFacts.demux_payloads, H. unfold SSEParser.payloads.
  rewrite cut_crlf. cbn [fst snd]. now rewrite SSEMore.frame_rule_cr.
Qed.

Lemma sse_payloads_are_clean_witness :
  lit "x" <> [] /\ lit "x" <> SSEParser.DONE /\ trim (lit "x") = lit "x".
Proof.
  apply (sse_payloads_are_clean [lit "data:"; lit "  x  "; [LF]] (lit "x")).
  vm_compute. now left.
Defined.

Lemma sse_nothing_before_line_feed_witness :
  SSEParser.feed SSEParser.init [lit "data: {"; lit "}"]
  = ([], {| SSEParser.buffer := lit "data: {}" |}).
Proof.
  apply (sse_nothing_before_line_feed SSEParser.init [lit "data: {"; lit "}"]).
  - intros [].
  - intros chunk [<-|[<-|[]]]; vm_compute; intuition discriminate.
Defined.

Lemma sse_feed_is_one_parse_witness :
  let chunks := [lit "data: a"; LF :: lit "da"; lit "ta: b"] in
  let p := {| SSEParser.buffer := lit "x" |} in
  SSEParser.feed p chunks = SSEParser.parse p (concat chunks)
  /\ ~ In LF (SSEParser.buffer (snd (SSEParser.feed p chunks)))
  /\ forall chunk, ~ In LF (SSEParser.buffer (snd (SSEParser.parse p chunk))).
Proof.
  apply (sse_feed_is_one_parse {| SSEParser.buffer := lit "x" |}
           [lit "data: a"; LF :: lit "da"; lit "ta: b"]).
  vm_compute. intuition discriminate.
Defined.

Lemma sse_crlf_line_ends_witness :
  SSEParser.demux [lit "data: a" ++ [CR]; LF :: lit "data: b" ++ [CR; LF]]
  = SSEParser.demux [lit "data: a" ++ [LF] ++ lit "data: b" ++ [LF]].
Proof.
  exact (sse_crlf_line_ends [lit "data: a" ++ [LF] ++ lit "data: b" ++ [LF]]
           [lit "data: a" ++ [CR]; LF :: lit "data: b" ++ [CR; LF]] eq_refl).
Defined.

(** ** Inside a frame *)

Section HandlerMore.

Variable E : Externals.

Lemma processData_steps (st : Proc E) (data : jsstring) (parsed choices : value) :
  JSON_parse E data = Normal parsed ->
  getProp parsed (lit "choices") = Normal choices ->
  processData st data
  = let choice := optIndex0 choices in
    let delta := optProp choice (lit "delta") in
    let '(st1, out1, threw1) := contentStep st delta in
    if threw1 then (st1, out1, [ErrParse data])
    else
      let '(st2, out2, threw) := toolCallsStep st1 delta in
      if threw then (st2, out1 ++ out2, [ErrParse data])
      else
        let (st3, out3) := finishStep st2 (optProp choice (lit "finish_reason")) in
        (st3, out1 ++ out2 ++ out3, []).
Proof. unfold processData. now intros -> ->. Qed.

(** The content step when the conversion of the content throws, and when
    it does not. *)
Lemma contentStep_throws (st : Proc E) (delta : value) :
  contentThrows E delta = true -> contentStep st delta = (st, [], true).
Proof.
  unfold contentThrows, contentStep. destruct (truthy _); [|discriminate].
  now destruct (ToString E _).
Qed.

Lemma contentStep_returns (st : Proc E) (delta : value) :
  contentThrows E delta = false -> snd (contentStep st delta) = false.
Proof.
  unfold contentThrows, contentStep. destruct (truthy _); [|reflexivity].
  destruct (ToString E _) as [s|e]; [|discriminate].
  now destruct (matcher_update _ _ _).
Qed.

(** The loop over the tool calls: entries that are objects give one chunk
    each; the first [null] entry stops it with a throw. *)
Lemma toolCallsLoop_partials (entries : list value) (t : Tracker E) :
  forallb (fun v => negb (nullish v)) entries = true ->
  toolCallsLoop E t entries
  = (yieldAll E (map partialOf entries) t, map partialOf entries, false).
Proof.
  revert t; induction entries as [|v entries IH]; intros t H; [reflexivity|].
  cbn [forallb] in H. apply andb_true_iff in H as [Hv H].
  apply negb_true_iff in Hv. cbn [toolCallsLoop]. rewrite Hv. cbv zeta.
  fold (partialOf v). now rewrite (IH _ H).
Qed.

Lemma toolCallsLoop_null (pre post : list value) (bad : value) (t : Tracker E) :
  forallb (fun v => negb (nullish v)) pre = true ->
  nullish bad = true ->
  toolCallsLoop E t (pre ++ bad :: post)
  = (yieldAll E (map partialOf pre) t, map partialOf pre, true).
Proof.
  intros H Hbad. revert t H; induction pre as [|v pre IH]; intros t H.
  - cbn [app toolCallsLoop]. now rewrite Hbad.
  - cbn [forallb] in H. apply andb_true_iff in H as [Hv H].
    apply negb_true_iff in Hv. cbn [app toolCallsLoop]. rewrite Hv. cbv zeta.
    fold (partialOf v). now rewrite (IH _ H).
Qed.

Lemma toolCallsLoop_kind (entries : list value) (t : Tracker E) :
  forallb isPartial (snd (fst (toolCallsLoop E t entries))) = true.
Proof.
  revert t; induction entries as [|v entries IH]; intros t; [reflexivity|].
  cbn [toolCallsLoop]. destruct (nullish v); [reflexivity|]. cbv zeta.
  specialize (IH (onYield E t (partialOf v))). fold (partialOf v).
  destruct (toolCallsLoop E _ entries) as [[t1 out] threw]. exact IH.
Qed.

Lemma toolCallsStep_kind (st : Proc E) (delta : value) :
  forallb isPartial (snd (fst (toolCallsStep st delta))) = true.
Proof.
  unfold toolCallsStep. destruct (truthy _); [|reflexivity].
  destruct (iterate _) as [toolCalls|e]; [|reflexivity].
  pose proof (toolCallsLoop_kind toolCalls (p_tracker st)) as H.
  destruct (toolCallsLoop E _ toolCalls) as [[t out] threw]. exact H.
Qed.

Lemma finishStep_kind (st : Proc E) (reason : value) :
  forallb isEnd (snd (finishStep st reason)) = true.
Proof.
  unfold finishStep. destruct (truthy _); [|reflexivity].
  destruct (processFinishReason _ _ _) as [ids t]. cbn [snd].
  now induction ids.
Qed.

(** What the content step does to the tool-call parser and to the text. *)
Lemma contentStep_tracker (st : Proc E) (delta : value) :
  p_tracker (fst (fst (contentStep st delta)))
  = yieldAll E (snd (fst (contentStep st delta))) (p_tracker st).
Proof.
  unfold contentStep. destruct (truthy _); [|reflexivity].
  destruct (ToString E _) as [s|e]; [|reflexivity].
  now destruct (matcher_update _ _ _).
Qed.

Lemma yieldAll_app (a b : list ApiStreamChunk) (t : Tracker E) :
  yieldAll E (a ++ b) t = yieldAll E b (yieldAll E a t).
Proof. apply fold_left_app. Qed.

(** Within a frame the chunks come in a fixed order: the text and
    reasoning chunks of its content, then one partial chunk per tool call,
    then the end markers of its finish reason. *)
Theorem frame_events_in_order (st : Proc E) (data : jsstring) :
  exists texts partials ends,
    snd (fst (processData st data)) = texts ++ partials ++ ends
    /\ forallb isTextOrReasoning texts = true
    /\ forallb isPartial partials = true
    /\ forallb isEnd ends = true.
Proof.
  unfold processData.
  destruct (JSON_parse E data) as [parsed|e]; [|now exists [], [], []].
  destruct (getProp parsed _) as [choices|e]; [|now exists [], [], []].
  set (delta := optProp (optIndex0 choices) (lit "delta")).
  pose proof (contentStep_kind E st delta) as H1.
  destruct (contentStep st delta) as [[st1 out1] threw1].
  cbn [fst snd] in H1.
  destruct threw1; [exists out1, [], []; cbn [fst snd]; now rewrite app_nil_r|].
  pose proof (toolCallsStep_kind st1 delta) as H2.
  destruct (toolCallsStep st1 delta) as [[st2 out2] threw].
  cbn [fst snd] in H2. destruct threw.
  - exists out1, out2, []. cbn [fst snd]. now rewrite app_nil_r.
  - pose proof (finishStep_kind st2
                  (optProp (optIndex0 choices) (lit "finish_reason"))) as H3.
    destruct (finishStep st2 _) as [st3 out3]. now exists out1, out2, out3.
Qed.

(** A frame whose content converts to a string (or is absent) and whose
    tool calls are all objects yields one partial chunk per entry, in the
    order of the entries and with the entry's [index], [id],
    [function.name] and [function.arguments], between the chunks of its
    content and the end markers of its finish reason, and logs nothing. *)
Theorem tool_calls_yield_one_partial_each (st : Proc E) (data : jsstring)
  (parsed choices : value) (entries : list value) :
  JSON_parse E data = Normal parsed ->
  getProp parsed (lit "choices") = Normal choices ->
  contentThrows E (optProp (optIndex0 choices) (lit "delta")) = false ->
  truthy (optProp (optProp (optIndex0 choices) (lit "delta")) (lit "tool_calls")) = true ->
  iterate (optProp (optProp (optIndex0 choices) (lit "delta")) (lit "tool_calls"))
  = Normal entries ->
  forallb (fun v => negb (nullish v)) entries = true ->
  exists texts ends,
    snd (fst (processData st data)) = texts ++ map partialOf entries ++ ends
    /\ snd (processData st data) = []
    /\ forallb isTextOrReasoning texts = true
    /\ forallb isEnd ends = true.
Proof.
  intros Hparse Hchoices Hcontent Htruthy Hiter Hentries.
  rewrite (processData_steps st data parsed choices Hparse Hchoices). cbv zeta.
  set (choice := optIndex0 choices) in *.
  set (delta := optProp choice (lit "delta")) in *.
  pose proof (contentStep_kind E st delta) as H1.
  pose proof (contentStep_returns st delta Hcontent) as Hr.
  destruct (contentStep st delta) as [[st1 out1] threw1]. cbn [fst snd] in H1, Hr.
  subst threw1.
  unfold toolCallsStep. rewrite Htruthy, Hiter.
  rewrite (toolCallsLoop_partials entries (p_tracker st1) Hentries).
  pose proof (finishStep_kind
                {| p_matcher := p_matcher st1; p_text := p_text st1;
                   p_tracker := yieldAll E (map partialOf entries) (p_tracker st1) |}
                (optProp choice (lit "finish_reason"))) as H3.
  destruct (finishStep _ _) as [st3 out3]. cbn [fst snd] in *.
  now exists out1, out3.
Qed.

(** A [null] among the tool calls of a frame whose content converts to a
    string (or is absent) ends the frame there: the chunks of the content
    and of the entries before it are yielded, the entries after it are not
    looked at, the finish reason of the frame is not handled (the tool-call
    parser sees the yielded chunks and nothing else), and the payload is
    logged as one that failed to parse. *)
Theorem null_tool_call_ends_the_frame (st : Proc E) (data : jsstring)
  (parsed choices : value) (pre post : list value) (bad : value) :
  JSON_parse E data = Normal parsed ->
  getProp parsed (lit "choices") = Normal choices ->
  contentThrows E (optProp (optIndex0 choices) (lit "delta")) = false ->
  optProp (optProp (optIndex0 choices) (lit "delta")) (lit "tool_calls")
  = VArr (pre ++ bad :: post) ->
  forallb (fun v => negb (nullish v)) pre = true ->
  nullish bad = true ->
  exists texts,
    snd (fst (processData st data)) = texts ++ map partialOf pre
    /\ forallb isTextOrReasoning texts = true
    /\ snd (processData st data) = [ErrParse data]
    /\ p_tracker (fst (fst (processData st data)))
       = yieldAll E (texts ++ map partialOf pre) (p_tracker st).
Proof.
  intros Hparse Hchoices Hcontent Hcalls Hpre Hbad.
  rewrite (processData_steps st data parsed choices Hparse Hchoices). cbv zeta.
  set (delta := optProp (optIndex0 choices) (lit "delta")) in *.
  pose proof (contentStep_kind E st delta) as H1.
  pose proof (contentStep_tracker st delta) as Ht.
  pose proof (contentStep_returns st delta Hcontent) as Hr.
  destruct (contentStep st delta) as [[st1 out1] threw1].
  cbn [fst snd] in H1, Ht, Hr. subst threw1.
  unfold toolCallsStep. rewrite Hcalls. cbn [truthy iterate].
  rewrite (toolCallsLoop_null pre post bad (p_tracker st1) Hpre Hbad).
  cbn [fst snd p_tracker]. exists out1. repeat split; try assumption.
  now rewrite yieldAll_app, Ht.
Qed.

(** A frame whose content cannot be converted to a string (an object with
    a property [toString] of its own, or an array that holds one) is
    skipped as a whole: the conversion of line 222 throws before anything
    is yielded, so the frame yields nothing, not even for its tool calls
    and its finish reason, leaves the text, the matcher and the tool-call
    parser as they were, and is logged as a payload that failed to parse. *)
Theorem unconvertible_content_skips_the_frame (st : Proc E) (data : jsstring)
  (parsed choices : value) :
  JSON_parse E data = Normal parsed ->
  getProp parsed (lit "choices") = Normal choices ->
  contentThrows E (optProp (optIndex0 choices) (lit "delta")) = true ->
  processData st data = (st, [], [ErrParse data])
  /\ processFinalData st data = (st, [], []).
Proof.
  intros Hparse Hchoices Hcontent.
  rewrite (processData_steps st data parsed choices Hparse Hchoices). cbv zeta.
  unfold processFinalData. rewrite Hparse, Hchoices.
  now rewrite (contentStep_throws st _ Hcontent).
Qed.

(** ** The text of a run *)

Lemma contentStep_text (st : Proc E) (delta : value) :
  p_text (fst (fst (contentStep st delta)))
  = p_text st
    ++ (if truthy (optProp delta (lit "content"))
        then match ToString E (optProp delta (lit "content")) with
             | Normal s => s
             | Throw _ => []
             end
        else []).
Proof.
  unfold contentStep. destruct (truthy _); [|now rewrite app_nil_r].
  destruct (ToString E _) as [s|e]; [|now rewrite app_nil_r].
  now destruct (matcher_update _ _ _).
Qed.

Lemma toolCallsStep_text (st : Proc E) (delta : value) :
  p_text (fst (fst (toolCallsStep st delta))) = p_text st.
Proof.
  unfold toolCallsStep. destruct (truthy _); [|reflexivity].
  destruct (iterate _) as [toolCalls|e]; [|reflexivity].
  now destruct (toolCallsLoop E _ toolCalls) as [[t out] threw].
Qed.

Lemma finishStep_text (st : Proc E) (reason : value) :
  p_text (fst (finishStep st reason)) = p_text st.
Proof.
  unfold finishStep. destruct (truthy _); [|reflexivity].
  now destruct (processFinishReason _ _ _).
Qed.

Lemma processData_text (st : Proc E) (data : jsstring) :
  p_text (fst (fst (processData st data))) = p_text st ++ contentOf E data.
Proof.
  unfold processData, contentOf.
  destruct (JSON_parse E data) as [parsed|e]; [|now rewrite app_nil_r].
  destruct (getProp parsed _) as [choices|e]; [|now rewrite app_nil_r].
  set (delta := optProp (optIndex0 choices) (lit "delta")).
  pose proof (contentStep_text st delta) as H1.
  destruct (contentStep st delta) as [[st1 out1] threw1].
  cbn [fst snd] in H1. destruct threw1; [exact H1|].
  pose proof (toolCallsStep_text st1 delta) as H2.
  destruct (toolCallsStep st1 delta) as [[st2 out2] threw].
  cbn [fst snd] in H2. destruct threw; cbn [fst]; [rewrite H2; exact H1|].
  pose proof (finishStep_text st2
                (optProp (optIndex0 choices) (lit "finish_reason"))) as H3.
  destruct (finishStep st2 _) as [st3 out3]. cbn [fst] in *. rewrite H3, H2. exact H1.
Qed.

Lemma processFinalData_text (st : Proc E) (data : jsstring) :
  p_text (fst (fst (processFinalData st data))) = p_text st ++ contentOf E data.
Proof.
  unfold processFinalData, contentOf.
  destruct (JSON_parse E data) as [parsed|e]; [|now rewrite app_nil_r].
  destruct (getProp parsed _) as [choices|e]; [|now rewrite app_nil_r].
  pose proof (contentStep_text st (optProp (optIndex0 choices) (lit "delta"))) as H1.
  now destruct (contentStep st _) as [[st1 out1] threw1].
Qed.

Lemma forEachData_text
  (body : Proc E -> jsstring -> Proc E * list ApiStreamChunk * list ConsoleEntry) :
  (forall st data, p_text (fst (fst (body st data))) = p_text st ++ contentOf E data) ->
  forall dataChunks st,
    p_text (fst (fst (forEachData body st dataChunks)))
    = p_text st ++ concat (map (contentOf E) dataChunks).
Proof.
  intros Hbody. induction dataChunks as [|d ds IH]; intros st;
    cbn [forEachData map concat]; [now rewrite app_nil_r|].
  specialize (Hbody st d). destruct (body st d) as [[st1 out1] log1].
  specialize (IH st1). destruct (forEachData body st1 ds) as [[st2 out2] log2].
  cbn [fst] in *. now rewrite IH, Hbody, app_assoc.
Qed.

Lemma flushPhase_text (sse : SSEParser.t) (st : Proc E) :
  p_text (fst (flushPhase sse st))
  = p_text st ++ concat (map (contentOf E) (SSEParser.final sse)).
Proof.
  unfold flushPhase.
  pose proof (forEachData_text _ processFinalData_text (SSEParser.final sse) st) as H.
  now destruct (forEachData _ st _) as [[st1 out1] log1].
Qed.

(** The text of a run that completes is the content of the first choice's
    delta of every payload of the stream, as a string and in order, whatever
    the matcher makes of it and whatever else the frame holds or fails on;
    the output tokens of the usage chunk, the last chunk, are counted on
    that text. *)
Theorem assistant_text_is_the_content (sys : jsstring) (msgs : list MessageParam)
  (chunks : list jsstring) :
  let r := createMessage E sys msgs (Streaming chunks EndOfStream) None in
  text r = concat (map (contentOf E) (SSEParser.demux chunks))
  /\ exists inputTokens,
       last (events r) (ApiText [])
       = ApiUsage inputTokens (fst (countOrZero E [TextBlock (text r)] ErrOutputTokens)).
Proof.
  cbv zeta. rewrite createMessage_text. cbv zeta.
  rewrite SSEFacts.demux_payloads. unfold SSEParser.payloads.
  pose proof (forEachData_text _ processData_text
                (flat_map SSEParser.frame_rule (fst (cut (concat chunks))))
                (startProc E)) as H.
  destruct (forEachData _ (startProc E) _) as [[st out] log1].
  cbn [fst startProc p_text app] in H.
  rewrite afterLoop_completed by reflexivity. cbn [text events].
  rewrite flushPhase_text, H, map_app, concat_app. split; [reflexivity|].
  eexists. now rewrite !app_assoc, last_last.
Qed.

Lemma catchClause_text (abort : option nat) (reads : nat) (error : JsError)
  (st : Proc E) (out : list ApiStreamChunk) (log : list ConsoleEntry) :
  text (catchClause abort reads error st out log) = p_text st.
Proof.
  unfold catchClause.
  destruct (_ || _); [reflexivity|].
  destruct (err_code error) as [code|]; [|reflexivity].
  destruct (str_eqb code (lit "ECONNABORTED")); [reflexivity|].
  destruct (str_eqb code (lit "ERR_STREAM_DESTROYED")); reflexivity.
Qed.

(** A stream that fails after its chunks yields exactly the chunks of the
    loop over its chunks and accumulates the text of the loop; the stream
    that ends without an error yields the same chunks, then the chunks of
    the flush, then the usage chunk, which counts the input blocks and the
    text of the run, and its text is the text of the failed run followed by
    the content of the payload on the last, unterminated line. *)
Theorem failed_run_is_prefix_of_completed_run (sys : jsstring)
  (msgs : list MessageParam) (chunks : list jsstring) (error : JsError) :
  let loop := streamLoop None 0 SSEParser.init (startProc E) chunks in
  let failed := createMessage E sys msgs (Streaming chunks (StreamError error)) None in
  let completed := createMessage E sys msgs (Streaming chunks EndOfStream) None in
  events failed = l_events loop
  /\ text failed = p_text (l_state loop)
  /\ events completed
     = events failed ++ snd (flushPhase (l_sse loop) (l_state loop))
       ++ [ApiUsage (fst (countOrZero E (inputBlocks sys msgs) ErrInputTokens))
             (fst (countOrZero E [TextBlock (text completed)] ErrOutputTokens))]
  /\ text completed
     = text failed ++ concat (map (contentOf E) (SSEParser.final (l_sse loop))).
Proof.
  cbv zeta.
  rewrite !(createMessage_not_cancelled E sys msgs chunks _ None eq_refl). cbv zeta.
  rewrite catchClause_events, catchClause_text.
  rewrite afterLoop_completed by reflexivity. cbn [events text].
  rewrite flushPhase_text. repeat split.
Qed.

(** An error the catch clause takes for a cancellation ends the run
    silently, whether or not the abort signal is set: the generator returns,
    and no usage chunk is yielded. *)
Theorem cancellation_error_ends_silently (sys : jsstring) (msgs : list MessageParam)
  (response : Response) (error : JsError) (abort : option nat) :
  failureOf response = Some error ->
  looksCancelled error = true ->
  outcome (createMessage E sys msgs response abort) = Returned
  /\ noUsage (events (createMessage E sys msgs response abort)) = true.
Proof.
  intros Hf Hc.
  assert (Hcatch : forall reads (st : Proc E) out log,
            catchClause abort reads error st out log
            = {| events := out; outcome := Returned; console := log ++ [LogCancelled];
                 text := p_text st |}).
  { intros reads st out log. unfold catchClause. unfold looksCancelled in Hc.
    now rewrite Hc. }
  destruct response as [e| |chunks [|e]]; cbn [failureOf] in Hf; try discriminate;
    injection Hf as <-.
  - unfold createMessage. destruct (countOrZero E _ _). now rewrite Hcatch.
  - unfold createMessage. destruct (countOrZero E _ _). now rewrite Hcatch.
  - destruct (aborted abort (length chunks)) eqn:Ha.
    + destruct (createMessage_cancelled E sys msgs chunks (StreamError e) abort Ha)
        as [-> ->].
      split; [reflexivity|apply streamLoop_noUsage].
    + rewrite (createMessage_not_cancelled E sys msgs chunks (StreamError e) abort Ha).
      cbv zeta. rewrite Hcatch. cbn [outcome events].
      split; [reflexivity|apply streamLoop_noUsage].
Qed.

(** ** Lines that carry no payload *)

(** A line that carries no payload (an empty line, a comment, another
    field, a [data:] line that is empty or holds the sentinel [[DONE]])
    changes nothing at all: the run on the stream with the line is the run
    on the stream without it.  In particular the sentinel does not end the
    stream: the frames after it are handled. *)
Theorem line_without_payload_is_ignored (sys : jsstring) (msgs : list MessageParam)
  (chunks chunks' : list jsstring) (before line after : jsstring)
  (ending : StreamEnd) :
  snd (cut before) = [] ->
  ~ In LF line ->
  SSEParser.frame_rule line = [] ->
  concat chunks = before ++ line ++ LF :: after ->
  concat chunks' = before ++ after ->
  createMessage E sys msgs (Streaming chunks ending) None
  = createMessage E sys msgs (Streaming chunks' ending) None.
Proof.
  intros Hbefore Hline Hrule Hchunks Hchunks'.
  rewrite !createMessage_text, Hchunks, Hchunks'. cbv zeta.
  rewrite (cut_app before (line ++ LF :: after)), (cut_app before after), Hbefore.
  cbn [app fst snd]. rewrite (cut_line line after (cut_no_lf line Hline)).
  cbn [fst snd]. rewrite !flat_map_app. cbn [flat_map]. rewrite Hrule.
  reflexivity.
Qed.

(** The run on a stream sent with CR LF line ends is the run on the stream
    sent with LF line ends. *)
Theorem createMessage_crlf_line_ends (sys : jsstring) (msgs : list MessageParam)
  (chunks chunks' : list jsstring) (ending : StreamEnd) :
  concat chunks' = crlf (concat chunks) ->
  createMessage E sys msgs (Streaming chunks' ending) None
  = createMessage E sys msgs (Streaming chunks ending) None.
Proof.
  intros H. rewrite !createMessage_text, H, cut_crlf. cbn [fst snd].
  now rewrite SSEMore.frame_rule_cr.
Qed.

End HandlerMore.

(** ** Examples of these properties *)

(** The frame of a partial tool call. *)
Lemma tool_calls_yield_one_partial_each_witness :
  exists texts ends,
    snd (fst (processData (startProc Runs.E) Demo.partialFrame))
    = texts ++ map partialOf [Demo.toolCallValue] ++ ends
    /\ snd (processData (startProc Runs.E) Demo.partialFrame) = []
    /\ forallb isTextOrReasoning texts = true
    /\ forallb isEnd ends = true.
Proof.
  exact (tool_calls_yield_one_partial_each Runs.E (startProc Runs.E) Demo.partialFrame
           Demo.partialValue
           (VArr [VObj [(lit "delta",
                         VObj [(lit "tool_calls", VArr [Demo.toolCallValue])])]])
           [Demo.toolCallValue] eq_refl eq_refl eq_refl eq_refl eq_refl eq_refl).
Defined.

(** A frame whose second tool call is [null]: the first is yielded, the
    finish reason is lost. *)
Lemma null_tool_call_ends_the_frame_witness :
  exists texts,
    snd (fst (processData (startProc Samples.E) Samples.nullEntryFrame))
    = texts ++ map partialOf [Demo.toolCallValue]
    /\ forallb isTextOrReasoning texts = true
    /\ snd (processData (startProc Samples.E) Samples.nullEntryFrame)
       = [ErrParse Samples.nullEntryFrame]
    /\ p_tracker (fst (fst (processData (startProc Samples.E) Samples.nullEntryFrame)))
       = yieldAll Samples.E (texts ++ map partialOf [Demo.toolCallValue])
           (p_tracker (startProc Samples.E)).
Proof.
  exact (null_tool_call_ends_the_frame Samples.E (startProc Samples.E)
           Samples.nullEntryFrame Samples.nullEntryValue
           (VArr [VObj [(lit "delta",
                         VObj [(lit "tool_calls", VArr [Demo.toolCallValue; VNull])]);
                        (lit "finish_reason", VStr (lit "tool_calls"))]])
           [Demo.toolCallValue] [] VNull
           eq_refl eq_refl eq_refl eq_refl eq_refl eq_refl).
Defined.

(** A frame whose content is the object [{"toString":1}], with a tool call
    and a finish reason: nothing is yielded for it. *)
Lemma unconvertible_content_skips_the_frame_witness :
  processData (startProc Samples.E) Samples.oddContentFrame
  = (startProc Samples.E, [], [ErrParse Samples.oddContentFrame])
  /\ processFinalData (startProc Samples.E) Samples.oddContentFrame
     = (startProc Samples.E, [], []).
Proof.
  exact (unconvertible_content_skips_the_frame Samples.E (startProc Samples.E)
           Samples.oddContentFrame Samples.oddContentValue
           (VArr [VObj [(lit "delta",
                         VObj [(lit "content", VObj [(lit "toString", VNum (S754_finite false 1 0))]);
                               (lit "tool_calls", VArr [Demo.toolCallValue])]);
                        (lit "finish_reason", VStr (lit "tool_calls"))]])
           eq_refl eq_refl eq_refl).
Defined.

(** A request that axios cancels, and a stream that ends with that error
    after a frame. *)
Lemma cancellation_error_ends_silently_witness :
  outcome (createMessage Runs.E (lit "sys") []
             (Runs.toolStream (StreamError Samples.Cancelled)) None) = Returned
  /\ noUsage (events (createMessage Runs.E (lit "sys") []
                        (Runs.toolStream (StreamError Samples.Cancelled)) None)) = true.
Proof.
  exact (cancellation_error_ends_silently Runs.E (lit "sys") []
           (Runs.toolStream (StreamError Samples.Cancelled)) Samples.Cancelled None
           eq_refl eq_refl).
Defined.

(** The sentinel between two frames: the frame after it is handled. *)
Lemma line_without_payload_is_ignored_witness :
  createMessage Runs.E (lit "sys") []
    (Streaming [Runs.frameLine (Demo.contentFrame "Hello");
                lit "data: [DONE]" ++ [LF];
                Runs.frameLine (Demo.contentFrame " world")] EndOfStream) None
  = createMessage Runs.E (lit "sys") [] (Streaming Runs.helloWorld EndOfStream) None.
Proof.
  apply (line_without_payload_is_ignored Runs.E (lit "sys") []
           [Runs.frameLine (Demo.contentFrame "Hello");
            lit "data: [DONE]" ++ [LF];
            Runs.frameLine (Demo.contentFrame " world")]
           Runs.helloWorld
           (Runs.frameLine (Demo.contentFrame "Hello"))
           (lit "data: [DONE]")
           (Runs.frameLine (Demo.contentFrame " world"))
           EndOfStream); try reflexivity.
  vm_compute. intuition discriminate.
Defined.

(** The stream of two content frames, sent with CR LF line ends. *)
Lemma createMessage_crlf_line_ends_witness :
  createMessage Runs.E (lit "sys") []
    (Streaming [crlf (concat Runs.helloWorld)] EndOfStream) None
  = createMessage Runs.E (lit "sys") [] (Streaming Runs.helloWorld EndOfStream) None.
Proof.
  exact (createMessage_crlf_line_ends Runs.E (lit "sys") [] Runs.helloWorld
           [crlf (concat Runs.helloWorld)] EndOfStream eq_refl).
Defined.

(** ** The prompt that is counted *)

Lemma textParts_acc (parts result : list ContentBlockParam) :
  fold_left
    (fun result part =>
       match part with
       | TextBlock t => result ++ [TextBlock t]
       | OtherBlock _ => result
       end) parts result
  = result
    ++ fold_left
         (fun result part =>
            match part with
            | TextBlock t => result ++ [TextBlock t]
            | OtherBlock _ => result
            end) parts [].
Proof.
  revert result; induction parts as [|part parts IH]; intros result; cbn [fold_left].
  - now rewrite app_nil_r.
  - destruct part as [t|ty]; [|apply IH].
    rewrite IH, (IH ([] ++ [TextBlock t])). now rewrite <- !app_assoc.
Qed.

Lemma textParts_kind (parts : list ContentBlockParam) :
  Forall (fun block => exists t, block = TextBlock t)
    (fold_left
       (fun result part =>
          match part with
          | TextBlock t => result ++ [TextBlock t]
          | OtherBlock _ => result
          end) parts []).
Proof.
  induction parts as [|part parts IH]; cbn [fold_left]; [constructor|].
  destruct part as [t|ty]; [|exact IH].
  rewrite textParts_acc. apply Forall_app. split; [|exact IH].
  constructor; [now exists t|constructor].
Qed.

Lemma toContentBlocks_acc (msgs : list MessageParam) (result : list ContentBlockParam) :
  fold_left
    (fun result msg =>
       match content msg with
       | ContentString s => result ++ [TextBlock s]
       | ContentBlocks parts =>
           fold_left
             (fun result part =>
                match part with
                | TextBlock t => result ++ [TextBlock t]
                | OtherBlock _ => result
                end) parts result
       end) msgs result
  = result ++ toContentBlocks (inl msgs).
Proof.
  unfold toContentBlocks.
  revert result; induction msgs as [|msg msgs IH]; intros result; cbn [fold_left].
  - now rewrite app_nil_r.
  - rewrite IH. symmetry. rewrite IH. symmetry.
    destruct (content msg) as [s|parts].
    + now rewrite <- !app_assoc.
    + rewrite textParts_acc, (textParts_acc parts []). now rewrite <- !app_assoc.
Qed.

(** Only text is counted as input: every block [toContentBlocks] returns
    is a text block (images, tool uses and tool results are dropped), and
    the blocks of a conversation are the blocks of its messages, in order. *)
Theorem toContentBlocks_keeps_text_in_order :
  (forall blocks, Forall (fun block => exists t, block = TextBlock t)
                    (toContentBlocks blocks))
  /\ (forall a b, toContentBlocks (inl (a ++ b))
                  = toContentBlocks (inl a) ++ toContentBlocks (inl b))
  /\ (forall r s, toContentBlocks (inl [{| role := r; content := ContentString s |}])
                  = toContentBlocks (inr s))
  /\ (forall r parts,
        toContentBlocks (inl [{| role := r; content := ContentBlocks parts |}])
        = filter (fun part => match part with TextBlock _ => true | OtherBlock _ => false end)
            parts).
Proof.
  split; [|split; [|split]].
  - intros [msgs|s]; [|constructor; [now exists s|constructor]].
    induction msgs as [|msg msgs IH]; [constructor|].
    change (msg :: msgs) with ([msg] ++ msgs).
    unfold toContentBlocks at 1. rewrite fold_left_app, toContentBlocks_acc.
    apply Forall_app. split; [|exact IH]. cbn [fold_left].
    destruct (content msg) as [s|parts]; [|apply textParts_kind].
    constructor; [now exists s|constructor].
  - intros a b. unfold toContentBlocks at 1.
    now rewrite fold_left_app, toContentBlocks_acc.
  - reflexivity.
  - intros r parts. cbn [toContentBlocks fold_left content].
    induction parts as [|part parts IH]; [reflexivity|].
    cbn [fold_left filter]. destruct part as [t|ty]; [|exact IH].
    rewrite textParts_acc, IH. reflexivity.
Qed.

(** ** The list of models *)

Lemma sameValueZero_setKey_l (v u : value) :
  sameValueZero (setKey v) u = sameValueZero v u.
Proof.
  destruct v as [| |b|x|t|l|o]; try reflexivity.
  destruct x as [[|]| | |]; reflexivity.
Qed.

Lemma sameValueZero_setKey_r (u v : value) :
  sameValueZero u (setKey v) = sameValueZero u v.
Proof.
  destruct v as [| |b|x|t|l|o]; try reflexivity.
  destruct x as [[|]| | |]; reflexivity.
Qed.

Lemma existsb_setKey (v : value) (l : list value) :
  existsb (sameValueZero (setKey v)) l = existsb (sameValueZero v) l.
Proof.
  induction l as [|u l IH]; [reflexivity|].
  cbn [existsb]. now rewrite IH, sameValueZero_setKey_l.
Qed.

Lemma dedup_fresh (values seen : list value) (v : value) :
  In v (dedup seen values) -> existsb (sameValueZero v) seen = false.
Proof.
  revert seen; induction values as [|x values IH]; intros seen; cbn [dedup]; [intros []|].
  destruct (existsb (sameValueZero x) seen) eqn:Hx; [apply IH|].
  intros [<-|Hin]; [now rewrite existsb_setKey|].
  apply IH in Hin. rewrite existsb_app in Hin. now apply orb_false_iff in Hin.
Qed.

Lemma dedup_incl (values seen : list value) (v : value) :
  In v (dedup seen values) -> exists u, In u values /\ v = setKey u.
Proof.
  revert seen; induction values as [|x values IH]; intros seen; cbn [dedup]; [intros []|].
  destruct (existsb (sameValueZero x) seen).
  - intros Hin. destruct (IH seen Hin) as [u [Hu ->]]. exists u. split; [now right|reflexivity].
  - intros [<-|Hin]; [exists x; split; [now left|reflexivity]|].
    destruct (IH _ Hin) as [u [Hu ->]]. exists u. split; [now right|reflexivity].
Qed.

Lemma dedup_distinct (values seen : list value) : distinct (dedup seen values).
Proof.
  revert seen; induction values as [|x values IH]; intros seen; cbn [dedup]; [exact I|].
  destruct (existsb (sameValueZero x) seen); [apply IH|].
  split; [|apply IH]. intros u Hu. apply dedup_fresh in Hu.
  rewrite existsb_app in Hu. apply orb_false_iff in Hu as [_ Hu].
  cbn [existsb] in Hu. now rewrite orb_false_r in Hu.
Qed.

Lemma dedup_covers (values seen : list value) (v : value) :
  In v values ->
  In (setKey v) (dedup seen values)
  \/ existsb (sameValueZero v) (seen ++ dedup seen values) = true.
Proof.
  revert seen; induction values as [|x values IH]; intros seen; [intros []|].
  cbn [dedup]. intros [<-|Hin].
  - destruct (existsb (sameValueZero x) seen) eqn:Hx.
    + right. rewrite existsb_app, Hx. reflexivity.
    + left. now left.
  - destruct (existsb (sameValueZero x) seen).
    + now apply IH.
    + destruct (IH (seen ++ [setKey x]) Hin) as [H|H]; [left; now right|].
      right. now rewrite <- app_assoc in H.
Qed.

Lemma sameValueZero_string (name : jsstring) (u : value) :
  sameValueZero (VStr name) u = true -> u = VStr name.
Proof.
  destruct u; cbn [sameValueZero]; try discriminate.
  intros H. apply str_eqb_eq in H. now subst.
Qed.

Section ModelsMore.

Variable E : Externals.

Lemma mapId_ids (models : list value) :
  forallb (fun m => negb (nullish m)) models = true ->
  mapId models = Normal (idsOf models).
Proof.
  induction models as [|m models IH]; [reflexivity|].
  cbn [forallb]. intros H. apply andb_true_iff in H as [Hm H].
  apply negb_true_iff in Hm. cbn [mapId]. unfold getProp. rewrite Hm.
  cbn [bind]. now rewrite (IH H).
Qed.

(** When the server answers with an array of models, [getLmStudioModels]
    returns their ids with every id once: no two of the ids returned are the
    same value, each is what a [Set] stores for the id of a model of the
    answer (the id itself, and [+0] for an id [-0]), and every id that is a
    string is among them. *)
Theorem getLmStudioModels_lists_each_id_once (baseUrl : jsstring)
  (responseData : value) (models : list value) :
  URL_canParse E baseUrl = true ->
  axios_get E (baseUrl ++ lit "/v1/models") = Normal responseData ->
  optProp responseData (lit "data") = VArr models ->
  forallb (fun m => negb (nullish m)) models = true ->
  exists ids,
    getLmStudioModels E (Some baseUrl) = Normal ids
    /\ distinct ids
    /\ (forall v, In v ids -> exists u, In u (idsOf models) /\ v = setKey u)
    /\ (forall name, In (VStr name) (idsOf models) -> In (VStr name) ids).
Proof.
  intros Hurl Hget Hdata Hmodels.
  exists (dedup [] (idsOf models)).
  unfold getLmStudioModels, getLmStudioModels_body.
  rewrite Hurl, Hget. cbn [negb bind]. unfold modelsArray.
  rewrite Hdata. cbn [nullish]. rewrite (mapId_ids models Hmodels).
  cbn [bind try_catch]. split; [reflexivity|]. split; [apply dedup_distinct|].
  split; [intros v; apply dedup_incl|].
  intros name Hin.
  destruct (dedup_covers (idsOf models) [] (VStr name) Hin) as [H|H]; [exact H|].
  cbn [app] in H. apply existsb_exists in H as [u [Hu Hsame]].
  apply sameValueZero_string in Hsame. now subst u.
Qed.

End ModelsMore.

Lemma getLmStudioModels_lists_each_id_once_witness :
  exists ids,
    getLmStudioModels Samples.E (Some (lit "http://localhost:1234")) = Normal ids
    /\ distinct ids
    /\ (forall v, In v ids ->
          exists u, In u [VStr (lit "a"); VStr (lit "b"); VStr (lit "a")] /\ v = setKey u)
    /\ (forall name, In (VStr name) [VStr (lit "a"); VStr (lit "b"); VStr (lit "a")] ->
          In (VStr name) ids).
Proof.
  exact (getLmStudioModels_lists_each_id_once Samples.E (lit "http://localhost:1234")
           Samples.listing
           [VObj [(lit "id", VStr (lit "a"))]; VObj [(lit "id", VStr (lit "b"))];
            VObj [(lit "id", VStr (lit "a"))]]
           eq_refl eq_refl eq_refl eq_refl).
Defined.

(** ** abort() and the finally block *)

Module LifecycleFacts.
Import Lifecycle.

Lemma upd_same {A : Type} (f : nat -> A) (k : nat) (v : A) : upd f k v k = v.
Proof. unfold upd. now rewrite Nat.eqb_refl. Qed.

Lemma upd_other {A : Type} (f : nat -> A) (k i : nat) (v : A) :
  i <> k -> upd f k v i = f i.
Proof. unfold upd. intros H. apply Nat.eqb_neq in H. now rewrite H. Qed.

Lemma destroy_atMostOnce (R : Runtime) (s : nat) (st : Store) :
  destroyThrows R s = false -> destroyed st s = false ->
  atMostOnce st -> atMostOnce (fst (destroy R s st)).
Proof.
  intros Hq Hd Hinv i. unfold destroy. rewrite Hq. cbn [fst destroyCalls destroyed].
  destruct (Nat.eq_dec i s) as [->|Hi].
  - right. rewrite !upd_same. split; [|reflexivity].
    destruct (Hinv s) as [->|[_ H]]; [reflexivity|congruence].
  - rewrite !upd_other by assumption. apply Hinv.
Qed.

Lemma controllerAbort_streams (R : Runtime) (c : nat) (st : Store) :
  destroyed (fst (controllerAbort R c st)) = destroyed st
  /\ destroyCalls (fst (controllerAbort R c st)) = destroyCalls st.
Proof. unfold controllerAbort. now destruct (abortThrows R c). Qed.

Lemma abort_atMostOnce (R : Runtime) (f : Fields) (st : Store) :
  (forall s, destroyThrows R s = false) ->
  atMostOnce st -> atMostOnce (snd (fst (abort R f st))).
Proof.
  intros Hq Hinv. unfold abort.
  assert (H1 : atMostOnce
                 (fst match currentStream f with
                      | Some s =>
                          let '(st', err) :=
                            if destroyed st s then (st, [])
                            else let (st', threw) := destroy R s st in
                                 (st', if threw then [ErrDestroyingStream] else []) in
                          (st', LogDestroyingStream :: err)
                      | None => (st, @nil AbortLog)
                      end)).
  { destruct (currentStream f) as [s|]; [|exact Hinv].
    destruct (destroyed st s) eqn:Hd; [exact Hinv|].
    pose proof (destroy_atMostOnce R s st (Hq s) Hd Hinv) as H.
    now destruct (destroy R s st). }
  destruct (match currentStream f with Some _ => _ | None => _ end) as [st1 log1].
  cbn [fst] in H1.
  destruct (currentAbortController f) as [c|]; [|exact H1].
  destruct (controllerAbort_streams R c st1) as [Hd Hc].
  destruct (controllerAbort R c st1) as [st2 threw]. cbn [fst snd] in *.
  intros s. rewrite Hd, Hc. apply H1.
Qed.

Lemma finallyBlock_atMostOnce (R : Runtime) (f : Fields) (st : Store) :
  (forall s, destroyThrows R s = false) ->
  atMostOnce st -> atMostOnce (snd (fst (finallyBlock R f st))).
Proof.
  intros Hq Hinv. unfold finallyBlock.
  destruct (currentStream f) as [s|]; [|exact Hinv].
  destruct (destroyed st s) eqn:Hd; cbn [negb]; [exact Hinv|].
  pose proof (destroy_atMostOnce R s st (Hq s) Hd Hinv) as H.
  destruct (destroy R s st) as [st' threw]. now destruct threw.
Qed.

Lemma step_atMostOnce (R : Runtime) (op : Op) (state : Fields * Store) :
  (forall s, destroyThrows R s = false) ->
  atMostOnce (snd state) -> atMostOnce (snd (step R state op)).
Proof.
  intros Hq. destruct state as [f st]. cbn [snd]. intros Hinv.
  destruct op as [c|s| | |s]; cbn [step snd]; try exact Hinv.
  - now apply abort_atMostOnce.
  - now apply finallyBlock_atMostOnce.
  - intros i. cbn [destroyCalls destroyed].
    destruct (Hinv i) as [H|[H Hd]]; [now left|right]. split; [exact H|].
    unfold upd. now destruct (Nat.eqb i s).
Qed.

Lemma run_atMostOnce (R : Runtime) (ops : list Op) (state : Fields * Store) :
  (forall s, destroyThrows R s = false) ->
  atMostOnce (snd state) -> atMostOnce (snd (run R ops state)).
Proof.
  intros Hq. unfold run. revert state.
  induction ops as [|op ops IH]; intros state Hinv; [exact Hinv|].
  cbn [fold_left]. apply IH. now apply step_atMostOnce.
Qed.

End LifecycleFacts.

(** [abort()] lets go of the request: both fields are [null] afterwards;
    the stream the handler held is destroyed and the signal of its
    controller is aborted (each unless its own call throws, so a failure to
    destroy the stream does not keep the request from being aborted); and
    a second call finds nothing to do and only logs that it was called. *)
Theorem abort_releases_the_request (R : Lifecycle.Runtime) (f : Lifecycle.Fields)
  (st : Lifecycle.Store) :
  let f' := fst (fst (Lifecycle.abort R f st)) in
  let st' := snd (fst (Lifecycle.abort R f st)) in
  f' = Lifecycle.idle
  /\ (forall s, Lifecycle.currentStream f = Some s ->
        Lifecycle.destroyThrows R s = false -> Lifecycle.destroyed st' s = true)
  /\ (forall c, Lifecycle.currentAbortController f = Some c ->
        Lifecycle.abortThrows R c = false -> Lifecycle.signalAborted st' c = true)
  /\ Lifecycle.abort R f' st' = (Lifecycle.idle, st', [Lifecycle.LogAbortCalled]).
Proof.
  cbv zeta. unfold Lifecycle.abort.
  destruct (Lifecycle.currentStream f) as [s|];
    destruct (Lifecycle.currentAbortController f) as [c|].
  - destruct (Lifecycle.destroyed st s) eqn:Hd.
    + unfold Lifecycle.controllerAbort.
      destruct (Lifecycle.abortThrows R c) eqn:Hc; cbn; repeat split; intros x Hx;
        try congruence; injection Hx as <-; intros _;
        try exact Hd; apply LifecycleFacts.upd_same.
    + unfold Lifecycle.destroy, Lifecycle.controllerAbort.
      destruct (Lifecycle.destroyThrows R s) eqn:Hs;
        destruct (Lifecycle.abortThrows R c) eqn:Hc; cbn; repeat split; intros x Hx;
        try congruence; injection Hx as <-; intros Hq;
        try congruence; apply LifecycleFacts.upd_same.
  - destruct (Lifecycle.destroyed st s) eqn:Hd.
    + cbn. repeat split; intros x Hx; try discriminate.
      injection Hx as <-. intros _. exact Hd.
    + unfold Lifecycle.destroy.
      destruct (Lifecycle.destroyThrows R s) eqn:Hs; cbn; repeat split; intros x Hx;
        try discriminate; injection Hx as <-; intros Hq;
        try congruence; apply LifecycleFacts.upd_same.
  - unfold Lifecycle.controllerAbort.
    destruct (Lifecycle.abortThrows R c) eqn:Hc; cbn; repeat split; intros x Hx;
      try discriminate; injection Hx as <-; intros Hq;
      try congruence; apply LifecycleFacts.upd_same.
  - cbn. repeat split; intros x Hx; discriminate.
Qed.

(** The [finally] block of [createMessage] leaves the handler without a
    stream and without a controller, and the stream it held destroyed,
    unless [destroy()] throws: the call is not guarded there, so the throw
    leaves the block with both fields as they were. *)
Theorem finally_clears_the_fields (R : Lifecycle.Runtime) (f : Lifecycle.Fields)
  (st : Lifecycle.Store) :
  let f' := fst (fst (Lifecycle.finallyBlock R f st)) in
  let st' := snd (fst (Lifecycle.finallyBlock R f st)) in
  let threw := snd (Lifecycle.finallyBlock R f st) in
  (threw = false ->
   f' = Lifecycle.idle
   /\ forall s, Lifecycle.currentStream f = Some s -> Lifecycle.destroyed st' s = true)
  /\ (threw = true ->
      f' = f
      /\ exists s, Lifecycle.currentStream f = Some s
                   /\ Lifecycle.destroyed st s = false
                   /\ Lifecycle.destroyThrows R s = true).
Proof.
  cbv zeta. unfold Lifecycle.finallyBlock.
  destruct (Lifecycle.currentStream f) as [s|] eqn:Hf.
  - destruct (Lifecycle.destroyed st s) eqn:Hd; cbn [negb].
    + cbn [fst snd]. split; [|discriminate]. intros _. split; [reflexivity|].
      intros x Hx. now injection Hx as <-.
    + unfold Lifecycle.destroy. destruct (Lifecycle.destroyThrows R s) eqn:Hs; cbn [fst snd].
      * split; [discriminate|]. intros _. split; [reflexivity|]. now exists s.
      * split; [|discriminate]. intros _. split; [reflexivity|].
        intros x Hx. injection Hx as <-. cbn [Lifecycle.destroyed].
        apply LifecycleFacts.upd_same.
  - cbn [fst snd]. split; [|discriminate]. intros _. split; [reflexivity|].
    intros x Hx. discriminate.
Qed.

(** Whatever the order in which requests start, bodies arrive, [abort()] is
    called, [finally] blocks run and the runtime closes streams: as long as
    [destroy()] does not throw, the handler calls it at most once on any
    stream, and a stream it called it on is destroyed. *)
Theorem stream_destroyed_at_most_once (R : Lifecycle.Runtime) (ops : list Lifecycle.Op)
  (f : Lifecycle.Fields) (st : Lifecycle.Store) (s : nat) :
  (forall s, Lifecycle.destroyThrows R s = false) ->
  (forall s, Lifecycle.destroyCalls st s = 0) ->
  Lifecycle.destroyCalls (snd (Lifecycle.run R ops (f, st))) s <= 1
  /\ (Lifecycle.destroyCalls (snd (Lifecycle.run R ops (f, st))) s = 1 ->
      Lifecycle.destroyed (snd (Lifecycle.run R ops (f, st))) s = true).
Proof.
  intros Hq H0.
  assert (Hinv : Lifecycle.atMostOnce (snd (f, st))) by (intros i; left; apply H0).
  destruct (LifecycleFacts.run_atMostOnce R ops (f, st) Hq Hinv s) as [H|[H Hd]].
  - rewrite H. split; [lia|discriminate].
  - rewrite H. split; [lia|now intros _].
Qed.

(** A request whose body arrives, is closed by the runtime, and is then
    aborted by the user while the generator runs its [finally] block. *)
Lemma stream_destroyed_at_most_once_witness :
  let ops := [Lifecycle.NewController 0; Lifecycle.StreamReceived (Some 1);
              Lifecycle.AbortCalled; Lifecycle.FinallyReached;
              Lifecycle.NewController 2; Lifecycle.StreamReceived (Some 3);
              Lifecycle.StreamCloses 3; Lifecycle.FinallyReached;
              Lifecycle.AbortCalled] in
  let final := snd (Lifecycle.run Lifecycle.quiet ops (Lifecycle.idle, Lifecycle.fresh)) in
  Lifecycle.destroyCalls final 1 <= 1
  /\ (Lifecycle.destroyCalls final 1 = 1 -> Lifecycle.destroyed final 1 = true).
Proof.
  exact (stream_destroyed_at_most_once Lifecycle.quiet
           [Lifecycle.NewController 0; Lifecycle.StreamReceived (Some 1);
            Lifecycle.AbortCalled; Lifecycle.FinallyReached;
            Lifecycle.NewController 2; Lifecycle.StreamReceived (Some 3);
            Lifecycle.StreamCloses 3; Lifecycle.FinallyReached;
            Lifecycle.AbortCalled]
           Lifecycle.idle Lifecycle.fresh 1 (fun _ => eq_refl) (fun _ => eq_refl)).
Defined.

(** ** The requests *)

Section RequestFacts.
Import Requests.

Variables ModelInfo Inherited : Type.
Variable getModelsFromCache : option (ModelRecord ModelInfo Inherited).
Variable openAiModelInfoSaneDefaults : ModelInfo.
Variable LMSTUDIO_DEFAULT_TEMPERATURE : spec_float.
Variables Tool OpenAiTools OpenAiMessage : Type.
Variable convertToolsForOpenAI : list Tool -> OpenAiTools.
Variable convertToOpenAiMessages : list MessageParam -> list OpenAiMessage.
Variable axios_post :
  jsstring -> ChatParams OpenAiMessage OpenAiTools -> completion value.
Variable options : ApiHandlerOptions.

(** The model id of a request is the configured id, or the empty string
    when none is configured, whatever the cache of models holds.  The cache
    decides the info only: it is what the property access [models[id]]
    finds for the configured id, that is the entry of the cache under that
    name, or, where the cache has no such entry, a property of that name
    which the cache object inherits (with the id [toString] and a cache
    without such an entry, the inherited function); and it is the default
    info when there is no cache, no id, or nothing under the name. *)
Theorem getModel_id_ignores_the_cache :
  let found := getModel getModelsFromCache openAiModelInfoSaneDefaults options in
  fst found = orElse (lmStudioModelId options) []
  /\ (forall models id info,
        getModelsFromCache = Some models ->
        lmStudioModelId options = Some id -> id <> [] ->
        entryOf id (entries models) = Some info ->
        snd found = AnInfo info)
  /\ (forall models id x,
        getModelsFromCache = Some models ->
        lmStudioModelId options = Some id -> id <> [] ->
        entryOf id (entries models) = None ->
        inherited models id = Some x ->
        snd found = AnInherited x)
  /\ (forall models id,
        getModelsFromCache = Some models ->
        lmStudioModelId options = Some id ->
        entryOf id (entries models) = None ->
        inherited models id = None ->
        snd found = AnInfo openAiModelInfoSaneDefaults)
  /\ (getModelsFromCache = None \/ orElse (lmStudioModelId options) [] = [] ->
      snd found = AnInfo openAiModelInfoSaneDefaults).
Proof.
  cbv zeta. unfold getModel, cachedInfo, propertyOf.
  split; [|split; [|split; [|split]]].
  - destruct getModelsFromCache as [models|]; [|reflexivity].
    destruct (lmStudioModelId options) as [[|c id]|]; try reflexivity.
    cbn [str_truthy]. destruct (entryOf _ _); [reflexivity|].
    now destruct (inherited models _).
  - intros models id info -> -> Hid He. destruct id as [|c id]; [congruence|].
    cbn [str_truthy]. now rewrite He.
  - intros models id x -> -> Hid He Hx. destruct id as [|c id]; [congruence|].
    cbn [str_truthy]. now rewrite He, Hx.
  - intros models id -> -> He Hx. destruct id as [|c id]; [reflexivity|].
    cbn [str_truthy]. now rewrite He, Hx.
  - intros [->|Hid]; [reflexivity|].
    destruct getModelsFromCache as [models|]; [|reflexivity].
    destruct (lmStudioModelId options) as [[|c id]|]; try reflexivity.
    discriminate.
Qed.

(** The tool keys of the streaming request go together: [tools] and
    [parallel_tool_calls] are sent exactly when native tools are used, that
    is when the metadata holds at least one tool and the tool protocol is
    not [xml]; [tool_choice] is sent only then, and only when it is truthy;
    [parallel_tool_calls] is [false] unless the metadata says otherwise;
    and [draft_model] is sent only when speculative decoding is enabled and
    a draft model is configured. *)
Theorem tool_keys_go_together (systemPrompt : jsstring) (msgs : list MessageParam)
  (metadata : option (Metadata Tool)) :
  let params :=
    createMessageParams getModelsFromCache openAiModelInfoSaneDefaults
      LMSTUDIO_DEFAULT_TEMPERATURE convertToolsForOpenAI convertToOpenAiMessages
      options systemPrompt msgs metadata in
  (useNativeTools metadata = true <->
   exists m t ts, metadata = Some m /\ md_tools m = Some (t :: ts)
                  /\ md_toolProtocol m <> Some (lit "xml"))
  /\ (useNativeTools metadata = true ->
      exists m ts,
        metadata = Some m /\ md_tools m = Some ts
        /\ tools params = Some (convertToolsForOpenAI ts)
        /\ parallel_tool_calls params
           = Some (match md_parallelToolCalls m with Some b => b | None => false end)
        /\ tool_choice params
           = if truthy (md_tool_choice m) then Some (md_tool_choice m) else None)
  /\ (useNativeTools metadata = false ->
      tools params = None /\ tool_choice params = None
      /\ parallel_tool_calls params = None)
  /\ (forall id, draft_model params = Some id ->
        lmStudioSpeculativeDecodingEnabled options = Some true
        /\ lmStudioDraftModelId options = Some id /\ id <> []).
Proof.
  cbv zeta. unfold createMessageParams, useNativeTools.
  cbn [tools tool_choice parallel_tool_calls draft_model].
  split; [|split; [|split]].
  - split.
    + destruct metadata as [m|]; [|discriminate].
      destruct (md_tools m) as [[|t ts]|] eqn:Ht; try discriminate.
      intros H. exists m, t, ts. repeat split; [exact Ht|].
      destruct (md_toolProtocol m) as [p|]; [|discriminate].
      intros Hp. injection Hp as ->. discriminate.
    + intros (m & t & ts & -> & -> & Hp).
      destruct (md_toolProtocol m) as [p|]; [|reflexivity].
      apply negb_true_iff. destruct (str_eqb p (lit "xml")) eqn:Hx; [|reflexivity].
      apply str_eqb_eq in Hx. now subst p.
  - destruct metadata as [m|]; [|discriminate].
    destruct (md_tools m) as [[|t ts]|] eqn:Ht; try discriminate.
    intros H. exists m, (t :: ts). rewrite H. cbn [andb]. now repeat split.
  - destruct metadata as [m|]; [|now repeat split].
    destruct (md_tools m) as [[|t ts]|] eqn:Ht; try (now repeat split).
    intros H. rewrite H. now repeat split.
  - intros id. unfold draftModel, truthyFlag, truthyString.
    destruct (lmStudioSpeculativeDecodingEnabled options) as [[|]|]; try discriminate.
    destruct (lmStudioDraftModelId options) as [[|c d]|]; try discriminate.
    cbn [str_truthy andb]. intros H. injection H as <-. now repeat split.
Qed.

(** [completePrompt] posts a request that does not stream to the
    completions endpoint of the base URL.  It rejects exactly when the
    request throws, and then with the one fixed message, whatever was
    thrown; every answer resolves: with the content of the first choice's
    message when that is truthy, and with the empty string for every other
    answer (no body, no choices, no message, empty content). *)
Theorem completePrompt_rejects_only_a_failed_request (prompt : jsstring) :
  let params :=
    completePromptParams getModelsFromCache openAiModelInfoSaneDefaults
      LMSTUDIO_DEFAULT_TEMPERATURE OpenAiTools OpenAiMessage options prompt in
  let url :=
    orElse (lmStudioBaseUrl options) (lit "http://localhost:1234")
    ++ lit "/v1/chat/completions" in
  let result :=
    completePrompt getModelsFromCache openAiModelInfoSaneDefaults
      LMSTUDIO_DEFAULT_TEMPERATURE axios_post options prompt in
  stream params = false
  /\ messages params = [UserMessage prompt]
  /\ (forall e, axios_post url params = Throw e -> result = Rejected FAILURE_MESSAGE)
  /\ (forall responseData,
        axios_post url params = Normal responseData ->
        let content :=
          optProp (optProp (optIndex0 (optProp responseData (lit "choices")))
                     (lit "message")) (lit "content") in
        result = Resolved (if truthy content then content else VStr [])).
Proof.
  cbv zeta. unfold completePrompt, completionsUrl, baseUrl, promptContent.
  rewrite <- app_assoc.
  change (lit "/v1" ++ lit "/chat/completions") with (lit "/v1/chat/completions").
  split; [reflexivity|]. split; [reflexivity|].
  split; [now intros e ->|now intros responseData ->].
Qed.

End RequestFacts.
